(** * The list document model of logootish-js (src/listmodel/index.ts)

    A shallow embedding of [OperationBuffer], [insertLocal],
    [insertLogoot], [removeLogoot], the anchor patch passes and [selfTest],
    together with the properties of the natural-language specification
    that are settled on it.

    JavaScript objects are references: every [AnchorLogootNode] lives in an
    object store (a list indexed by node identifiers), and arrays and
    [Set]s of nodes hold identifiers.  A [Set] keeps insertion order, so it
    is a duplicate-free list.  The order-statistic tree is kept as the
    in-order sequence of its node identifiers. *)

From stdpp Require Import list.

Open Scope Z_scope.

(** ** Errors

    [TypeError] is the invalid-argument kind, [InternalError] and
    [FatalError] are the two classes imported from [../utils]. *)

Inductive Error := InvalidArgument | Internal | Fatal.

Inductive result (A : Type) : Type :=
| Ok (a : A)
| Throw (e : Error).
Arguments Ok {A} a.
Arguments Throw {A} e.

#[global] Instance result_ret : MRet result := fun _ a => Ok a.
#[global] Instance result_bind : MBind result := fun _ _ k r =>
  match r with
  | Ok a => k a
  | Throw e => Throw e
  end.

(** [forEach] with a callback that may throw. *)
Fixpoint forEachM {A S : Type} (f : A -> S -> result S) (l : list A) (s : S)
  : result S :=
  match l with
  | [] => Ok s
  | x :: l' => s' ← f x s; forEachM f l' s'
  end.

(** ** Positions *)

(** A branch key is represented by its rank in the [BranchOrder]. *)
Definition BranchKey := nat.

Module LogootPosition.

(** Modelled from the spec: [LogootPosition] (listmodel/position.ts is not
    among the sources).  An ordered sequence of levels, each a pair of an
    atom and a branch; [length] is the number of levels, [levels] the index
    of the lowest one. *)
Definition t := list (Z * BranchKey).

Definition length (p : t) : nat := List.length p.

Definition levels (p : t) : nat := pred (List.length p).

(** Modelled from the spec: [l(level)] accesses the atom (with its branch)
    at a given level. *)
Definition l (p : t) (level : nat) : Z * BranchKey := nth level p (0, 0%nat).

(** Modelled from the spec: [offsetLowest(k)] is the position with the
    lowest-level atom incremented by [k]. *)
Fixpoint offsetLowest (p : t) (k : Z) : t :=
  match p with
  | [] => []
  | [(i, b)] => [(i + k, b)]
  | x :: p' => x :: offsetLowest p' k
  end.

(** Modelled from the spec: [inverseOffsetLowest(k)] decrements the
    lowest-level atom by [k]. *)
Definition inverseOffsetLowest (p : t) (k : Z) : t := offsetLowest p (- k).

(** Modelled from the spec: comparison is lexicographic by level, atoms
    numerically and ties by branch rank; of two positions equal up to a
    common prefix the shorter sorts first. *)
Fixpoint cmp (a b : t) : comparison :=
  match a, b with
  | [], [] => Eq
  | [], _ :: _ => Lt
  | _ :: _, [] => Gt
  | (i, br) :: a', (j, bs) :: b' =>
      match Z.compare i j with
      | Eq => match Nat.compare br bs with
              | Eq => cmp a' b'
              | c => c
              end
      | c => c
      end
  end.

Definition lt (a b : t) : bool := match cmp a b with Lt => true | _ => false end.
Definition gt (a b : t) : bool := match cmp a b with Gt => true | _ => false end.
Definition eq (a b : t) : bool := match cmp a b with Eq => true | _ => false end.
Definition lteq (a b : t) : bool := negb (gt a b).
Definition gteq (a b : t) : bool := negb (lt a b).

(** [p.l(level)[0].assign(i)] on a copy of [p]. *)
Definition assign (p : t) (level : nat) (i : Z) : t :=
  alter (fun '(_, b) => (i, b)) level p.

End LogootPosition.

(** ** Anchored nodes *)

Inductive NodeType := DATA | REMOVAL | DUMMY.

Definition NodeType_eqb (a b : NodeType) : bool :=
  match a, b with
  | DATA, DATA | REMOVAL, REMOVAL | DUMMY, DUMMY => true
  | _, _ => false
  end.

(** A left anchor is a position or the sentinel [DocStart], a right anchor
    a position or the sentinel [DocEnd]. *)
Inductive LeftAnchor := DocStart | LeftAt (p : LogootPosition.t).
Inductive RightAnchor := DocEnd | RightAt (p : LogootPosition.t).

Definition NodeId := nat.

(** Modelled from the spec: the fields of [AnchorLogootNode]
    (listmodel/logoot.ts is not among the sources).  [value] is the local
    offset of the run's first element. *)
Record AnchorLogootNode := mkNode {
  logoot_start : LogootPosition.t;
  length : Z;
  type : NodeType;
  clk : Z;
  value : Z;
  left_anchor : LeftAnchor;
  right_anchor : RightAnchor;
  conflict_with : list NodeId
}.

#[global] Instance AnchorLogootNode_inhabited : Inhabited AnchorLogootNode :=
  populate (mkNode [] 0 DUMMY 0 0 DocStart DocEnd []).

(** [new AnchorLogootNode(start, length, type, clk)] *)
Definition newNode (start : LogootPosition.t) (len : Z) (ty : NodeType) (c : Z)
  : AnchorLogootNode :=
  mkNode start len ty c 0 DocStart DocEnd [].

Definition logoot_end (n : AnchorLogootNode) : LogootPosition.t :=
  LogootPosition.offsetLowest (logoot_start n) (length n).

Definition ldoc_start (n : AnchorLogootNode) : Z := value n.

Definition ldoc_length (n : AnchorLogootNode) : Z :=
  match type n with
  | DATA => length n
  | _ => 0
  end.

Definition ldoc_end (n : AnchorLogootNode) : Z := ldoc_start n + ldoc_length n.

(** Modelled from the spec: [true_left] and [true_right] are the stored
    anchors, for a [DATA] node and for a [REMOVAL] alike. *)
Definition true_left (n : AnchorLogootNode) : LeftAnchor := left_anchor n.
Definition true_right (n : AnchorLogootNode) : RightAnchor := right_anchor n.

Definition set_length (v : Z) (n : AnchorLogootNode) : AnchorLogootNode :=
  mkNode (logoot_start n) v (type n) (clk n) (value n)
         (left_anchor n) (right_anchor n) (conflict_with n).
Definition set_type (v : NodeType) (n : AnchorLogootNode) : AnchorLogootNode :=
  mkNode (logoot_start n) (length n) v (clk n) (value n)
         (left_anchor n) (right_anchor n) (conflict_with n).
Definition set_clk (v : Z) (n : AnchorLogootNode) : AnchorLogootNode :=
  mkNode (logoot_start n) (length n) (type n) v (value n)
         (left_anchor n) (right_anchor n) (conflict_with n).
Definition set_value (v : Z) (n : AnchorLogootNode) : AnchorLogootNode :=
  mkNode (logoot_start n) (length n) (type n) (clk n) v
         (left_anchor n) (right_anchor n) (conflict_with n).
Definition set_left_anchor (v : LeftAnchor) (n : AnchorLogootNode) : AnchorLogootNode :=
  mkNode (logoot_start n) (length n) (type n) (clk n) (value n)
         v (right_anchor n) (conflict_with n).
Definition set_right_anchor (v : RightAnchor) (n : AnchorLogootNode) : AnchorLogootNode :=
  mkNode (logoot_start n) (length n) (type n) (clk n) (value n)
         (left_anchor n) v (conflict_with n).
Definition set_conflict_with (v : list NodeId) (n : AnchorLogootNode) : AnchorLogootNode :=
  mkNode (logoot_start n) (length n) (type n) (clk n) (value n)
         (left_anchor n) (right_anchor n) v.

(** ** JavaScript [Set]s of nodes: duplicate-free lists in insertion order *)

Definition set_has (s : list NodeId) (x : NodeId) : bool := existsb (Nat.eqb x) s.
Definition set_add (s : list NodeId) (x : NodeId) : list NodeId :=
  if set_has s x then s else s ++ [x].
Definition set_delete (s : list NodeId) (x : NodeId) : list NodeId :=
  filter (fun y => y ≠ x) s.

(** ** The document model: object store and tree *)

(** [nodes] is the object store; [bst] is the in-order sequence of the
    nodes held by the [DBst]. *)
Record ListDocumentModel := mkLdm {
  nodes : list AnchorLogootNode;
  bst : list NodeId
}.

Definition emptyLdm : ListDocumentModel := mkLdm [] [].

Definition node (m : ListDocumentModel) (id : NodeId) : AnchorLogootNode :=
  nodes m !!! id.
Arguments node : simpl never.

Definition update (id : NodeId) (f : AnchorLogootNode -> AnchorLogootNode)
  (m : ListDocumentModel) : ListDocumentModel :=
  mkLdm (alter f id (nodes m)) (bst m).

(** Allocation of a fresh object. *)
Definition alloc (n : AnchorLogootNode) (m : ListDocumentModel)
  : NodeId * ListDocumentModel :=
  (List.length (nodes m), mkLdm (nodes m ++ [n]) (bst m)).

(** ** Operations of the nodes *)

(** Modelled from the spec: [reduceLeft(pos)] sets [left_anchor] to [pos]
    when [pos] is greater than it, [reduceRight(pos)] sets [right_anchor]
    to [pos] when [pos] is less than it; the sentinels are the widest
    values. *)
Definition reduceLeft (pos : LogootPosition.t) (n : AnchorLogootNode) : AnchorLogootNode :=
  match left_anchor n with
  | DocStart => set_left_anchor (LeftAt pos) n
  | LeftAt a => if LogootPosition.gt pos a then set_left_anchor (LeftAt pos) n else n
  end.

Definition reduceRight (pos : LogootPosition.t) (n : AnchorLogootNode) : AnchorLogootNode :=
  match right_anchor n with
  | DocEnd => set_right_anchor (RightAt pos) n
  | RightAt a => if LogootPosition.lt pos a then set_right_anchor (RightAt pos) n else n
  end.

(** Modelled from the spec: [preferential_cmp] orders nodes by
    [logoot_start], the shorter of two positions with a common prefix
    first. *)
Definition preferential_cmp (a b : AnchorLogootNode) : comparison :=
  LogootPosition.cmp (logoot_start a) (logoot_start b).

Definition conflict_add (x : NodeId) (n : AnchorLogootNode) : AnchorLogootNode :=
  set_conflict_with (set_add (conflict_with n) x) n.

Definition conflict_delete (x : NodeId) (n : AnchorLogootNode) : AnchorLogootNode :=
  set_conflict_with (set_delete (conflict_with n) x) n.

(** Modelled from the spec: the anchor rule.  A node [c] on the left of
    [n] conflicts with it when [c.true_right] is [DocEnd] or greater than
    [n.logoot_start]; a node [c] on the right when [c.true_left] is
    [DocStart] or less than [n.logoot_end]. *)
Definition reaches (c n : AnchorLogootNode) : bool :=
  if LogootPosition.lt (logoot_start c) (logoot_start n) then
    match true_right c with
    | DocEnd => true
    | RightAt r => LogootPosition.gt r (logoot_start n)
    end
  else
    match true_left c with
    | DocStart => true
    | LeftAt l => LogootPosition.lt l (logoot_end n)
    end.

(** Modelled from the spec: [updateNeighborConflicts(last, bstadd)] makes
    [last] a member of the node's [conflict_with] exactly when [last]
    conflicts with it by the anchor rule, and returns whether it does. *)
Definition updateNeighborConflicts (self last : NodeId) (m : ListDocumentModel)
  : bool * ListDocumentModel :=
  if reaches (node m last) (node m self)
  then (true, update self (conflict_add last) m)
  else (false, update self (conflict_delete last) m).

(** ** The order-statistic tree *)

Inductive RangeBounds := LCGC | LOGC | LCGO | LOGO.

(** The three buckets of a search; [K] is the type of the keys. *)
Record Buckets (K : Type) := mkBuckets {
  lesser : list (K * NodeId);
  range : list (K * NodeId);
  greater : list (K * NodeId)
}.
Arguments mkBuckets {K} _ _ _.
Arguments lesser {K} _.
Arguments range {K} _.
Arguments greater {K} _.

Module DBst.

Fixpoint successor_in (order : list NodeId) (id : NodeId) : option NodeId :=
  match order with
  | [] => None
  | x :: rest => if Nat.eqb x id then head rest else successor_in rest id
  end.

(** Modelled from the spec: [inorder_successor] and [inorder_predecessor]
    (bst.ts is not among the sources) are the neighbours in the in-order
    traversal; a node that is not in the tree has none. *)
Definition inorder_successor (m : ListDocumentModel) (id : NodeId) : option NodeId :=
  successor_in (bst m) id.

Definition inorder_predecessor (m : ListDocumentModel) (id : NodeId) : option NodeId :=
  successor_in (rev (bst m)) id.

(** The in-order sequence from [id] on. *)
Fixpoint from (order : list NodeId) (id : NodeId) : list NodeId :=
  match order with
  | [] => []
  | x :: rest => if Nat.eqb x id then order else from rest id
  end.

Definition shift (delta : Z) (ids : list NodeId) (h : list AnchorLogootNode)
  : list AnchorLogootNode :=
  foldr (fun i h => alter (fun n => set_value (value n + delta) n) i h) h ids.

(** The successors of a node in the in-order traversal, nearest first, and
    its predecessors, nearest first. *)
Definition successors (m : ListDocumentModel) (id : NodeId) : list NodeId :=
  tail (from (bst m) id).

Definition predecessors (m : ListDocumentModel) (id : NodeId) : list NodeId :=
  tail (from (rev (bst m)) id).

(** Modelled from the spec: [addSpaceBefore(node, delta, reroot)] shifts
    [ldoc_start] of [node] and of all its successors by [delta]. *)
Definition addSpaceBefore (id : NodeId) (delta : Z) (m : ListDocumentModel)
  : ListDocumentModel :=
  mkLdm (shift delta (from (bst m) id) (nodes m)) (bst m).

Fixpoint place (m : ListDocumentModel) (id : NodeId) (order : list NodeId) : list NodeId :=
  match order with
  | [] => [id]
  | x :: rest =>
      match preferential_cmp (node m x) (node m id) with
      | Gt => id :: order
      | _ => x :: place m id rest
      end
  end.

(** Modelled from the spec: [add(node)] inserts the node in the in-order
    sequence, before the first node that compares greater. *)
Definition add (id : NodeId) (m : ListDocumentModel) : ListDocumentModel :=
  mkLdm (nodes m) (place m id (bst m)).

(** [Array.prototype.sort] with [preferential_cmp]: a stable insertion sort. *)
Definition sort (m : ListDocumentModel) (ids : list NodeId) : list NodeId :=
  foldl (fun acc id => place m id acc) [] ids.

Definition below (bounds : RangeBounds) (min : option LogootPosition.t)
  (x : LogootPosition.t) : bool :=
  match min with
  | None => false
  | Some lo =>
      match bounds with
      | LCGC | LCGO => LogootPosition.lt x lo
      | LOGC | LOGO => LogootPosition.lteq x lo
      end
  end.

Definition above (bounds : RangeBounds) (max : option LogootPosition.t)
  (x : LogootPosition.t) : bool :=
  match max with
  | None => false
  | Some hi =>
      match bounds with
      | LCGC | LOGC => LogootPosition.gt x hi
      | LCGO | LOGO => LogootPosition.gteq x hi
      end
  end.

(** Modelled from the spec: [prefSearch(range)] returns the nodes whose
    [logoot_start] lies in the range, with the nearest node below it in
    [lesser] and the nearest node above it in [greater]; a closed end of
    the range includes its endpoint, an open one excludes it. *)
Definition prefSearch (m : ListDocumentModel) (min max : option LogootPosition.t)
  (bounds : RangeBounds) : Buckets NodeId :=
  let key i := logoot_start (node m i) in
  let lo := filter (fun i => below bounds min (key i) = true) (bst m) in
  let hi := filter (fun i => below bounds min (key i) = false
                             /\ above bounds max (key i) = true) (bst m) in
  let mid := filter (fun i => below bounds min (key i) = false
                              /\ above bounds max (key i) = false) (bst m) in
  mkBuckets ((fun i => (i, i)) <$> option_list (last lo))
            ((fun i => (i, i)) <$> mid)
            ((fun i => (i, i)) <$> option_list (head hi)).

End DBst.

(** ** JavaScript numbers *)

(** The numbers of the source are IEEE 754 doubles that hold integers.
    The model holds them as integers, and writes the sums, differences and
    comparisons of the source as those of the integers, which they are as
    long as the magnitude of every result is at most 2^53.  [double x] is
    the double nearest to the integer [x], ties going to the even
    significand (below the magnitude 2^1024, where doubles end), and
    [add] is the sum of two integer-valued doubles as JavaScript computes
    it. *)
Module Number.

Definition double (x : Z) : Z :=
  let a := Z.abs x in
  let e := Z.log2 a - 52 in
  if e <=? 0 then x
  else
    let q := Z.shiftr a e in
    let r := a - Z.shiftl q e in
    let half := Z.shiftl 1 (e - 1) in
    let q := if (half <? r) || ((half =? r) && Z.odd q) then q + 1 else q in
    Z.sgn x * Z.shiftl q e.

Definition add (a b : Z) : Z := double (a + b).

End Number.

(** ** The operation buffer *)

Inductive Operation :=
| RemovalOperation (start len : Z)
| InsertionOperation (start offset len : Z)
| MarkOperation (start len : Z) (conflicting : bool).

Module OperationBuffer.

Record t := mk {
  operations : list Operation;
  dummy_node : option NodeId;
  length_avail : Z
}.

(** [new OperationBuffer(bst, opts, length_avail)] *)
Definition new (avail : Z) : t := mk [] None avail.

Definition push (op : Operation) (b : t) : t :=
  mk (operations b ++ [op]) (dummy_node b) (length_avail b).

Definition set_dummy_node (d : NodeId) (b : t) : t :=
  mk (operations b) (Some d) (length_avail b).

(** The two effects on the tree that [remove] and [insert] share: the
    dummy node's [value] moves when the change lies at or below it, and
    the successor of [nd] is shifted.  [opts.agressively_test_bst] has its
    default [false]: the debugging calls of [bst.selfTest] are left out. *)
Definition mirror (nd : NodeId) (start delta : Z) (b : t) (m : ListDocumentModel)
  : ListDocumentModel :=
  let m :=
    match dummy_node b with
    | Some d =>
        if ldoc_start (node m d) >=? start
        then update d (fun n => set_value (value n + delta) n) m
        else m
    | None => m
    end in
  match DBst.inorder_successor m nd with
  | Some s => DBst.addSpaceBefore s delta m
  | None => m
  end.

Definition remove (nd : NodeId) (start len : Z) (s : ListDocumentModel * t)
  : result (ListDocumentModel * t) :=
  if len =? 0 then Ok s
  else if start <? 0 then Throw Fatal
  else if len <? 0 then Throw Fatal
  else
    let b := push (RemovalOperation start len) s.2 in
    Ok (mirror nd start (- len) b s.1, b).

(** The sum [offset + length] of the fourth guard is a sum of doubles in
    the source, [Number.add offset len]; it is written as the sum of the
    integers, which it is when its magnitude is at most 2^53.  Above that
    magnitude the sum of the source can round down to [length_avail], and
    the source then accepts an insertion that this guard refuses. *)
Definition insert (nd : NodeId) (start offset len : Z) (s : ListDocumentModel * t)
  : result (ListDocumentModel * t) :=
  if len =? 0 then Ok s
  else if start <? 0 then Throw Fatal
  else if len <? 0 then Throw Fatal
  else if offset + len >? length_avail s.2 then Throw Fatal
  else
    let b := push (InsertionOperation start offset len) s.2 in
    Ok (mirror nd start len b s.1, b).

End OperationBuffer.

(** ** [insertLocal] *)

(** The object [{ left?, right?, clk, length }] returned by [insertLocal]. *)
Record Envelope := mkEnvelope {
  env_left : option LogootPosition.t;
  env_right : option LogootPosition.t;
  env_clk : Z;
  env_length : Z
}.

Section InsertLocal.

(** [this.bst.search(new NumberRange(start, start, RangeBounds.LOGO))]:
    the tree search by local offset is not among the sources and is taken
    as a parameter. *)
Variable search : ListDocumentModel -> Z -> Buckets Z.

(** The body of the [forEach] that derives [max_clock]. *)
Definition max_clock_step (m : ListDocumentModel) (max_clock : Z) (e : Z * NodeId) : Z :=
  let n := node m e.2 in
  if NodeType_eqb (type n) DATA then max_clock
  else if clk n >=? max_clock then clk n + 1
  else max_clock.

(** The local function [search] of [insertLocal]: the [DATA] node of a
    bucket, [InternalError] when there are two. *)
Fixpoint search_data (m : ListDocumentModel) (array : list (Z * NodeId))
  (data_node : option NodeId) : result (option NodeId) :=
  match array with
  | [] => Ok data_node
  | e :: rest =>
      if NodeType_eqb (type (node m e.2)) DATA then
        match data_node with
        | Some _ => Throw Internal
        | None => search_data m rest (Some e.2)
        end
      else search_data m rest data_node
  end.

Definition insertLocal (m : ListDocumentModel) (start len : Z) : result Envelope :=
  if start <? 0 then Throw InvalidArgument
  else if len <=? 0 then Throw InvalidArgument
  else
    let buckets := search m start in
    let max_clock :=
      fold_left (max_clock_step m) (lesser buckets ++ greater buckets) 0 in
    lesser_node ← search_data m (lesser buckets) None;
    let between :=
      greater_node ← search_data m (greater buckets) None;
      Ok (mkEnvelope ((fun i => logoot_end (node m i)) <$> lesser_node)
                     ((fun i => logoot_start (node m i)) <$> greater_node)
                     max_clock len) in
    match lesser_node with
    | Some i =>
        if ldoc_end (node m i) >? start then
          let pos := LogootPosition.offsetLowest (logoot_start (node m i))
                       (start - ldoc_start (node m i)) in
          Ok (mkEnvelope (Some pos) (Some pos) max_clock len)
        else between
    | None => between
    end.

End InsertLocal.

(** ** Range slicing *)

(** The number of atoms of the run [start, start + len) that lie below the
    boundary [b]. *)
Definition atoms_below (start : LogootPosition.t) (len : Z) (b : LogootPosition.t) : Z :=
  Z.of_nat (List.length
    (filter (fun j => LogootPosition.lt (LogootPosition.offsetLowest start (Z.of_nat j)) b = true)
            (seq 0 (Z.to_nat len)))).

(** Modelled from the spec: a node that straddles a boundary is split at
    it.  The node keeps the atoms below the boundary; the atoms above go
    to a new node with the same [type], [clk] and [conflict_with], which is
    entered in the [conflict_with] of every node of that set, and whose
    [ldoc_start] continues the node's.  The spec names no anchors for the
    halves: the outer anchors stay, and between the halves the anchors are
    the split point, the one choice under which the halves do not conflict
    with each other. *)
Definition splitAround (id : NodeId) (k : Z) (m : ListDocumentModel)
  : NodeId * ListDocumentModel :=
  let n := node m id in
  let at_split := LogootPosition.offsetLowest (logoot_start n) k in
  let upper :=
    mkNode at_split (length n - k) (type n) (clk n)
           (ldoc_start n + match type n with DATA => k | _ => 0 end)
           (LeftAt at_split) (right_anchor n) (conflict_with n) in
  let m := update id (fun n => set_right_anchor (RightAt at_split) (set_length k n)) m in
  let '(uid, m) := alloc upper m in
  (uid, foldr (fun c m => update c (conflict_add uid) m) m (conflict_with n)).

(** The nodes of [ids] below the boundary [b], and the others; [onSplit]
    is [bst.add]. *)
Fixpoint slice_at (b : LogootPosition.t) (ids : list NodeId) (m : ListDocumentModel)
  : list NodeId * list NodeId * ListDocumentModel :=
  match ids with
  | [] => ([], [], m)
  | id :: rest =>
      let n := node m id in
      if LogootPosition.gteq (logoot_start n) b then
        let '(lo, hi, m) := slice_at b rest m in (lo, id :: hi, m)
      else
        let k := atoms_below (logoot_start n) (length n) b in
        if k <? length n then
          let '(uid, m) := splitAround id k m in
          let m := DBst.add uid m in
          let '(lo, hi, m) := slice_at b rest m in
          (id :: lo, uid :: hi, m)
        else
          let '(lo, hi, m) := slice_at b rest m in (id :: lo, hi, m)
  end.

(** Modelled from the spec: [sliceNodesIntoRanges(boundaries, nodes,
    onSplit)] partitions the sorted nodes into one group more than there
    are boundaries, splitting the nodes that straddle a boundary. *)
Fixpoint sliceNodesIntoRanges (boundaries : list LogootPosition.t) (ids : list NodeId)
  (m : ListDocumentModel) : list (list NodeId) * ListDocumentModel :=
  match boundaries with
  | [] => ([ids], m)
  | b :: bs =>
      let '(lo, hi, m) := slice_at b ids m in
      let '(groups, m) := sliceNodesIntoRanges bs hi m in
      (lo :: groups, m)
  end.

(** ** [constructSkipRanges] *)

Record SkipRanges := mkSkipRanges {
  anchor_left : option NodeId;
  nc_left : list NodeId;
  skip_ranges : list NodeId;
  nc_right : list NodeId;
  anchor_right : option NodeId
}.

(** The local function [lowestData]: the first [DATA] node of an array. *)
Definition lowestData (m : ListDocumentModel) (in_array : list NodeId) : option NodeId :=
  head (filter (fun i => NodeType_eqb (type (node m i)) DATA = true) in_array).

Definition constructSkipRanges (left : option LogootPosition.t)
  (start end_ : LogootPosition.t) (right : option LogootPosition.t)
  (m : ListDocumentModel) : SkipRanges * ListDocumentModel :=
  let buckets :=
    DBst.prefSearch m ((fun l => LogootPosition.inverseOffsetLowest l 1) <$> left)
                    right LOGO in
  let blob :=
    DBst.sort m (((fun e => e.1) <$> lesser buckets)
                 ++ ((fun e => e.1) <$> range buckets)
                 ++ ((fun e => e.1) <$> greater buckets)) in
  let '(groups, m) :=
    sliceNodesIntoRanges [default start left; start; end_; default end_ right] blob m in
  let aleft := groups !!! 0%nat in
  let nc_left := groups !!! 1%nat in
  let skip_ranges := groups !!! 2%nat in
  let nc_right := groups !!! 3%nat in
  let aright := groups !!! 4%nat in
  let '(nc_left, aleft) :=
    match left with None => (nc_left ++ aleft, []) | Some _ => (nc_left, aleft) end in
  let '(nc_right, aright) :=
    match right with None => (nc_right ++ aright, []) | Some _ => (nc_right, aright) end in
  let needs_dummy :=
    match last skip_ranges with
    | None => true
    | Some i => LogootPosition.lt (logoot_end (node m i)) end_
    end in
  let '(skip_ranges, m) :=
    if needs_dummy then
      let dummy := newNode end_ 0 DUMMY 0 in
      let v :=
        match last skip_ranges, head nc_right, last nc_left, last (lesser buckets) with
        | Some i, _, _, _ => ldoc_end (node m i)
        | None, Some i, _, _ => ldoc_start (node m i)
        | None, None, Some i, _ => ldoc_end (node m i)
        | None, None, None, Some e => ldoc_end (node m e.1)
        | None, None, None, None => value dummy
        end in
      let '(d, m) := alloc (set_value v dummy) m in
      (skip_ranges ++ [d], m)
    else (skip_ranges, m) in
  let anchor_left :=
    match left, lowestData m (rev aleft) with
    | Some l, Some i =>
        if LogootPosition.eq (logoot_end (node m i)) l then Some i else None
    | _, _ => None
    end in
  let anchor_right :=
    match right, lowestData m aright with
    | Some r, Some i =>
        if LogootPosition.eq (logoot_start (node m i)) r then Some i else None
    | _, _ => None
    end in
  (mkSkipRanges anchor_left nc_left skip_ranges nc_right anchor_right, m).

(** ** [fillSkipRanges] *)

(** The body of the [flatMap]: the state is the model, the operation
    buffer, [last_level_pos] and the nodes returned so far. *)
Definition fillSkipRanges_step (start : LogootPosition.t) (clock : Z) (ty : NodeType)
  (nd : NodeId)
  (acc : ListDocumentModel * OperationBuffer.t * Z * list NodeId)
  : result (ListDocumentModel * OperationBuffer.t * Z * list NodeId) :=
  let '(m, b, last_level_pos, filled) := acc in
  let level := LogootPosition.levels start in
  let start_int := (LogootPosition.l start level).1 in
  let space_avail :=
    (LogootPosition.l (logoot_start (node m nd)) level).1 - last_level_pos in
  '(m, b, nnode) ←
    (if space_avail >? 0 then
       let nstart := LogootPosition.assign start level last_level_pos in
       let offset := last_level_pos - start_int in
       let fresh :=
         set_right_anchor DocEnd (set_left_anchor DocStart
           (set_value (ldoc_start (node m nd)) (newNode nstart space_avail ty clock))) in
       let '(i, m) := alloc fresh m in
       let m := DBst.add i m in
       s ← OperationBuffer.insert i (ldoc_start (node m i)) offset
              (ldoc_length (node m i)) (m, b);
       Ok (s.1, s.2, Some i)
     else Ok (m, b, None));
  '(m, b) ←
    (if negb (NodeType_eqb (type (node m nd)) DUMMY)
        && Nat.eqb (LogootPosition.levels (logoot_start (node m nd))) level
        && (clk (node m nd) <=? clock)
     then
       let offset := (LogootPosition.l (logoot_start (node m nd)) level).1 - start_int in
       let m := update nd (set_clk clock) m in
       s ← OperationBuffer.remove nd (ldoc_start (node m nd))
              (ldoc_length (node m nd)) (m, b);
       let m := update nd (set_type ty) s.1 in
       OperationBuffer.insert nd (ldoc_start (node m nd)) offset
         (ldoc_length (node m nd)) (m, s.2)
     else Ok (m, b));
  Ok (m, b, (LogootPosition.l (logoot_end (node m nd)) level).1,
      filled ++ option_list nnode
             ++ (if NodeType_eqb (type (node m nd)) DUMMY then [] else [nd])).

Definition fillSkipRanges (start : LogootPosition.t) (clock : Z) (ty : NodeType)
  (skip_ranges : list NodeId) (s : ListDocumentModel * OperationBuffer.t)
  : result (list NodeId * (ListDocumentModel * OperationBuffer.t)) :=
  let start_int := (LogootPosition.l start (LogootPosition.levels start)).1 in
  '(m, b, _, filled) ←
    forEachM (fillSkipRanges_step start clock ty) skip_ranges (s.1, s.2, start_int, []);
  Ok (filled, (m, b)).

(** ** [linkFilledSkipRanges] *)

(** The body of the [forEach]: the state is the model, [last_level_anchor]
    and [last_node_to_anchor]. *)
Definition linkFilledSkipRanges_step (alvl : nat) (nd : NodeId)
  (acc : ListDocumentModel * option LogootPosition.t * option NodeId)
  : ListDocumentModel * option LogootPosition.t * option NodeId :=
  let '(m, last_level_anchor, last_node_to_anchor) := acc in
  let m :=
    match last_level_anchor with
    | Some a =>
        if Nat.eqb (LogootPosition.levels a) alvl then update nd (reduceLeft a) m else m
    | None => m
    end in
  let m :=
    match last_node_to_anchor with
    | Some p =>
        if Nat.eqb (LogootPosition.levels (logoot_start (node m nd))) alvl
        then update p (reduceRight (logoot_start (node m nd))) m
        else m
    | None => m
    end in
  (m, Some (logoot_end (node m nd)), Some nd).

Definition linkFilledSkipRanges (left right : option LogootPosition.t)
  (filled_skip_ranges : list NodeId) (m : ListDocumentModel) : ListDocumentModel :=
  let alvl :=
    match left, right with
    | Some l, Some r => Nat.min (LogootPosition.levels l) (LogootPosition.levels r)
    | Some l, None => LogootPosition.levels l
    | None, Some r => LogootPosition.levels r
    | None, None => 0%nat
    end in
  let chosen :=
    filter (fun i => Nat.eqb (LogootPosition.levels (logoot_start (node m i))) alvl = true
                     /\ NodeType_eqb (type (node m i)) DATA = true)
           filled_skip_ranges in
  let '(m, _, last_node_to_anchor) :=
    foldl (fun acc nd => linkFilledSkipRanges_step alvl nd acc) (m, left, None) chosen in
  match last_node_to_anchor, right with
  | Some p, Some r => update p (reduceRight r) m
  | _, _ => m
  end.

(** ** [fillRangeConflicts] *)

(** One sweep: [range.forEach(cfupdate)] inside [catchBreak]. *)
Fixpoint fillRangeConflicts_sweep (last : option NodeId) (range : list NodeId)
  (m : ListDocumentModel) : ListDocumentModel :=
  match range with
  | [] => m
  | nd :: rest =>
      match last with
      | Some l =>
          let '(conflict, m) := updateNeighborConflicts nd l m in
          if conflict then fillRangeConflicts_sweep (Some nd) rest m else m
      | None => fillRangeConflicts_sweep (Some nd) rest m
      end
  end.

(** [range.reverse()] works in place and the array is not turned back:
    the function returns the array as the caller finds it afterwards. *)
Definition fillRangeConflicts (nl_lesser nl_greater : option NodeId)
  (range : list NodeId) (m : ListDocumentModel) : list NodeId * ListDocumentModel :=
  let m := fillRangeConflicts_sweep nl_lesser range m in
  let range := rev range in
  (range, fillRangeConflicts_sweep nl_greater range m).

(** ** [patchRemovalAnchors] *)

Definition createScanset (m : ListDocumentModel) (nd : NodeId) : list NodeId :=
  set_add (conflict_with (node m nd)) nd.

(** A node whose anchor on the scanned side is the document's end (start)
    leaves the scan set of a [DATA] node. *)
Definition sees_infinity (backwards : bool) (n : AnchorLogootNode) : bool :=
  if backwards
  then match true_left n with DocStart => true | LeftAt _ => false end
  else match true_right n with DocEnd => true | RightAt _ => false end.

(** The callback of [scan_nodes.forEach] at a node that is not a [DATA]
    node; the state is the model and the scan set.  The source casts the
    anchor to a position: comparing a sentinel is a run-time [TypeError]. *)
Definition patchRemovalAnchors_scan (backwards : bool) (cur snode : NodeId)
  (s : ListDocumentModel * list NodeId) : result (ListDocumentModel * list NodeId) :=
  let '(m, scan_nodes) := s in
  if backwards then
    match true_left (node m snode) with
    | DocStart => Throw InvalidArgument
    | LeftAt apos =>
        if LogootPosition.gt apos (logoot_end (node m cur))
        then Ok (m, set_delete scan_nodes snode)
        else
          let m :=
            if LogootPosition.gt apos (logoot_start (node m cur))
            then update snode (set_left_anchor (LeftAt (logoot_start (node m cur)))) m
            else m in
          Ok (update cur (conflict_add snode) m, scan_nodes)
    end
  else
    match true_right (node m snode) with
    | DocEnd => Throw InvalidArgument
    | RightAt apos =>
        if LogootPosition.lt apos (logoot_start (node m cur))
        then Ok (m, set_delete scan_nodes snode)
        else
          let m :=
            if LogootPosition.lt apos (logoot_end (node m cur))
            then update snode (set_right_anchor (RightAt (logoot_end (node m cur)))) m
            else m in
          Ok (update cur (conflict_add snode) m, scan_nodes)
    end.

(** The callback of [range.forEach]. *)
Definition patchRemovalAnchors_node (backwards : bool) (nd : NodeId)
  (s : ListDocumentModel * list NodeId) : result (ListDocumentModel * list NodeId) :=
  let '(m, scan_nodes) := s in
  if NodeType_eqb (type (node m nd)) DATA then
    Ok (m, filter (fun i => sees_infinity backwards (node m i) = false)
                  (createScanset m nd))
  else forEachM (patchRemovalAnchors_scan backwards nd) scan_nodes (m, scan_nodes).

Definition patchRemovalAnchors (range : list NodeId) (backwards : bool)
  (m : ListDocumentModel) : result ListDocumentModel :=
  s ← forEachM (patchRemovalAnchors_node backwards)
        (if backwards then rev range else range) (m, []);
  Ok s.1.

(** ** [insertLogoot] *)

(** The two loops over [createScanset(nl_lesser)] and
    [createScanset(nl_greater)] that tighten the right anchor of an outer
    filled node [target]. *)
Definition tighten_outer (target : NodeId) (set : list NodeId) (m : ListDocumentModel)
  : ListDocumentModel :=
  foldl (fun m nd =>
           match true_left (node m nd) with
           | DocStart => m
           | LeftAt l =>
               if LogootPosition.eq l (logoot_end (node m target))
               then update target (reduceRight (logoot_start (node m nd))) m
               else m
           end) m set.

(** [nc_left.reverse().every(...)]: [x] enters the [conflict_with] of the
    nodes of [ids] up to and including the first one that ends at or below
    [stoppos]. *)
Fixpoint mark_left (stoppos : option LogootPosition.t) (x : NodeId) (ids : list NodeId)
  (m : ListDocumentModel) : ListDocumentModel :=
  match ids with
  | [] => m
  | nd :: rest =>
      let m := update nd (conflict_add x) m in
      match stoppos with
      | Some p =>
          if LogootPosition.lteq (logoot_end (node m nd)) p then m
          else mark_left stoppos x rest m
      | None => mark_left stoppos x rest m
      end
  end.

(** [nc_right.every(...)]: [x] enters the [conflict_with] of the nodes of
    [ids] before the first one that starts at or above [stoppos]. *)
Fixpoint mark_right (stoppos : option LogootPosition.t) (x : NodeId) (ids : list NodeId)
  (m : ListDocumentModel) : ListDocumentModel :=
  match ids with
  | [] => m
  | nd :: rest =>
      match stoppos with
      | Some p =>
          if LogootPosition.gteq (logoot_start (node m nd)) p then m
          else mark_right stoppos x rest (update nd (conflict_add x) m)
      | None => mark_right stoppos x rest (update nd (conflict_add x) m)
      end
  end.

(** The [while] loops that clear an outer anchor node out of the
    [conflict_with] of the nodes of [walk], up to the first node that does
    not hold it. *)
Fixpoint clear_conflicts (anchor : NodeId) (walk : list NodeId) (m : ListDocumentModel)
  : ListDocumentModel :=
  match walk with
  | [] => m
  | nd :: rest =>
      if set_has (conflict_with (node m nd)) anchor
      then clear_conflicts anchor rest (update nd (conflict_delete anchor) m)
      else m
  end.

Section InsertLogoot.

(** [new LogootPosition(br, length, left, right, this.branch_order)]: the
    position generator is not among the sources and is taken as a
    parameter. *)
Variable newBetween :
  BranchKey -> Z -> option LogootPosition.t -> option LogootPosition.t -> LogootPosition.t.

(** [insertLogoot] once [start] has been generated. *)
Definition insertLogootAt (start : LogootPosition.t)
  (left right : option LogootPosition.t) (len clock : Z) (m : ListDocumentModel)
  : result (list Operation * ListDocumentModel) :=
  let end_ := LogootPosition.offsetLowest start len in
  let '(sr, m) := constructSkipRanges left start end_ right m in
  let opbuf := OperationBuffer.new len in
  let opbuf :=
    match last (skip_ranges sr) with
    | Some d =>
        if NodeType_eqb (type (node m d)) DUMMY
        then OperationBuffer.set_dummy_node d opbuf else opbuf
    | None => opbuf
    end in
  '(filled_skip_ranges, (m, opbuf)) ←
    fillSkipRanges start clock DATA (skip_ranges sr) (m, opbuf);
  let m := linkFilledSkipRanges left right filled_skip_ranges m in
  let nl_lesser :=
    match last (nc_left sr) with Some i => Some i | None => anchor_left sr end in
  let nl_greater :=
    match head (nc_right sr) with Some i => Some i | None => anchor_right sr end in
  let first_node := head filled_skip_ranges in
  let m :=
    match nl_lesser, first_node with
    | Some l, Some f => tighten_outer f (createScanset m l) m
    | _, _ => m
    end in
  let last_node := last filled_skip_ranges in
  let m :=
    match nl_greater, last_node with
    | Some g, Some f => tighten_outer f (createScanset m g) m
    | _, _ => m
    end in
  let '(filled_skip_ranges, m) :=
    fillRangeConflicts nl_lesser nl_greater filled_skip_ranges m in
  let m :=
    match head filled_skip_ranges, first_node with
    | Some f0, Some f =>
        let stoppos :=
          match true_left (node m f) with DocStart => None | LeftAt p => Some p end in
        mark_left stoppos f0 (rev (nc_left sr)) m
    | _, _ => m
    end in
  let m :=
    match last filled_skip_ranges, last_node with
    | Some fl, Some f =>
        let stoppos :=
          match true_right (node m f) with DocEnd => None | RightAt p => Some p end in
        mark_right stoppos fl (nc_right sr) m
    | _, _ => m
    end in
  let m :=
    match anchor_left sr with
    | Some a =>
        let m := update a (reduceRight start) m in
        match head filled_skip_ranges with
        | Some f0 => clear_conflicts a (f0 :: DBst.successors m f0) m
        | None => m
        end
    | None => m
    end in
  let m :=
    match anchor_right sr with
    | Some a =>
        let m := update a (reduceLeft end_) m in
        match last filled_skip_ranges with
        | Some fl => clear_conflicts a (fl :: DBst.predecessors m fl) m
        | None => m
        end
    | None => m
    end in
  let composite :=
    option_list nl_lesser ++ filled_skip_ranges ++ option_list nl_greater in
  m ← patchRemovalAnchors composite false m;
  m ← patchRemovalAnchors composite true m;
  Ok (OperationBuffer.operations opbuf, m).

Definition insertLogoot (br : BranchKey) (left right : option LogootPosition.t)
  (len clock : Z) (m : ListDocumentModel)
  : result (list Operation * ListDocumentModel) :=
  insertLogootAt (newBetween br len left right) left right len clock m.

End InsertLogoot.

(** ** [removeLogoot] *)

(** The gate of [rm_range.forEach] on the clock and on the nesting length,
    and the body of the loop.  [node.clk.assign(clk)] writes the
    node's own clock. *)
Definition removal_applies (start : LogootPosition.t) (clock : Z)
  (n : AnchorLogootNode) : bool :=
  (clk n <=? clock)
  && Nat.eqb (LogootPosition.length (logoot_start n)) (LogootPosition.length start).

Definition removeLogoot_step (start : LogootPosition.t) (clock : Z) (nd : NodeId)
  (s : ListDocumentModel * OperationBuffer.t)
  : result (ListDocumentModel * OperationBuffer.t) :=
  let n := node s.1 nd in
  if removal_applies start clock n
  then
    s ← OperationBuffer.remove nd (ldoc_start n) (ldoc_length n) s;
    Ok (update nd (fun n => set_clk clock (set_type REMOVAL n)) s.1, s.2)
  else Ok s.

(** The first [while] loop: [lesser] grows backwards by the predecessors
    [preds] of its first node as long as its first node is a [REMOVAL]. *)
Fixpoint grow_lesser (m : ListDocumentModel) (preds lesser : list NodeId) : list NodeId :=
  match head lesser, preds with
  | Some h, p :: preds' =>
      if NodeType_eqb (type (node m h)) REMOVAL
      then grow_lesser m preds' (p :: lesser)
      else lesser
  | _, _ => lesser
  end.

(** The second [while] loop, forwards by the successors of the last node. *)
Fixpoint grow_greater (m : ListDocumentModel) (succs greater : list NodeId) : list NodeId :=
  match last greater, succs with
  | Some h, p :: succs' =>
      if NodeType_eqb (type (node m h)) REMOVAL
      then grow_greater m succs' (greater ++ [p])
      else greater
  | _, _ => greater
  end.

(** The local function [fixConflicts] of [patchNewRemovalAnchors]:
    [rm_nodes.every(...)]. *)
Fixpoint fixConflicts (backwards : bool) (nd : NodeId) (rm_nodes : list NodeId)
  (m : ListDocumentModel) : result ListDocumentModel :=
  match rm_nodes with
  | [] => Ok m
  | cnode :: rest =>
      if negb (set_has (conflict_with (node m cnode)) nd) then Ok m
      else if backwards then
        match true_right (node m nd) with
        | DocEnd => Throw InvalidArgument
        | RightAt r =>
            fixConflicts backwards nd rest
              (if LogootPosition.gteq (logoot_start (node m cnode)) r
               then update cnode (conflict_delete nd) m else m)
        end
      else
        match true_left (node m nd) with
        | DocStart => Throw InvalidArgument
        | LeftAt l =>
            fixConflicts backwards nd rest
              (if LogootPosition.lteq (logoot_end (node m cnode)) l
               then update cnode (conflict_delete nd) m else m)
        end
  end.

(** The callback of [scan_nodes.forEach] in [patchNewRemovalAnchors]. *)
Definition patchNewRemovalAnchors_scan (backwards : bool) (nd : NodeId)
  (rm_nodes : list NodeId) (snode : NodeId) (m : ListDocumentModel)
  : result ListDocumentModel :=
  if backwards then
    match true_left (node m snode) with
    | LeftAt l =>
        if LogootPosition.eq l (logoot_end (node m nd))
        then fixConflicts backwards nd rm_nodes
               (update nd (reduceRight (logoot_start (node m snode))) m)
        else Ok m
    | DocStart => Ok m
    end
  else
    match true_right (node m snode) with
    | RightAt r =>
        if LogootPosition.eq r (logoot_start (node m nd))
        then fixConflicts backwards nd rm_nodes
               (update nd (reduceLeft (logoot_end (node m snode))) m)
        else Ok m
    | DocEnd => Ok m
    end.

(** The callback of [range.forEach] in [patchNewRemovalAnchors]: the state
    is the model, [scan_nodes] and [rm_nodes]. *)
Definition patchNewRemovalAnchors_node (backwards : bool) (nd : NodeId)
  (s : ListDocumentModel * list NodeId * list NodeId)
  : result (ListDocumentModel * list NodeId * list NodeId) :=
  let '(m, scan_nodes, rm_nodes) := s in
  '(m, rm_nodes) ←
    (if NodeType_eqb (type (node m nd)) DATA then Ok (m, [])
     else
       m ← forEachM (patchNewRemovalAnchors_scan backwards nd rm_nodes) scan_nodes m;
       Ok (m, if backwards then rm_nodes ++ [nd] else nd :: rm_nodes));
  Ok (m, createScanset m nd, rm_nodes).

Definition patchNewRemovalAnchors (range : list NodeId) (backwards : bool)
  (m : ListDocumentModel) : result ListDocumentModel :=
  s ← forEachM (patchNewRemovalAnchors_node backwards)
        (if backwards then rev range else range) (m, [], []);
  Ok s.1.1.

Definition removeLogoot (start : LogootPosition.t) (len clock : Z)
  (m : ListDocumentModel) : result (list Operation * ListDocumentModel) :=
  let end_ := LogootPosition.offsetLowest start len in
  let buckets := DBst.prefSearch m (Some start) (Some end_) LCGO in
  let opbuf := OperationBuffer.new 0 in
  let blob :=
    ((fun e => e.2) <$> lesser buckets)
    ++ ((fun e => e.2) <$> range buckets)
    ++ ((fun e => e.2) <$> greater buckets) in
  let '(groups, m) := sliceNodesIntoRanges [start; end_] blob m in
  let lesser := groups !!! 0%nat in
  let rm_range := groups !!! 1%nat in
  let greater := groups !!! 2%nat in
  '(m, opbuf) ← forEachM (removeLogoot_step start clock) rm_range (m, opbuf);
  let lesser :=
    match head lesser with
    | Some h => grow_lesser m (DBst.predecessors m h) lesser
    | None => lesser
    end in
  let greater :=
    match last greater with
    | Some h => grow_greater m (DBst.successors m h) greater
    | None => greater
    end in
  let full_range := lesser ++ rm_range ++ greater in
  m ← patchNewRemovalAnchors full_range false m;
  m ← patchNewRemovalAnchors full_range true m;
  m ← patchRemovalAnchors full_range false m;
  m ← patchRemovalAnchors full_range true m;
  Ok (OperationBuffer.operations opbuf, m).

(** ** [selfTest] *)

(** The inner [forEach] of [selfTest]: the conflict that [nd] is expected
    to hold with [cfl], against the membership of [cfl] in its
    [conflict_with]. *)
Definition selfTest_conflict (m : ListDocumentModel) (nd cfl : NodeId) : bool :=
  if Nat.eqb cfl nd then true
  else
    let expected :=
      if LogootPosition.lt (logoot_start (node m cfl)) (logoot_start (node m nd)) then
        match true_right (node m cfl) with
        | DocEnd => true
        | RightAt r => LogootPosition.gt r (logoot_start (node m nd))
        end
      else
        match true_left (node m cfl) with
        | DocStart => true
        | LeftAt l => LogootPosition.lt l (logoot_end (node m nd))
        end in
    Bool.eqb (set_has (conflict_with (node m nd)) cfl) expected.

(** The callback of the outer [forEach]: the state is [last_ldoc] and
    [last_logoot]. *)
Definition selfTest_node (m : ListDocumentModel) (nd : NodeId)
  (s : Z * option LogootPosition.t) : result (Z * option LogootPosition.t) :=
  let n := node m nd in
  if negb (ldoc_start n =? s.1) then Throw Fatal
  else if match s.2 with
          | Some p => match LogootPosition.cmp p (logoot_start n) with
                      | Gt => true
                      | _ => false
                      end
          | None => false
          end then Throw Fatal
  else if length n <? 1 then Throw Fatal
  else if negb (forallb (selfTest_conflict m nd) (bst m)) then Throw Fatal
  else Ok (ldoc_end n, Some (logoot_start n)).

(** [selfTest]; the tree's own [bst.selfTest()] has nothing to check on an
    in-order sequence. *)
Definition selfTest (m : ListDocumentModel) : result unit :=
  _ ← forEachM (selfTest_node m) (bst m) (0, None);
  Ok ().

(** ** Notions of the properties *)

(** The nodes of a bucket that are [DATA] nodes, and those that are not. *)
Definition data_ids (m : ListDocumentModel) (array : list (Z * NodeId)) : list NodeId :=
  (fun e => e.2) <$> filter (fun e => NodeType_eqb (type (node m e.2)) DATA = true) array.

Definition non_data_ids (m : ListDocumentModel) (array : list (Z * NodeId)) : list NodeId :=
  (fun e => e.2) <$> filter (fun e => NodeType_eqb (type (node m e.2)) DATA = false) array.

(** The clocks of the nodes touching [start] that are not [DATA] nodes. *)
Definition touching_clocks (m : ListDocumentModel) (b : Buckets Z) : list Z :=
  (fun i => clk (node m i)) <$> non_data_ids m (lesser b ++ greater b).

(** The least non-negative integer above every clock of a list. *)
Definition clock_above (cs : list Z) : Z := foldr (fun c acc => Z.max (1 + c) acc) 0 cs.

(** Two states of a node that differ at most in [value]. *)
Definition same_but_value (n n' : AnchorLogootNode) : Prop :=
  set_value 0 n' = set_value 0 n.

(** Two states of a node with the same run and the same anchors. *)
Definition same_run (n n' : AnchorLogootNode) : Prop :=
  logoot_start n' = logoot_start n /\ length n' = length n
  /\ left_anchor n' = left_anchor n /\ right_anchor n' = right_anchor n
  /\ conflict_with n' = conflict_with n.

(** Invariant 2, as [selfTest] checks it: along the in-order traversal
    every [ldoc_start] is the [ldoc_end] of the node before, from 0 on. *)
Fixpoint tiles (acc : Z) (ns : list AnchorLogootNode) : Prop :=
  match ns with
  | [] => True
  | n :: rest => ldoc_start n = acc /\ tiles (ldoc_end n) rest
  end.

Definition tiled (m : ListDocumentModel) : Prop := tiles 0 (node m <$> bst m).

(** What the removal loop needs of the tree: its nodes are distinct
    objects of the store, their local offsets tile the document
    (invariant 2) and no length is negative (invariant 3 asks for more). *)
Definition removal_ready (m : ListDocumentModel) : Prop :=
  NoDup (bst m)
  /\ (forall id, id ∈ bst m -> (id < List.length (nodes m))%nat)
  /\ tiled m
  /\ (forall id, id ∈ bst m -> 0 <= length (node m id)).

(** The nodes of a removal range that the loop of [removeLogoot] removes
    with a non-zero local length. *)
Definition removed_data (start : LogootPosition.t) (clock : Z)
  (m : ListDocumentModel) (rm_range : list NodeId) : list NodeId :=
  filter (fun id => removal_applies start clock (node m id) = true
                    /\ ldoc_length (node m id) <> 0) rm_range.

(** The first statements of [removeLogoot]: the nodes that the search
    finds are sliced at [start] and at the end of the removed run, and the
    second group is [rm_range].  The result is [rm_range] and the model
    that the slicing leaves, on which the removal loop starts. *)
Definition removal_range (start : LogootPosition.t) (len : Z) (m : ListDocumentModel)
  : list NodeId * ListDocumentModel :=
  let end_ := LogootPosition.offsetLowest start len in
  let buckets := DBst.prefSearch m (Some start) (Some end_) LCGO in
  let blob :=
    ((fun e => e.2) <$> lesser buckets)
    ++ ((fun e => e.2) <$> range buckets)
    ++ ((fun e => e.2) <$> greater buckets) in
  let '(groups, m) := sliceNodesIntoRanges [start; end_] blob m in
  (groups !!! 1%nat, m).

(** What a replica can observe of a node: its fields, with the members of
    [conflict_with] named by their [logoot_start], in the order of the
    tree. *)
Record NodeView := mkView {
  view_start : LogootPosition.t;
  view_length : Z;
  view_type : NodeType;
  view_clk : Z;
  view_ldoc_start : Z;
  view_left_anchor : LeftAnchor;
  view_right_anchor : RightAnchor;
  view_conflict_with : list LogootPosition.t
}.

Definition view (m : ListDocumentModel) (id : NodeId) : NodeView :=
  let n := node m id in
  mkView (logoot_start n) (length n) (type n) (clk n) (ldoc_start n)
         (left_anchor n) (right_anchor n)
         ((fun c => logoot_start (node m c))
            <$> filter (fun c => set_has (conflict_with n) c = true) (bst m)).

(** [all_nodes], node by node: two models are equal under node-wise
    equality when their snapshots are equal. *)
Definition snapshot (m : ListDocumentModel) : list NodeView := view m <$> bst m.

(** The next operation on a replica, on the model that the operations
    before it have left. *)
Definition andThen (r : result (list Operation * ListDocumentModel))
  (op : ListDocumentModel -> result (list Operation * ListDocumentModel))
  : result (list Operation * ListDocumentModel) :=
  s ← r; op s.2.

(** The operations that the last operation returned and the nodes of the
    tree after it, when it returned normally. *)
Definition outcome (r : result (list Operation * ListDocumentModel))
  : option (list Operation * list NodeView) :=
  match r with
  | Ok s => Some (s.1, snapshot s.2)
  | Throw _ => None
  end.

(** [selfTest] on the model that a sequence of operations has left. *)
Definition selfTest_after (r : result (list Operation * ListDocumentModel))
  : option (result unit) :=
  match r with
  | Ok s => Some (selfTest s.2)
  | Throw _ => None
  end.

(** ** Sample documents *)

(** A position generator for concrete runs: atom 0 of the branch in an
    empty document, the atoms right below the right neighbour when there
    is one, and the left neighbour otherwise. *)
Definition sample_generator (br : BranchKey) (len : Z)
  (left right : option LogootPosition.t) : LogootPosition.t :=
  match left, right with
  | _, Some r => LogootPosition.inverseOffsetLowest r len
  | Some l, None => l
  | None, None => [(0, br)]
  end.

(** A document whose only node is a tombstone of length 1 with clock -5,
    and the search that finds it at local offset 0. *)
Definition tombstone_doc : ListDocumentModel :=
  mkLdm [mkNode [(0, 0%nat)] 1 REMOVAL (-5) 0 DocStart DocEnd []] [0%nat].

Definition tombstone_search (_ : ListDocumentModel) (_ : Z) : Buckets Z :=
  mkBuckets [] [] [(0, 0%nat)].



(** A [DATA] node over the atoms 1 and 2 whose right anchor is the atom 10,
    followed by a tombstone over the atoms 3 and 4. *)
Definition patch_doc : ListDocumentModel :=
  mkLdm [mkNode [(1, 0%nat)] 2 DATA 0 0 DocStart (RightAt [(10, 0%nat)]) [];
         mkNode [(3, 0%nat)] 2 REMOVAL 1 2 (LeftAt [(3, 0%nat)]) DocEnd []]
        [0%nat; 1%nat].

(** A document of three nodes: atoms 0-1 with clock 0, atoms 2-3 with
    clock 5, and a nested run below atom 4 with clock 0. *)
Definition removal_doc : ListDocumentModel :=
  mkLdm [mkNode [(0, 0%nat)] 2 DATA 0 0 DocStart (RightAt [(2, 0%nat)]) [];
         mkNode [(2, 0%nat)] 2 DATA 5 2 (LeftAt [(2, 0%nat)]) (RightAt [(4, 0%nat)]) [];
         mkNode [(4, 0%nat); (0, 1%nat)] 1 DATA 0 4 (LeftAt [(4, 0%nat)]) DocEnd []]
        [0%nat; 1%nat; 2%nat].

(** A tombstone over the atoms 1 and 2, followed by a [DATA] node over the
    atoms 3 and 4 whose left anchor is the atom 2, inside the tombstone. *)
Definition patch_back_doc : ListDocumentModel :=
  mkLdm [mkNode [(1, 0%nat)] 2 REMOVAL 1 0 DocStart (RightAt [(3, 0%nat)]) [];
         mkNode [(3, 0%nat)] 2 DATA 0 0 (LeftAt [(2, 0%nat)]) DocEnd []]
        [0%nat; 1%nat].

(** ** Notions of the further properties *)

(** Invariant 1, as [selfTest] checks it: along the in-order traversal no
    [logoot_start] compares greater than the one after it. *)
Fixpoint ordered (last_logoot : option LogootPosition.t) (ns : list AnchorLogootNode)
  : Prop :=
  match ns with
  | [] => True
  | n :: rest =>
      match last_logoot with
      | Some p => LogootPosition.cmp p (logoot_start n) <> Gt
      | None => True
      end
      /\ ordered (Some (logoot_start n)) rest
  end.

(** Invariant 4, as [selfTest] checks it: a node holds another node of the
    tree in its [conflict_with] exactly when that node reaches it by the
    anchor rule. *)
Definition conflicts_exact (m : ListDocumentModel) : Prop :=
  forall nd cfl, nd ∈ bst m -> cfl ∈ bst m -> cfl <> nd ->
    set_has (conflict_with (node m nd)) cfl = reaches (node m cfl) (node m nd).

(** What a pass of [patchRemovalAnchors] keeps of a node: its run, type,
    clock and local offset, the anchor on the side that the pass does not
    scan, every member of [conflict_with], and, on the scanned side, an
    anchor that is a position stays one. *)
Definition patch_frame (backwards : bool) (n n' : AnchorLogootNode) : Prop :=
  logoot_start n' = logoot_start n /\ length n' = length n /\ type n' = type n
  /\ clk n' = clk n /\ value n' = value n
  /\ (if backwards then right_anchor n' = right_anchor n
      else left_anchor n' = left_anchor n)
  /\ (forall x, set_has (conflict_with n) x = true -> set_has (conflict_with n') x = true)
  /\ (sees_infinity backwards n = false -> sees_infinity backwards n' = false).

(** What a pass of [patchNewRemovalAnchors] keeps of a node: its run,
    type, clock and local offset; a [DATA] node is kept as it is; and no
    node gains a member of its [conflict_with]. *)
Definition removal_frame (n n' : AnchorLogootNode) : Prop :=
  logoot_start n' = logoot_start n /\ length n' = length n /\ type n' = type n
  /\ clk n' = clk n /\ value n' = value n
  /\ (type n = DATA -> n' = n)
  /\ (forall x, set_has (conflict_with n') x = true -> set_has (conflict_with n) x = true).

(** An operation that the buffer accepts: a [remove] or an [insert] of a
    positive length at a non-negative local offset, an [insert] within the
    [avail] elements of the inserted data. *)
Definition op_within (avail : Z) (op : Operation) : Prop :=
  match op with
  | RemovalOperation s l => 0 <= s /\ 0 < l
  | InsertionOperation s o l => 0 <= s /\ 0 < l /\ o + l <= avail
  | MarkOperation _ _ _ => False
  end.

(** A buffer after some accepted operations have been appended to it. *)
Definition extends (b b' : OperationBuffer.t) : Prop :=
  OperationBuffer.length_avail b' = OperationBuffer.length_avail b
  /\ exists ops,
       OperationBuffer.operations b' = OperationBuffer.operations b ++ ops
       /\ Forall (op_within (OperationBuffer.length_avail b)) ops.

(** A [remove] of a positive length at a non-negative local offset. *)
Definition is_removal (op : Operation) : Prop :=
  match op with
  | RemovalOperation s l => 0 <= s /\ 0 < l
  | _ => False
  end.

(** Two states of a node with the same run, type and clock. *)
Definition same_kind (n n' : AnchorLogootNode) : Prop :=
  logoot_start n' = logoot_start n /\ length n' = length n
  /\ type n' = type n /\ clk n' = clk n.

(** A step that keeps the tree and the store and, of every node, the run,
    the type and the clock: it may move local offsets and anchors and
    change [conflict_with]. *)
Definition quiet (m m' : ListDocumentModel) : Prop :=
  bst m' = bst m
  /\ List.length (nodes m') = List.length (nodes m)
  /\ forall id, same_kind (node m id) (node m' id).

(** The nodes of [m] are still nodes of [m'], with their clocks and types. *)
Definition stable (m m' : ListDocumentModel) : Prop :=
  (List.length (nodes m) <= List.length (nodes m'))%nat
  /\ forall id, (id < List.length (nodes m))%nat ->
       clk (node m' id) = clk (node m id) /\ type (node m' id) = type (node m id).

(** What an operation with the clock [clock] that types nodes as [ty] may
    do to the clock and the type of a node: leave both, or, when the
    node's clock is at most [clock], set the clock to [clock] and the type
    to [ty]. *)
Definition retyped (clock : Z) (ty : NodeType) (n n' : AnchorLogootNode) : Prop :=
  (clk n' = clk n /\ type n' = type n)
  \/ (clk n <= clock /\ clk n' = clock /\ type n' = ty).

(** The nodes of [m] are still nodes of [m'], each of them with a clock
    and a type that the operation may have given it. *)
Definition evolves (clock : Z) (ty : NodeType) (m m' : ListDocumentModel) : Prop :=
  (List.length (nodes m) <= List.length (nodes m'))%nat
  /\ forall id, (id < List.length (nodes m))%nat ->
       retyped clock ty (node m id) (node m' id).

(** The length of the local document: the sum of [ldoc_length] over the
    nodes of the tree. *)
Definition total_length (m : ListDocumentModel) : Z :=
  foldr (fun id acc => ldoc_length (node m id) + acc) 0 (bst m).

(** The change of the local document's length that a list of operations
    asks the caller for. *)
Definition net_length (ops : list Operation) : Z :=
  foldr (fun op acc =>
           match op with
           | InsertionOperation _ _ l => acc + l
           | RemovalOperation _ l => acc - l
           | MarkOperation _ _ _ => acc
           end) 0 ops.

(** A well-formed model: no node is in the tree twice, every node of the
    tree is in the store, and every node that is not in the tree is a
    [DUMMY] node (the dummy nodes of [constructSkipRanges] are never added
    to the tree). *)
Definition well_formed (m : ListDocumentModel) : Prop :=
  NoDup (bst m)
  /\ (forall id, id ∈ bst m -> (id < List.length (nodes m))%nat)
  /\ (forall id, id ∉ bst m -> type (node m id) = DUMMY).

(** A model that is well-formed once the node [i] of its store has been
    added to the tree. *)
Definition well_formed_but (i : NodeId) (m : ListDocumentModel) : Prop :=
  NoDup (bst m)
  /\ (forall id, id ∈ bst m -> (id < List.length (nodes m))%nat)
  /\ (i < List.length (nodes m))%nat /\ (i ∉ bst m)
  /\ (forall id, id ∉ bst m -> id <> i -> type (node m id) = DUMMY).

(** A step from a model and a buffer to a model and a buffer that keeps
    the model well-formed and every node of the tree in the tree, and
    whose operations account for the change of the document's length. *)
Definition balanced (s s' : ListDocumentModel * OperationBuffer.t) : Prop :=
  well_formed s.1 ->
  well_formed s'.1
  /\ (forall id, id ∈ bst s.1 -> id ∈ bst s'.1)
  /\ total_length s'.1 - net_length (OperationBuffer.operations s'.2)
     = total_length s.1 - net_length (OperationBuffer.operations s.2).

(** The model after the first insertion of [len] atoms from [start] with
    clock [clock] into an empty document: the [DUMMY] node that
    [constructSkipRanges] created stays outside the tree, and the tree
    holds the one new node. *)
Definition first_doc (start : LogootPosition.t) (len clock : Z) : ListDocumentModel :=
  mkLdm [set_value len (newNode (LogootPosition.offsetLowest start len) 0 DUMMY 0);
         mkNode start len DATA clock 0 DocStart DocEnd []] [1%nat].

(** * Properties *)

(** ** The operation buffer *)

(** C10: [OperationBuffer.insert] and [OperationBuffer.remove] with a
    length of 0 return at once, whatever [start] and [offset] are: the
    operations list, the dummy node and every node's offset are as before. *)
Theorem opbuf_zero_length_noop (nd : NodeId) (start offset : Z)
  (s : ListDocumentModel * OperationBuffer.t) :
  OperationBuffer.insert nd start offset 0 s = Ok s
  /\ OperationBuffer.remove nd start 0 s = Ok s.
Proof. split; reflexivity. Qed.

(** C8, as the claim states it, fails: an insertion of one element into a
    buffer created with [length_avail = 0] raises [FatalError], not the
    invalid-argument kind. *)
Lemma opbuf_insert_overflow_not_invalid_argument :
  let s := (emptyLdm, OperationBuffer.new 0) in
  0 + 1 > OperationBuffer.length_avail s.2
  /\ OperationBuffer.insert 0%nat 0 0 1 s = Throw Fatal
  /\ OperationBuffer.insert 0%nat 0 0 1 s <> Throw InvalidArgument.
Proof. cbn. split; [lia|]. split; [reflexivity|discriminate]. Qed.

Lemma double_exact x : Z.abs x <= 2 ^ 53 -> Number.double x = x.
Proof.
  intros Hx. unfold Number.double.
  destruct (Z.eq_dec (Z.abs x) (2 ^ 53)) as [He|Hne].
  - destruct (Z.abs_eq_or_opp x) as [Ha|Ha]; rewrite Ha in He.
    + by subst x.
    + assert (x = - 2 ^ 53) as -> by lia. reflexivity.
  - assert (Hl : Z.log2 (Z.abs x) - 52 <= 0).
    { destruct (Z.eq_dec (Z.abs x) 0) as [->|Hz]; [done|].
      assert (Z.log2 (Z.abs x) < 53); [|lia].
      apply Z.log2_lt_pow2; lia. }
    cbv zeta. by destruct (Z.leb_spec (Z.log2 (Z.abs x) - 52) 0); [|lia].
Qed.

(** The fourth guard of [insert] as the source computes it, on doubles, is
    the guard of the model as long as the magnitude of the sum is at most
    2^53. *)
Lemma double_sum_exact offset len avail :
  Z.abs (offset + len) <= 2 ^ 53 ->
  (Number.add offset len >? avail) = (offset + len >? avail).
Proof. intros H. unfold Number.add. by rewrite double_exact. Qed.

(** Above 2^53 the two part: the double sum of 2^53 and 1 is 2^53, which
    does not exceed a [length_avail] of 2^53. *)
Lemma double_sum_rounds :
  Number.add (2 ^ 53) 1 = 2 ^ 53
  /\ (Number.add (2 ^ 53) 1 >? 2 ^ 53) = false
  /\ (2 ^ 53 + 1 >? 2 ^ 53) = true.
Proof. repeat split. Qed.

(** C8, amended: an insertion of non-zero length whose [offset + length]
    exceeds [length_avail] raises [FatalError], as long as the sum is one
    that the source computes exactly (its magnitude is at most 2^53);
    every error of [insert] is a [FatalError]; an insertion of length 0
    returns without an error, the state being as it was; and an insertion
    with non-negative [start], positive length and
    [offset + length <= length_avail] is accepted and appended to the
    operations. *)
Theorem opbuf_insert_bounds (nd : NodeId) (start offset len : Z)
  (s : ListDocumentModel * OperationBuffer.t) :
  (len <> 0 -> Z.abs (offset + len) <= 2 ^ 53 ->
   offset + len > OperationBuffer.length_avail s.2 ->
   OperationBuffer.insert nd start offset len s = Throw Fatal)
  /\ (forall e, OperationBuffer.insert nd start offset len s = Throw e -> e = Fatal)
  /\ OperationBuffer.insert nd start offset 0 s = Ok s
  /\ (0 <= start -> 0 < len -> offset + len <= OperationBuffer.length_avail s.2 ->
      exists s', OperationBuffer.insert nd start offset len s = Ok s'
        /\ OperationBuffer.operations s'.2 =
             OperationBuffer.operations s.2 ++ [InsertionOperation start offset len]
        /\ OperationBuffer.length_avail s'.2 = OperationBuffer.length_avail s.2).
Proof.
  unfold OperationBuffer.insert.
  split; [|split; [|split]].
  - intros Hlen _ Hover.
    destruct (Z.eqb_spec len 0) as [|_]; [contradiction|].
    destruct (start <? 0); [reflexivity|].
    destruct (len <? 0); [reflexivity|].
    destruct (Z.gtb_spec (offset + len) (OperationBuffer.length_avail s.2)); [reflexivity|lia].
  - intros e.
    destruct (len =? 0); [discriminate|].
    destruct (start <? 0); [congruence|].
    destruct (len <? 0); [congruence|].
    destruct (offset + len >? _); [congruence|discriminate].
  - reflexivity.
  - intros Hs Hl Hfit.
    destruct (Z.eqb_spec len 0); [lia|].
    destruct (Z.ltb_spec start 0); [lia|].
    destruct (Z.ltb_spec len 0); [lia|].
    destruct (Z.gtb_spec (offset + len) (OperationBuffer.length_avail s.2)); [lia|].
    eexists. split; [reflexivity|]. split; reflexivity.
Qed.

Lemma opbuf_insert_bounds_witness :
  OperationBuffer.insert 0%nat 0 0 1 (emptyLdm, OperationBuffer.new 0) = Throw Fatal
  /\ exists s', OperationBuffer.insert 0%nat 0 0 1 (emptyLdm, OperationBuffer.new 1) = Ok s'
       /\ OperationBuffer.operations s'.2 = [InsertionOperation 0 0 1]
       /\ OperationBuffer.length_avail s'.2 = 1.
Proof.
  split.
  - apply (opbuf_insert_bounds 0%nat 0 0 1 (emptyLdm, OperationBuffer.new 0));
      cbn; lia.
  - apply (opbuf_insert_bounds 0%nat 0 0 1 (emptyLdm, OperationBuffer.new 1));
      cbn; lia.
Defined.

(** ** [insertLocal] *)

Lemma search_data_throws search_m array d e :
  search_data search_m array d = Throw e -> e = Internal.
Proof.
  revert d. induction array as [|x rest IH]; intros d; cbn; [discriminate|].
  destruct (NodeType_eqb _ DATA); [destruct d|]; eauto; congruence.
Qed.

(** C9: [insertLocal] raises the invalid-argument error exactly when
    [start < 0] or [length <= 0], and for such arguments the error is
    raised whatever the tree search would return and whatever the state
    is: it comes before the search. *)
Theorem insertLocal_invalid_argument (search : ListDocumentModel -> Z -> Buckets Z)
  (m : ListDocumentModel) (start len : Z) :
  (insertLocal search m start len = Throw InvalidArgument <-> start < 0 \/ len <= 0)
  /\ (start < 0 \/ len <= 0 ->
      forall search' m', insertLocal search' m' start len = Throw InvalidArgument).
Proof.
  assert (Hguard : start < 0 \/ len <= 0 ->
      forall search' m', insertLocal search' m' start len = Throw InvalidArgument).
  { intros H search' m'. unfold insertLocal.
    destruct (Z.ltb_spec start 0); [reflexivity|].
    destruct (Z.leb_spec len 0); [reflexivity|lia]. }
  split; [split|]; auto.
  unfold insertLocal.
  destruct (Z.ltb_spec start 0); [auto|].
  destruct (Z.leb_spec len 0); [auto|].
  intros Hthrow. exfalso.
  destruct (search_data m (lesser (search m start)) None) as [ln|e] eqn:Hl;
    cbn in Hthrow.
  - destruct (search_data m (greater (search m start)) None) as [gn|e] eqn:Hg;
      cbn in Hthrow.
    + destruct ln as [i|]; [destruct (_ >? _)|]; discriminate.
    + apply search_data_throws in Hg.
      destruct ln as [i|]; [destruct (_ >? _)|]; congruence.
  - apply search_data_throws in Hl. congruence.
Qed.

Lemma insertLocal_invalid_argument_witness :
  insertLocal (fun _ _ => mkBuckets [] [] []) emptyLdm (-1) 1 = Throw InvalidArgument.
Proof.
  apply (insertLocal_invalid_argument (fun _ _ => mkBuckets [] [] []) emptyLdm (-1) 1).
  left. lia.
Defined.

Lemma search_data_spec m array d :
  search_data m array d =
    match d, data_ids m array with
    | _, [] => Ok d
    | None, [i] => Ok (Some i)
    | _, _ => Throw Internal
    end.
Proof.
  revert d. induction array as [|x rest IH]; intros d; [by destruct d|].
  cbn [search_data]. unfold data_ids in *. rewrite filter_cons.
  destruct (NodeType_eqb (type (node m x.2)) DATA) eqn:Hx.
  - rewrite decide_True by done. cbn.
    destruct d; [done|]. rewrite IH.
    by destruct (_ <$> filter _ rest).
  - rewrite decide_False by (by intros ?). apply IH.
Qed.



Lemma foldr_max_init (cs : list Z) (a b : Z) :
  foldr (fun c acc => Z.max (1 + c) acc) (Z.max a b) cs =
  Z.max a (foldr (fun c acc => Z.max (1 + c) acc) b cs).
Proof. induction cs as [|c cs IH]; cbn; [done|]. rewrite IH. lia. Qed.

Lemma max_clock_fold m es acc :
  fold_left (max_clock_step m) es acc =
    foldr (fun c a => Z.max (1 + c) a) acc
      ((fun i => clk (node m i)) <$> non_data_ids m es).
Proof.
  revert acc. induction es as [|x rest IH]; intros acc; [done|].
  cbn [fold_left]. rewrite IH. unfold non_data_ids, max_clock_step.
  rewrite filter_cons.
  destruct (NodeType_eqb (type (node m x.2)) DATA) eqn:Hx.
  - by rewrite decide_False by (by intros ?).
  - rewrite decide_True by done. cbn.
    rewrite <- foldr_max_init. f_equal.
    destruct (Z.geb_spec (clk (node m x.2)) acc); lia.
Qed.

Lemma clock_above_spec (cs : list Z) :
  0 <= clock_above cs
  /\ (forall c, c ∈ cs -> c < clock_above cs)
  /\ (clock_above cs = 0 \/ exists c, c ∈ cs /\ clock_above cs = 1 + c).
Proof.
  unfold clock_above. induction cs as [|c cs (Hge & Hall & Hex)]; cbn.
  - split; [lia|]. split; [|by left]. intros c Hc. by apply elem_of_nil in Hc.
  - split; [lia|]. split.
    + intros c' [->|Hc']%elem_of_cons; [lia|]. specialize (Hall _ Hc'). lia.
    + destruct (Z.max_spec (1 + c) (foldr (fun c acc => Z.max (1 + c) acc) 0 cs))
        as [[_ ->]|[_ ->]].
      * destruct Hex as [?|(c' & ? & ?)]; [by left|].
        right. exists c'. split; [by apply elem_of_cons; right|done].
      * right. exists c. split; [by apply elem_of_cons; left|done].
Qed.

Lemma insertLocal_ok_clk search m start len e :
  insertLocal search m start len = Ok e ->
  env_clk e = clock_above (touching_clocks m (search m start)).
Proof.
  unfold insertLocal, touching_clocks, clock_above.
  destruct (start <? 0); [discriminate|].
  destruct (len <=? 0); [discriminate|].
  rewrite max_clock_fold.
  destruct (search_data m (lesser (search m start)) None) as [ln|]; [|discriminate].
  destruct (search_data m (greater (search m start)) None) as [gn|]; cbn.
  - destruct ln as [i|]; [destruct (_ >? _)|]; intros [= <-]; reflexivity.
  - destruct ln as [i|]; [destruct (_ >? _)|]; [|discriminate..].
    intros [= <-]; reflexivity.
Qed.

(** The tombstone document is reached by the public operations: an
    insertion with clock -5 and its removal with the same clock. *)
Lemma tombstone_doc_reachable :
  outcome (andThen (insertLogoot sample_generator 0%nat None None 1 (-5) emptyLdm)
                   (removeLogoot [(0, 0%nat)] 1 (-5)))
  = Some ([RemovalOperation 0 1], snapshot tombstone_doc).
Proof. vm_compute. reflexivity. Qed.

(** C6, as the claim states it, fails: with a single tombstone of clock -5
    touching local offset 0, [insertLocal(0, 1)] returns the clock 0, and
    not 1 plus the maximum, which is -4. *)
Lemma insertLocal_clk_negative_tombstone :
  touching_clocks tombstone_doc (tombstone_search tombstone_doc 0) = [-5]
  /\ exists e, insertLocal tombstone_search tombstone_doc 0 1 = Ok e
       /\ env_clk e = 0
       /\ env_clk e <> 1 + -5.
Proof.
  split; [reflexivity|]. exists (mkEnvelope None None 0 1).
  split; [reflexivity|]. split; [reflexivity|discriminate].
Qed.

(** C6, amended: the clock that [insertLocal] returns is the least
    non-negative integer above the clock of every node touching [start]
    that is not a [DATA] node.  It is strictly greater than each of these
    clocks, it is 0 when there is none, and it is 1 plus their maximum as
    soon as one of them is at least -1 (so whenever there is one and the
    clocks are non-negative). *)
Theorem insertLocal_clk (search : ListDocumentModel -> Z -> Buckets Z)
  (m : ListDocumentModel) (start len : Z) (e : Envelope) :
  insertLocal search m start len = Ok e ->
  let cs := touching_clocks m (search m start) in
  env_clk e = clock_above cs
  /\ 0 <= env_clk e
  /\ (forall c, c ∈ cs -> c < env_clk e)
  /\ (cs = [] -> env_clk e = 0)
  /\ ((exists c, c ∈ cs /\ -1 <= c) ->
      exists c, c ∈ cs /\ env_clk e = 1 + c /\ forall c', c' ∈ cs -> c' <= c).
Proof.
  intros Hok cs. apply insertLocal_ok_clk in Hok. fold cs in Hok. rewrite Hok.
  destruct (clock_above_spec cs) as (Hge & Hall & Hex).
  split; [done|]. split; [done|]. split; [done|]. split.
  - by intros ->.
  - intros (c0 & Hc0 & Hlow).
    destruct Hex as [Hz|(c & Hc & Heq)].
    + exists c0. pose proof (Hall _ Hc0). split; [done|]. split; [lia|].
      intros c' Hc'. specialize (Hall _ Hc'). lia.
    + exists c. split; [done|]. split; [done|].
      intros c' Hc'. specialize (Hall _ Hc'). lia.
Qed.

Lemma insertLocal_clk_witness :
  exists e, insertLocal tombstone_search tombstone_doc 0 1 = Ok e
    /\ env_clk e = clock_above [-5]
    /\ forall c, c ∈ [-5] -> c < env_clk e.
Proof.
  exists (mkEnvelope None None 0 1). split; [reflexivity|].
  destruct (insertLocal_clk tombstone_search tombstone_doc 0 1 _ eq_refl)
    as (Heq & _ & Hall & _).
  split; [exact Heq|exact Hall].
Defined.

(** ** The object store *)

Lemma node_update_eq i f m :
  (i < List.length (nodes m))%nat -> node (update i f m) i = f (node m i).
Proof. intros H. unfold node, update; cbn. by apply list_lookup_total_alter_eq. Qed.

Lemma node_update_ne i j f m : i <> j -> node (update i f m) j = node m j.
Proof. intros H. unfold node, update; cbn. by apply list_lookup_total_alter_ne. Qed.

Lemma nodes_update_length i f m :
  List.length (nodes (update i f m)) = List.length (nodes m).
Proof. unfold update; cbn. apply length_alter. Qed.

Lemma set_has_add s x : set_has (set_add s x) x = true.
Proof.
  unfold set_add. destruct (set_has s x) eqn:H; [done|].
  unfold set_has. rewrite existsb_app. cbn. rewrite Nat.eqb_refl.
  by rewrite orb_true_r.
Qed.

(** ** [patchRemovalAnchors] *)

(** C7, as the claim states it, fails: in the forward pass over
    [patch_doc] the tombstone meets the [DATA] node in the scan set with
    the anchor position 10, which is not below the tombstone's
    [logoot_end]; the [DATA] node keeps its anchors and yet is added to
    the tombstone's [conflict_with]. *)
Lemma patchRemovalAnchors_adds_beyond_end :
  true_right (node patch_doc 0%nat) = RightAt [(10, 0%nat)]
  /\ LogootPosition.lt [(10, 0%nat)] (logoot_start (node patch_doc 1%nat)) = false
  /\ LogootPosition.lt [(10, 0%nat)] (logoot_end (node patch_doc 1%nat)) = false
  /\ conflict_with (node patch_doc 1%nat) = []
  /\ exists m', patchRemovalAnchors [0%nat; 1%nat] false patch_doc = Ok m'
       /\ conflict_with (node m' 1%nat) = [0%nat]
       /\ right_anchor (node m' 0%nat) = RightAt [(10, 0%nat)].
Proof.
  repeat (split; [reflexivity|]).
  eexists. split; [vm_compute; reflexivity|]. split; reflexivity.
Qed.

(** The same case is met in a run of the public operations.  Two
    concurrent insertions before atom 0 and before atom 1 are followed by
    the removal of atom 0: in the forward pass the tombstone is itself in
    the scan set of its left neighbour, its own right anchor, atom 1, is
    not below its [logoot_end], and it ends up in its own
    [conflict_with]. *)
Lemma patchRemovalAnchors_beyond_end_reached :
  outcome (andThen (andThen (insertLogoot sample_generator 0%nat None
                               (Some [(0, 0%nat)]) 1 0 emptyLdm)
                            (insertLogoot sample_generator 0%nat None
                               (Some [(1, 0%nat)]) 1 0))
                   (removeLogoot [(0, 0%nat)] 1 1))
  = Some ([RemovalOperation 1 1],
          [mkView [(-1, 0%nat)] 1 DATA 0 0 DocStart (RightAt [(1, 0%nat)])
                  [[(0, 0%nat)]];
           mkView [(0, 0%nat)] 1 REMOVAL 1 1 (LeftAt [(0, 0%nat)])
                  (RightAt [(1, 0%nat)]) [[(-1, 0%nat)]; [(0, 0%nat)]]]).
Proof. vm_compute. reflexivity. Qed.

(** C7, amended: in the forward pass at a node [cur] that is not a [DATA]
    node, the scan set is walked with the callback below.  For a scan-set
    node [snode] with anchor position [apos = snode.true_right]: when
    [apos < cur.logoot_start], [snode] leaves the scan set and nothing else
    changes; otherwise the scan set stays, [snode] is added to
    [cur.conflict_with] in every case, and [snode.right_anchor] becomes
    [cur.logoot_end] when [apos < cur.logoot_end] and is unchanged when
    [apos >= cur.logoot_end]; no other node changes. *)
Theorem patchRemovalAnchors_forward_scan (m : ListDocumentModel)
  (scan_nodes : list NodeId) (cur snode : NodeId) (apos : LogootPosition.t) :
  (cur < List.length (nodes m))%nat ->
  (snode < List.length (nodes m))%nat ->
  type (node m cur) <> DATA ->
  true_right (node m snode) = RightAt apos ->
  patchRemovalAnchors_node false cur (m, scan_nodes)
    = forEachM (patchRemovalAnchors_scan false cur) scan_nodes (m, scan_nodes)
  /\ (LogootPosition.lt apos (logoot_start (node m cur)) = true ->
      patchRemovalAnchors_scan false cur snode (m, scan_nodes)
        = Ok (m, set_delete scan_nodes snode))
  /\ (LogootPosition.lt apos (logoot_start (node m cur)) = false ->
      exists m',
        patchRemovalAnchors_scan false cur snode (m, scan_nodes) = Ok (m', scan_nodes)
        /\ set_has (conflict_with (node m' cur)) snode = true
        /\ right_anchor (node m' snode) =
             (if LogootPosition.lt apos (logoot_end (node m cur))
              then RightAt (logoot_end (node m cur))
              else right_anchor (node m snode))
        /\ left_anchor (node m' snode) = left_anchor (node m snode)
        /\ forall i, i <> cur -> i <> snode -> node m' i = node m i).
Proof.
  intros Hcur Hsnode Hty Hright. split; [|split].
  - unfold patchRemovalAnchors_node.
    destruct (type (node m cur)); [done|done..].
  - intros Hlt. unfold patchRemovalAnchors_scan. by rewrite Hright, Hlt.
  - intros Hlt. unfold patchRemovalAnchors_scan. rewrite Hright, Hlt.
    set (m1 := if LogootPosition.lt apos (logoot_end (node m cur))
               then update snode (set_right_anchor (RightAt (logoot_end (node m cur)))) m
               else m).
    assert (Hlen : List.length (nodes m1) = List.length (nodes m)).
    { unfold m1. destruct (LogootPosition.lt apos (logoot_end _)); [apply nodes_update_length|done]. }
    assert (Hs1 : right_anchor (node m1 snode) =
                    (if LogootPosition.lt apos (logoot_end (node m cur))
                     then RightAt (logoot_end (node m cur))
                     else right_anchor (node m snode))
                  /\ left_anchor (node m1 snode) = left_anchor (node m snode)).
    { unfold m1. destruct (LogootPosition.lt apos (logoot_end _)); [|done].
      by rewrite node_update_eq. }
    assert (Hother1 : forall i, i <> snode -> node m1 i = node m i).
    { intros i Hi. unfold m1. destruct (LogootPosition.lt apos (logoot_end _)); [|done].
      by rewrite node_update_ne. }
    exists (update cur (conflict_add snode) m1). split; [done|].
    split; [|split; [|split]].
    + rewrite node_update_eq by lia. cbn. apply set_has_add.
    + destruct (decide (cur = snode)) as [->|Hne].
      * rewrite node_update_eq by lia. cbn. apply Hs1.
      * rewrite node_update_ne by done. apply Hs1.
    + destruct (decide (cur = snode)) as [->|Hne].
      * rewrite node_update_eq by lia. cbn. apply Hs1.
      * rewrite node_update_ne by done. apply Hs1.
    + intros i Hc Hs. rewrite node_update_ne by done. by apply Hother1.
Qed.

Lemma patchRemovalAnchors_forward_scan_witness :
  exists m',
    patchRemovalAnchors_scan false 1%nat 0%nat (patch_doc, [0%nat]) = Ok (m', [0%nat])
    /\ set_has (conflict_with (node m' 1%nat)) 0%nat = true
    /\ right_anchor (node m' 0%nat) = RightAt [(10, 0%nat)].
Proof.
  destruct (patchRemovalAnchors_forward_scan patch_doc [0%nat] 1%nat 0%nat [(10, 0%nat)])
    as (_ & _ & Hstay); [cbn; lia|cbn; lia|discriminate|reflexivity|].
  destruct (Hstay eq_refl) as (m' & Hrun & Hadd & Hright & _).
  exists m'. split; [exact Hrun|]. split; [exact Hadd|exact Hright].
Defined.

(** ** The removal loop of [removeLogoot] *)

Lemma same_but_value_refl n : same_but_value n n.
Proof. done. Qed.

Lemma same_but_value_trans n1 n2 n3 :
  same_but_value n1 n2 -> same_but_value n2 n3 -> same_but_value n1 n3.
Proof. unfold same_but_value. congruence. Qed.

Lemma same_but_value_set v n : same_but_value n (set_value v n).
Proof. done. Qed.

Lemma same_but_value_fields n n' :
  same_but_value n n' ->
  logoot_start n' = logoot_start n /\ length n' = length n /\ type n' = type n
  /\ clk n' = clk n /\ left_anchor n' = left_anchor n
  /\ right_anchor n' = right_anchor n /\ conflict_with n' = conflict_with n.
Proof. destruct n, n'. unfold same_but_value; cbn. intros [=]. by subst. Qed.

Lemma shift_frame delta ids h :
  List.length (DBst.shift delta ids h) = List.length h
  /\ forall i, same_but_value (h !!! i) (DBst.shift delta ids h !!! i).
Proof.
  induction ids as [|j ids [IHlen IH]]; cbn; [done|].
  split; [by rewrite length_alter|].
  intros i. rewrite list_lookup_total_alter. case_decide as Hj; [|apply IH].
  destruct Hj as [-> _].
  eapply same_but_value_trans; [apply IH|apply same_but_value_set].
Qed.

Lemma mirror_frame nd start delta b m :
  List.length (nodes (OperationBuffer.mirror nd start delta b m)) = List.length (nodes m)
  /\ bst (OperationBuffer.mirror nd start delta b m) = bst m
  /\ forall i, same_but_value (node m i) (node (OperationBuffer.mirror nd start delta b m) i).
Proof.
  unfold OperationBuffer.mirror.
  set (m1 := match OperationBuffer.dummy_node b with
             | Some d => if ldoc_start (node m d) >=? start
                         then update d (fun n => set_value (value n + delta) n) m else m
             | None => m end).
  assert (H1 : List.length (nodes m1) = List.length (nodes m) /\ bst m1 = bst m
               /\ forall i, same_but_value (node m i) (node m1 i)).
  { unfold m1. destruct (OperationBuffer.dummy_node b) as [d|]; [|done].
    destruct (_ >=? _); [|done].
    split; [apply nodes_update_length|]. split; [done|].
    intros i. unfold node, update; cbn. rewrite list_lookup_total_alter.
    case_decide as Hd; [|done]. destruct Hd as [-> _]. apply same_but_value_set. }
  destruct H1 as (Hlen & Hbst & Hsame).
  destruct (DBst.inorder_successor m1 nd) as [s|]; [|done].
  unfold DBst.addSpaceBefore; cbn.
  destruct (shift_frame delta (DBst.from (bst m1) s) (nodes m1)) as [Hl Hs].
  split; [congruence|]. split; [done|].
  intros i. eapply same_but_value_trans; [apply Hsame|apply Hs].
Qed.

Lemma opbuf_remove_frame nd start len m b m' b' :
  OperationBuffer.remove nd start len (m, b) = Ok (m', b') ->
  List.length (nodes m') = List.length (nodes m)
  /\ bst m' = bst m
  /\ (forall i, same_but_value (node m i) (node m' i))
  /\ OperationBuffer.operations b' =
       OperationBuffer.operations b
       ++ (if len =? 0 then [] else [RemovalOperation start len]).
Proof.
  unfold OperationBuffer.remove.
  destruct (len =? 0).
  { intros [= <- <-]. by rewrite app_nil_r. }
  destruct (start <? 0); [done|]. destruct (len <? 0); [done|].
  intros [= <- <-]; cbn.
  destruct (mirror_frame nd start (- len)
              (OperationBuffer.push (RemovalOperation start len) b) m) as (? & ? & ?).
  done.
Qed.

Lemma same_but_value_same_run n n' : same_but_value n n' -> same_run n n'.
Proof. intros H. apply same_but_value_fields in H. unfold same_run. tauto. Qed.

Lemma same_run_trans n1 n2 n3 : same_run n1 n2 -> same_run n2 n3 -> same_run n1 n3.
Proof. unfold same_run. intros (?&?&?&?&?) (?&?&?&?&?). repeat split; congruence. Qed.

Lemma filter_ext_in {A} (P Q : A -> Prop) `{!forall x, Decision (P x)}
  `{!forall x, Decision (Q x)} (l : list A) :
  (forall x, x ∈ l -> P x <-> Q x) -> filter P l = filter Q l.
Proof.
  induction l as [|x l IH]; intros Hext; [done|].
  rewrite !filter_cons.
  rewrite IH by (intros y Hy; apply Hext; by apply elem_of_cons; right).
  pose proof (Hext x ltac:(by apply elem_of_cons; left)).
  repeat case_decide; tauto.
Qed.

Lemma removeLogoot_step_effect start clock nd m b m' b' :
  (nd < List.length (nodes m))%nat ->
  removeLogoot_step start clock nd (m, b) = Ok (m', b') ->
  List.length (nodes m') = List.length (nodes m)
  /\ bst m' = bst m
  /\ (forall i, i <> nd -> same_but_value (node m i) (node m' i))
  /\ same_run (node m nd) (node m' nd)
  /\ (if removal_applies start clock (node m nd)
      then type (node m' nd) = REMOVAL /\ clk (node m' nd) = clock
      else type (node m' nd) = type (node m nd) /\ clk (node m' nd) = clk (node m nd))
  /\ OperationBuffer.operations b' =
       OperationBuffer.operations b
       ++ (if removal_applies start clock (node m nd) && negb (ldoc_length (node m nd) =? 0)
           then [RemovalOperation (ldoc_start (node m nd)) (ldoc_length (node m nd))]
           else []).
Proof.
  intros Hnd. unfold removeLogoot_step; cbn [fst snd].
  destruct (removal_applies start clock (node m nd)); cbn [andb].
  - destruct (OperationBuffer.remove nd (ldoc_start (node m nd))
                (ldoc_length (node m nd)) (m, b)) as [[m1 b1]|] eqn:Hrm; [|done].
    cbn. intros [= <- <-].
    apply opbuf_remove_frame in Hrm as (Hlen & Hbst & Hsame & Hops).
    split; [by rewrite nodes_update_length|]. split; [done|]. split.
    { intros i Hi. rewrite node_update_ne by done. apply Hsame. }
    rewrite node_update_eq by lia.
    pose proof (same_but_value_same_run _ _ (Hsame nd)) as Hrun.
    split; [exact Hrun|]. split; [done|].
    rewrite Hops. by destruct (ldoc_length (node m nd) =? 0).
  - intros [= <- <-]. rewrite app_nil_r. repeat split; done.
Qed.

Lemma removal_applies_same n n' start clock :
  same_but_value n n' -> removal_applies start clock n' = removal_applies start clock n.
Proof.
  intros (Hs & _ & _ & Hc & _)%same_but_value_fields.
  unfold removal_applies. by rewrite Hs, Hc.
Qed.

Lemma ldoc_length_same n n' : same_but_value n n' -> ldoc_length n' = ldoc_length n.
Proof.
  intros (_ & Hl & Ht & _)%same_but_value_fields.
  unfold ldoc_length. by rewrite Hl, Ht.
Qed.

Lemma removeLogoot_loop_effect start clock rm_range :
  forall m b m' b',
  NoDup rm_range ->
  (forall id, id ∈ rm_range -> (id < List.length (nodes m))%nat) ->
  forEachM (removeLogoot_step start clock) rm_range (m, b) = Ok (m', b') ->
  List.length (nodes m') = List.length (nodes m)
  /\ bst m' = bst m
  /\ (forall i, same_run (node m i) (node m' i))
  /\ (forall i, i ∉ rm_range -> same_but_value (node m i) (node m' i))
  /\ (forall i, i ∈ rm_range ->
        if removal_applies start clock (node m i)
        then type (node m' i) = REMOVAL /\ clk (node m' i) = clock
        else type (node m' i) = type (node m i) /\ clk (node m' i) = clk (node m i))
  /\ exists ops,
       OperationBuffer.operations b' = OperationBuffer.operations b ++ ops
       /\ Forall2 (fun op len => exists s, op = RemovalOperation s len)
            ops ((fun id => ldoc_length (node m id)) <$> removed_data start clock m rm_range).
Proof.
  induction rm_range as [|nd rest IH]; intros m b m' b' Hnodup Hvalid;
    cbn [forEachM mbind result_bind].
  - intros [= <- <-]. split; [done|]. split; [done|].
    split; [by intros i; repeat split|]. split; [done|].
    split; [by intros i ?%elem_of_nil|].
    exists []. split; [by rewrite app_nil_r|constructor].
  - apply NoDup_cons in Hnodup as [Hfresh Hnodup].
    destruct (removeLogoot_step start clock nd (m, b)) as [[m1 b1]|] eqn:Hstep; [|done].
    cbn. intros Hloop.
    apply removeLogoot_step_effect in Hstep
      as (Hlen1 & Hbst1 & Hother1 & Hrun1 & Hgate1 & Hops1);
      [|apply Hvalid; by apply elem_of_cons; left].
    apply IH in Hloop as (Hlen & Hbst & Hrun & Hout & Hin & ops & Hops & Hall);
      [|done|intros id Hid; rewrite Hlen1; apply Hvalid; by apply elem_of_cons; right].
    assert (Hrun1' : forall i, same_run (node m i) (node m1 i)).
    { intros i. destruct (decide (i = nd)) as [->|Hne]; [done|].
      by apply same_but_value_same_run, Hother1. }
    split; [congruence|]. split; [congruence|]. split.
    { intros i. eapply same_run_trans; [apply Hrun1'|apply Hrun]. }
    split.
    { intros i Hi. apply not_elem_of_cons in Hi as [Hne Hi].
      eapply same_but_value_trans; [by apply Hother1|by apply Hout]. }
    split.
    { intros i [->|Hi]%elem_of_cons.
      - pose proof (same_but_value_fields _ _ (Hout nd Hfresh)) as (_&_&Ht&Hc&_).
        rewrite Ht, Hc. exact Hgate1.
      - assert (Hne : i <> nd) by (intros ->; done).
        specialize (Hin i Hi).
        rewrite (removal_applies_same _ _ _ _ (Hother1 i Hne)) in Hin.
        pose proof (same_but_value_fields _ _ (Hother1 i Hne)) as (_&_&Ht&Hc&_).
        by rewrite <- Ht, <- Hc. }
    assert (Hrest : (fun id => ldoc_length (node m1 id)) <$> removed_data start clock m1 rest
                    = (fun id => ldoc_length (node m id)) <$> removed_data start clock m rest).
    { unfold removed_data.
      rewrite (filter_ext_in _
                 (fun id => removal_applies start clock (node m id) = true
                            /\ ldoc_length (node m id) <> 0) rest).
      - apply list_fmap_ext. intros k i [_ Hi]%list_elem_of_lookup_2%list_elem_of_filter.
        assert (Hne : i <> nd) by (intros ->; done).
        apply ldoc_length_same, Hother1, Hne.
      - intros i Hi. assert (Hne : i <> nd) by (intros ->; done).
        by rewrite (removal_applies_same _ _ _ _ (Hother1 i Hne)),
                   (ldoc_length_same _ _ (Hother1 i Hne)). }
    rewrite Hrest in Hall.
    exists ((if removal_applies start clock (node m nd) && negb (ldoc_length (node m nd) =? 0)
             then [RemovalOperation (ldoc_start (node m nd)) (ldoc_length (node m nd))]
             else []) ++ ops).
    split; [by rewrite Hops, Hops1, app_assoc|].
    unfold removed_data.
    destruct (removal_applies start clock (node m nd)) eqn:Hg; cbn [andb].
    + destruct (Z.eqb_spec (ldoc_length (node m nd)) 0) as [Hz|Hz]; cbn [negb].
      * case_decide as Hd; [by destruct Hd|]. exact Hall.
      * case_decide as Hd; [|by exfalso; apply Hd]. cbn.
        constructor; [by eexists|exact Hall].
    + case_decide as Hd; [by destruct Hd|]. exact Hall.
Qed.

Lemma tiles_app acc a b :
  tiles acc (a ++ b) <-> tiles acc a /\ tiles (foldl (fun _ n => ldoc_end n) acc a) b.
Proof.
  revert acc. induction a as [|n a IH]; intros acc; cbn; [tauto|].
  rewrite IH. tauto.
Qed.

Lemma tiles_ext acc ns ns' :
  Forall2 (fun n n' => ldoc_start n' = ldoc_start n /\ ldoc_length n' = ldoc_length n) ns ns' ->
  tiles acc ns -> tiles acc ns'.
Proof.
  intros H. revert acc. induction H as [|n n' ns ns' [Hs Hl] _ IH]; intros acc; cbn; [done|].
  intros [Hacc Hrest]. split; [congruence|].
  apply IH. unfold ldoc_end in *. by rewrite Hs, Hl.
Qed.

Lemma tiles_shift d acc ns :
  tiles acc ns -> tiles (acc + d) ((fun n => set_value (value n + d) n) <$> ns).
Proof.
  revert acc. induction ns as [|n ns IH]; intros acc; cbn; [done|].
  intros [Hacc Hrest]. split; [unfold ldoc_start in *; cbn; lia|].
  replace (ldoc_end (set_value (value n + d) n)) with (ldoc_end n + d)
    by (unfold ldoc_end, ldoc_start, ldoc_length; cbn; lia).
  by apply IH.
Qed.

Lemma tiles_nonneg acc ns :
  0 <= acc -> Forall (fun n => 0 <= ldoc_length n) ns -> tiles acc ns ->
  Forall (fun n => 0 <= ldoc_start n) ns.
Proof.
  intros Hacc Hlen. revert acc Hacc.
  induction Hlen as [|n ns Hn _ IH]; intros acc Hacc; cbn; [constructor|].
  intros [Hs Hrest]. constructor; [lia|].
  apply (IH (ldoc_end n)); [unfold ldoc_end; lia|done].
Qed.

Lemma successor_in_split l1 nd l2 :
  nd ∉ l1 -> DBst.successor_in (l1 ++ nd :: l2) nd = head l2.
Proof.
  induction l1 as [|x l1 IH]; cbn; intros Hnd.
  - by rewrite Nat.eqb_refl.
  - apply not_elem_of_cons in Hnd as [Hne Hnd].
    destruct (Nat.eqb_spec x nd); [congruence|]. by apply IH.
Qed.

Lemma from_split l1 s l2 : s ∉ l1 -> DBst.from (l1 ++ s :: l2) s = s :: l2.
Proof.
  induction l1 as [|x l1 IH]; cbn; intros Hs.
  - by rewrite Nat.eqb_refl.
  - apply not_elem_of_cons in Hs as [Hne Hs].
    destruct (Nat.eqb_spec x s); [congruence|]. by apply IH.
Qed.

Lemma shift_lookup d ids h i :
  NoDup ids -> (forall j, j ∈ ids -> (j < List.length h)%nat) ->
  DBst.shift d ids h !!! i =
    if decide (i ∈ ids) then set_value (value (h !!! i) + d) (h !!! i) else h !!! i.
Proof.
  induction ids as [|j ids IH]; intros Hnodup Hvalid.
  - by rewrite decide_False by apply not_elem_of_nil.
  - apply NoDup_cons in Hnodup as [Hfresh Hnodup].
    assert (Hvalid' : forall k, k ∈ ids -> (k < List.length h)%nat)
      by (intros k Hk; apply Hvalid; by apply elem_of_cons; right).
    specialize (IH Hnodup Hvalid').
    change (DBst.shift d (j :: ids) h)
      with (alter (fun n => set_value (value n + d) n) j (DBst.shift d ids h)).
    rewrite list_lookup_total_alter.
    destruct (shift_frame d ids h) as [Hlen _].
    destruct (decide (j = i)) as [->|Hne].
    + rewrite decide_True
        by (split; [done|rewrite Hlen; apply Hvalid; by apply elem_of_cons; left]).
      rewrite decide_True by (by apply elem_of_cons; left).
      rewrite IH. by rewrite decide_False.
    + rewrite decide_False by (intros [? _]; done).
      rewrite IH. destruct (decide (i ∈ ids)) as [Hi|Hi].
      * by rewrite decide_True by (by apply elem_of_cons; right).
      * rewrite decide_False; [done|].
        intros [?|?]%elem_of_cons; [congruence|done].
Qed.

Lemma Forall2_fmap_same {A B} (R : B -> B -> Prop) (f g : A -> B) (l : list A) :
  (forall x, x ∈ l -> R (f x) (g x)) -> Forall2 R (f <$> l) (g <$> l).
Proof.
  intros H. apply Forall2_fmap, Forall_Forall2_diag, Forall_forall. exact H.
Qed.

Lemma tiles_shifted L acc B B' :
  Forall2 (fun x x' => ldoc_start x' = ldoc_start x - L
                       /\ ldoc_length x' = ldoc_length x) B B' ->
  tiles acc B -> tiles (acc - L) B'.
Proof.
  intros H. revert acc. induction H as [|x x' B B' [Hs Hl] _ IH]; intros acc; cbn; [done|].
  intros [Hacc Hrest]. split; [lia|].
  replace (ldoc_end x') with (ldoc_end x - L) by (unfold ldoc_end; lia).
  by apply IH.
Qed.

Lemma tiles_retype acc A n B A' n' B' :
  Forall2 (fun x x' => ldoc_start x' = ldoc_start x
                       /\ ldoc_length x' = ldoc_length x) A A' ->
  ldoc_start n' = ldoc_start n -> ldoc_length n' = 0 ->
  Forall2 (fun x x' => ldoc_start x' = ldoc_start x - ldoc_length n
                       /\ ldoc_length x' = ldoc_length x) B B' ->
  tiles acc (A ++ n :: B) -> tiles acc (A' ++ n' :: B').
Proof.
  intros HA Hs Hl HB. revert acc.
  induction HA as [|x x' A A' [Hxs Hxl] _ IH]; intros acc; cbn.
  - intros [Hacc Hrest]. split; [lia|].
    replace (ldoc_end n') with (ldoc_end n - ldoc_length n) by (unfold ldoc_end; lia).
    by eapply tiles_shifted.
  - intros [Hacc Hrest]. split; [lia|].
    replace (ldoc_end x') with (ldoc_end x) by (unfold ldoc_end; lia).
    by apply IH.
Qed.

Lemma ldoc_length_nonneg n : 0 <= length n -> 0 <= ldoc_length n.
Proof. unfold ldoc_length. destruct (type n); lia. Qed.

Lemma removeLogoot_step_ready start clock nd m b :
  removal_ready m -> OperationBuffer.dummy_node b = None -> nd ∈ bst m ->
  exists m' b', removeLogoot_step start clock nd (m, b) = Ok (m', b')
    /\ removal_ready m' /\ OperationBuffer.dummy_node b' = None.
Proof.
  intros (Hnodup & Hvalid & Htiled & Hlen) Hdummy Hnd.
  unfold removeLogoot_step; cbn [fst snd].
  destruct (removal_applies start clock (node m nd)); [|by exists m, b].
  assert (HL : 0 <= ldoc_length (node m nd)) by (apply ldoc_length_nonneg, Hlen, Hnd).
  assert (HS : 0 <= ldoc_start (node m nd)).
  { assert (Hall : Forall (fun n => 0 <= ldoc_start n) (node m <$> bst m)).
    { apply (tiles_nonneg 0); [lia| |exact Htiled].
      apply Forall_fmap, Forall_forall. intros i Hi. by apply ldoc_length_nonneg, Hlen. }
    rewrite Forall_fmap, Forall_forall in Hall. by apply Hall. }
  destruct (list_elem_of_split _ _ Hnd) as (l1 & l2 & Hsplit).
  rewrite Hsplit in Hnodup.
  apply NoDup_app in Hnodup as (Hnd1 & Hdisj & [Hfresh2 Hnd2]%NoDup_cons).
  assert (Hfresh1 : nd ∉ l1).
  { intros Hin. apply (Hdisj _ Hin). by apply elem_of_cons; left. }
  set (retype := fun n => set_clk clock (set_type REMOVAL n)).
  (* the model after the removal, before the node is re-typed *)
  assert (Hrm : exists m1 b1,
    OperationBuffer.remove nd (ldoc_start (node m nd)) (ldoc_length (node m nd)) (m, b)
      = Ok (m1, b1)
    /\ OperationBuffer.dummy_node b1 = None
    /\ bst m1 = bst m
    /\ List.length (nodes m1) = List.length (nodes m)
    /\ (forall i, i ∉ l2 -> node m1 i = node m i)
    /\ (forall i, i ∈ l2 -> node m1 i =
          set_value (value (node m i) - ldoc_length (node m nd)) (node m i))).
  { unfold OperationBuffer.remove.
    destruct (Z.eqb_spec (ldoc_length (node m nd)) 0) as [Hz|Hz].
    - exists m, b. do 5 (split; [done|]). intros i Hi. rewrite Hz.
      destruct (node m i); unfold set_value; cbn. f_equal. lia.
    - destruct (Z.ltb_spec (ldoc_start (node m nd)) 0); [lia|].
      destruct (Z.ltb_spec (ldoc_length (node m nd)) 0); [lia|].
      eexists _, _. split; [reflexivity|]. split; [done|].
      unfold OperationBuffer.mirror;
        cbn [OperationBuffer.push OperationBuffer.dummy_node fst snd].
      rewrite Hdummy. unfold DBst.inorder_successor.
      rewrite Hsplit, successor_in_split by done.
      destruct l2 as [|s l2']; cbn [head].
      { do 3 (split; [done|]). by intros i ?%elem_of_nil. }
      unfold DBst.addSpaceBefore; cbn [bst nodes].
      replace (DBst.from (bst m) s) with (s :: l2').
      2:{ rewrite Hsplit. change (l1 ++ nd :: s :: l2') with (l1 ++ [nd] ++ s :: l2').
          rewrite app_assoc, from_split; [done|].
          apply NoDup_cons in Hnd2 as [? _].
          intros [Hin|Hin%list_elem_of_singleton]%elem_of_app.
          - apply (Hdisj _ Hin). apply elem_of_cons; right. by apply elem_of_cons; left.
          - subst. apply Hfresh2. by apply elem_of_cons; left. }
      split; [done|]. split; [apply shift_frame|].
      assert (Hv2 : forall j, j ∈ s :: l2' -> (j < List.length (nodes m))%nat).
      { intros j Hj. apply Hvalid. rewrite Hsplit.
        apply elem_of_app; right. by apply elem_of_cons; right. }
      split; intros i Hi; unfold node; cbn [nodes];
        rewrite shift_lookup by done.
      + by rewrite decide_False.
      + by rewrite decide_True by done. }
  destruct Hrm as (m1 & b1 & -> & Hd1 & Hbst1 & Hlen1 & Hout & Hin).
  cbn. exists (update nd retype m1), b1. split; [done|]. split; [|done].
  assert (Hndlt : (nd < List.length (nodes m1))%nat) by (rewrite Hlen1; by apply Hvalid).
  split; [cbn; rewrite Hbst1, Hsplit; apply NoDup_app; repeat split; try done;
          by apply NoDup_cons|].
  split; [intros id Hid; rewrite nodes_update_length, Hlen1; apply Hvalid;
          cbn in Hid; by rewrite <- Hbst1|].
  split.
  - unfold tiled in *. cbn [bst update]. rewrite Hbst1, Hsplit in *.
    rewrite fmap_app, fmap_cons in *.
    eapply tiles_retype; [| | | |exact Htiled].
    + apply Forall2_fmap_same. intros i Hi.
      assert (i <> nd) by (intros ->; done).
      rewrite node_update_ne, Hout by (try done; intros ?; by eapply Hdisj; [|apply elem_of_cons; right]).
      done.
    + rewrite node_update_eq, Hout by done. done.
    + rewrite node_update_eq by done. done.
    + apply Forall2_fmap_same. intros i Hi.
      assert (i <> nd) by (intros ->; done).
      rewrite node_update_ne, Hin by done.
      split; [unfold ldoc_start; cbn; lia|done].
  - intros id Hid. cbn in Hid. rewrite Hbst1 in Hid.
    specialize (Hlen id Hid).
    destruct (decide (id = nd)) as [->|Hne].
    + rewrite node_update_eq, Hout by done. exact Hlen.
    + rewrite node_update_ne by done.
      destruct (decide (id ∈ l2)); [rewrite Hin by done|rewrite Hout by done]; done.
Qed.

Lemma removeLogoot_loop_ready start clock rm_range :
  forall m b,
  removal_ready m -> OperationBuffer.dummy_node b = None ->
  (forall id, id ∈ rm_range -> id ∈ bst m) ->
  exists m' b', forEachM (removeLogoot_step start clock) rm_range (m, b) = Ok (m', b')
    /\ removal_ready m' /\ OperationBuffer.dummy_node b' = None.
Proof.
  induction rm_range as [|nd rest IH]; intros m b Hready Hdummy Hin;
    cbn [forEachM mbind result_bind].
  - by exists m, b.
  - destruct (removeLogoot_step_ready start clock nd m b Hready Hdummy)
      as (m1 & b1 & Hstep & Hready1 & Hdummy1); [apply Hin; by apply elem_of_cons; left|].
    rewrite Hstep.
    apply removeLogoot_step_effect in Hstep as (_ & Hbst & _).
    2:{ destruct Hready as (_ & Hvalid & _). apply Hvalid, Hin. by apply elem_of_cons; left. }
    apply (IH m1 b1 Hready1 Hdummy1).
    intros id Hid. rewrite Hbst. apply Hin. by apply elem_of_cons; right.
Qed.

Lemma removal_applies_true start clock n :
  removal_applies start clock n = true <->
  clk n <= clock
  /\ LogootPosition.length (logoot_start n) = LogootPosition.length start.
Proof.
  unfold removal_applies. rewrite andb_true_iff, Z.leb_le, Nat.eqb_eq. tauto.
Qed.

(** The tombstone of [tombstone_doc] has a clock below the given clock 1
    and the nesting length of [start]; the loop re-types it and assigns
    the clock, and emits no [remove] operation, its [ldoc_length] being
    0. *)
Lemma removeLogoot_tombstone_emits_nothing :
  clk (node tombstone_doc 0%nat) <= 1
  /\ LogootPosition.length (logoot_start (node tombstone_doc 0%nat))
     = LogootPosition.length [(0, 0%nat)]
  /\ exists m' b',
       forEachM (removeLogoot_step [(0, 0%nat)] 1) [0%nat]
         (tombstone_doc, OperationBuffer.new 0) = Ok (m', b')
       /\ type (node m' 0%nat) = REMOVAL
       /\ clk (node m' 0%nat) = 1
       /\ OperationBuffer.operations b' = [].
Proof.
  split; [vm_compute; discriminate|]. split; [reflexivity|].
  eexists _, _. split; [vm_compute; reflexivity|]. repeat split.
Qed.

(** The removal loop of [removeLogoot] on its own: a node of the
    removal range is re-typed to [REMOVAL] and takes the given
    clock exactly when its clock is at most the given clock and its
    [logoot_start] has the nesting length of [start]; the operations
    emitted are one [remove] of the current [ldoc_length] for each such
    node whose [ldoc_length] is not zero, in the order of the range; a
    node with a higher clock or another nesting length keeps its type,
    clock and anchors until the loop ends.  On a tree that satisfies
    invariants 2 and 3 the loop returns normally. *)
Theorem removeLogoot_range_gate (start : LogootPosition.t) (clock : Z)
  (rm_range : list NodeId) (m : ListDocumentModel) (b : OperationBuffer.t) :
  NoDup rm_range ->
  (forall id, id ∈ rm_range -> id ∈ bst m) ->
  (forall id, id ∈ bst m -> (id < List.length (nodes m))%nat) ->
  (removal_ready m -> OperationBuffer.dummy_node b = None ->
   exists m' b', forEachM (removeLogoot_step start clock) rm_range (m, b) = Ok (m', b'))
  /\ (forall m' b',
      forEachM (removeLogoot_step start clock) rm_range (m, b) = Ok (m', b') ->
      (forall id, id ∈ rm_range ->
         clk (node m id) <= clock ->
         LogootPosition.length (logoot_start (node m id)) = LogootPosition.length start ->
         type (node m' id) = REMOVAL /\ clk (node m' id) = clock)
      /\ (forall id, id ∈ rm_range ->
            clock < clk (node m id)
            \/ LogootPosition.length (logoot_start (node m id)) <> LogootPosition.length start ->
            type (node m' id) = type (node m id)
            /\ clk (node m' id) = clk (node m id)
            /\ left_anchor (node m' id) = left_anchor (node m id)
            /\ right_anchor (node m' id) = right_anchor (node m id))
      /\ exists ops,
           OperationBuffer.operations b' = OperationBuffer.operations b ++ ops
           /\ Forall2 (fun op len => exists s, op = RemovalOperation s len) ops
                ((fun id => ldoc_length (node m id))
                   <$> removed_data start clock m rm_range)).
Proof.
  intros Hnodup Hin Hvalid. split.
  - intros Hready Hdummy.
    destruct (removeLogoot_loop_ready start clock rm_range m b Hready Hdummy Hin)
      as (m' & b' & Hloop & _). by exists m', b'.
  - intros m' b' Hloop.
    apply removeLogoot_loop_effect in Hloop
      as (_ & _ & Hrun & _ & Hgate & Hops); [|done|by intros id ?; apply Hvalid, Hin].
    split; [|split; [|exact Hops]].
    + intros id Hid Hclk Hnest. specialize (Hgate id Hid).
      by rewrite (proj2 (removal_applies_true start clock (node m id))) in Hgate.
    + intros id Hid Hnot. specialize (Hgate id Hid).
      destruct (removal_applies start clock (node m id)) eqn:Happ.
      * apply removal_applies_true in Happ as [? ?]. destruct Hnot; [lia|done].
      * destruct (Hrun id) as (_ & _ & Hl & Hr & _). tauto.
Qed.

Lemma removal_doc_ready : removal_ready removal_doc.
Proof.
  unfold removal_ready. split; [|split; [|split]].
  - by apply (bool_decide_unpack _).
  - intros id Hid. cbn in *.
    repeat (apply elem_of_cons in Hid as [->|Hid]); [lia..|by apply elem_of_nil in Hid].
  - unfold tiled. cbn. repeat split.
  - intros id Hid. cbn in Hid.
    repeat (apply elem_of_cons in Hid as [->|Hid]);
      [vm_compute; discriminate..|by apply elem_of_nil in Hid].
Qed.

Lemma removeLogoot_range_gate_witness :
  exists m' b',
    forEachM (removeLogoot_step [(0, 0%nat)] 1) [0%nat; 1%nat; 2%nat]
      (removal_doc, OperationBuffer.new 0) = Ok (m', b')
    /\ type (node m' 0%nat) = REMOVAL /\ clk (node m' 0%nat) = 1
    /\ type (node m' 1%nat) = DATA /\ clk (node m' 1%nat) = 5
    /\ type (node m' 2%nat) = DATA /\ clk (node m' 2%nat) = 0.
Proof.
  destruct (removeLogoot_range_gate [(0, 0%nat)] 1 [0%nat; 1%nat; 2%nat]
              removal_doc (OperationBuffer.new 0)) as [Hruns Heffect].
  - by apply (bool_decide_unpack _).
  - done.
  - apply removal_doc_ready.
  - destruct (Hruns removal_doc_ready eq_refl) as (m' & b' & Hloop).
    exists m', b'. split; [exact Hloop|].
    destruct (Heffect m' b' Hloop) as (Hgate & Hkeep & _).
    destruct (Hgate 0%nat) as [-> ->];
      [repeat constructor|vm_compute; discriminate|reflexivity|].
    destruct (Hkeep 1%nat) as (-> & -> & _);
      [repeat constructor|left; vm_compute; reflexivity|].
    destruct (Hkeep 2%nat) as (-> & -> & _);
      [repeat constructor|right; vm_compute; lia|].
    repeat split.
Defined.

(** ** Delivery order, invariants and replay *)

Lemma removeLogoot_empty start len clock :
  removeLogoot start len clock emptyLdm = Ok ([], emptyLdm).
Proof. reflexivity. Qed.

(** C1, on the code: a removal that is delivered before the insertion it
    removes finds no node and leaves no trace, so the two delivery orders
    of one insertion (clock 0) and its removal (clock 1) end in different
    trees: a [REMOVAL] node with clock 1 when the insertion comes first, a
    [DATA] node with clock 0 when the removal comes first. *)
Theorem removal_before_insertion_is_lost
  (newBetween : BranchKey -> Z -> option LogootPosition.t -> option LogootPosition.t
                -> LogootPosition.t) :
  newBetween 0%nat 1 None None = [(0, 0%nat)] ->
  let insertion := insertLogoot newBetween 0%nat None None 1 0 in
  let removal := removeLogoot [(0, 0%nat)] 1 1 in
  removal emptyLdm = Ok ([], emptyLdm)
  /\ outcome (andThen (insertion emptyLdm) removal)
     = Some ([RemovalOperation 0 1],
             [mkView [(0, 0%nat)] 1 REMOVAL 1 0 DocStart DocEnd []])
  /\ outcome (andThen (removal emptyLdm) insertion)
     = Some ([InsertionOperation 0 0 1],
             [mkView [(0, 0%nat)] 1 DATA 0 0 DocStart DocEnd []]).
Proof.
  intros Hstart insertion removal. subst insertion removal.
  unfold insertLogoot. rewrite Hstart.
  split; [reflexivity|]. split; vm_compute; reflexivity.
Qed.

Lemma removal_before_insertion_is_lost_witness :
  outcome (andThen (removeLogoot [(0, 0%nat)] 1 1 emptyLdm)
                   (insertLogoot sample_generator 0%nat None None 1 0))
  = Some ([InsertionOperation 0 0 1],
          [mkView [(0, 0%nat)] 1 DATA 0 0 DocStart DocEnd []]).
Proof.
  apply (removal_before_insertion_is_lost sample_generator). reflexivity.
Defined.

(** C2, on the code: a document receives an insertion of two elements, an
    insertion of one element before them, and then the first insertion
    once more.  The duplicate returns normally, and after it [selfTest]
    raises [FatalError]: the node at atom -1 holds the node at atom 0 in
    its [conflict_with], although that node's left anchor, atom 0, is not
    below its [logoot_end] (invariant 4). *)
Theorem duplicate_insertion_breaks_selfTest
  (newBetween : BranchKey -> Z -> option LogootPosition.t -> option LogootPosition.t
                -> LogootPosition.t) :
  newBetween 0%nat 2 None None = [(0, 0%nat)] ->
  newBetween 0%nat 1 None (Some [(0, 0%nat)]) = [(-1, 0%nat)] ->
  let first := insertLogoot newBetween 0%nat None None 2 0 in
  let second := insertLogoot newBetween 0%nat None (Some [(0, 0%nat)]) 1 0 in
  let before := andThen (first emptyLdm) second in
  let after := andThen before first in
  outcome before
  = Some ([InsertionOperation 0 0 1],
          [mkView [(-1, 0%nat)] 1 DATA 0 0 DocStart (RightAt [(0, 0%nat)]) [];
           mkView [(0, 0%nat)] 2 DATA 0 1 (LeftAt [(0, 0%nat)]) DocEnd []])
  /\ selfTest_after before = Some (Ok ())
  /\ outcome after
     = Some ([RemovalOperation 1 2; InsertionOperation 1 0 2],
             [mkView [(-1, 0%nat)] 1 DATA 0 0 DocStart (RightAt [(0, 0%nat)])
                     [[(0, 0%nat)]];
              mkView [(0, 0%nat)] 2 DATA 0 1 (LeftAt [(0, 0%nat)]) DocEnd []])
  /\ selfTest_after after = Some (Throw Fatal).
Proof.
  intros Hfirst Hsecond first second before after.
  subst after before first second.
  unfold insertLogoot. rewrite Hfirst, Hsecond.
  repeat split; vm_compute; reflexivity.
Qed.

Lemma duplicate_insertion_breaks_selfTest_witness :
  selfTest_after
    (andThen (andThen (insertLogoot sample_generator 0%nat None None 2 0 emptyLdm)
                      (insertLogoot sample_generator 0%nat None (Some [(0, 0%nat)]) 1 0))
             (insertLogoot sample_generator 0%nat None None 2 0))
  = Some (Throw Fatal).
Proof.
  apply (duplicate_insertion_breaks_selfTest sample_generator); reflexivity.
Defined.

(** C3, on the code: on the document left by an insertion of one element,
    an insertion of two elements over it, an insertion before them and
    the removal of the second element, the insertion of two elements is
    applied twice more.  The second application leaves the node at atom 0
    with the right anchor 1, the first had left it with the right anchor
    2: twice is not once. *)
Theorem insertLogoot_twice_is_not_once
  (newBetween : BranchKey -> Z -> option LogootPosition.t -> option LogootPosition.t
                -> LogootPosition.t) :
  newBetween 0%nat 1 None None = [(0, 0%nat)] ->
  newBetween 0%nat 2 None None = [(0, 0%nat)] ->
  newBetween 0%nat 1 None (Some [(0, 0%nat)]) = [(-1, 0%nat)] ->
  let insertion := insertLogoot newBetween 0%nat None None 2 0 in
  let reached :=
    andThen (andThen (andThen (insertLogoot newBetween 0%nat None None 1 0 emptyLdm)
                              insertion)
                     (insertLogoot newBetween 0%nat None (Some [(0, 0%nat)]) 1 0))
            (removeLogoot [(1, 0%nat)] 1 1) in
  selfTest_after reached = Some (Ok ())
  /\ outcome (andThen reached insertion)
     = Some ([RemovalOperation 1 1; InsertionOperation 1 0 1],
             [mkView [(-1, 0%nat)] 1 DATA 0 0 DocStart (RightAt [(0, 0%nat)])
                     [[(1, 0%nat)]];
              mkView [(0, 0%nat)] 1 DATA 0 1 (LeftAt [(0, 0%nat)])
                     (RightAt [(2, 0%nat)]) [];
              mkView [(1, 0%nat)] 1 REMOVAL 1 2 (LeftAt [(1, 0%nat)]) DocEnd
                     [[(0, 0%nat)]]])
  /\ outcome (andThen (andThen reached insertion) insertion)
     = Some ([RemovalOperation 1 1; InsertionOperation 1 0 1],
             [mkView [(-1, 0%nat)] 1 DATA 0 0 DocStart (RightAt [(0, 0%nat)])
                     [[(1, 0%nat)]];
              mkView [(0, 0%nat)] 1 DATA 0 1 (LeftAt [(0, 0%nat)])
                     (RightAt [(1, 0%nat)]) [];
              mkView [(1, 0%nat)] 1 REMOVAL 1 2 (LeftAt [(1, 0%nat)]) DocEnd
                     [[(0, 0%nat)]]]).
Proof.
  intros Hone Htwo Hbefore insertion reached.
  subst reached insertion.
  unfold insertLogoot. rewrite Hone, Htwo, Hbefore.
  repeat split; vm_compute; reflexivity.
Qed.

Lemma insertLogoot_twice_is_not_once_witness :
  selfTest_after
    (andThen (andThen (andThen (insertLogoot sample_generator 0%nat None None 1 0 emptyLdm)
                               (insertLogoot sample_generator 0%nat None None 2 0))
                      (insertLogoot sample_generator 0%nat None (Some [(0, 0%nat)]) 1 0))
             (removeLogoot [(1, 0%nat)] 1 1))
  = Some (Ok ()).
Proof.
  apply (insertLogoot_twice_is_not_once sample_generator); reflexivity.
Defined.

(** * Further properties of the code *)

(** ** More on the operation buffer *)






(** X1: [OperationBuffer.remove] raises an error exactly when the length
    is not zero and the start or the length is negative, and the error is
    a [FatalError]; in every other case with a length that is not zero it
    returns with the one operation [remove(start, length)] appended to the
    buffer.  It leaves the tree as it was and writes no field of a node
    but its local offset [value]: the one of the dummy node and the ones
    of the later nodes are what it moves. *)
Theorem opbuf_remove_errors (nd : NodeId) (start len : Z)
  (m : ListDocumentModel) (b : OperationBuffer.t) :
  ((exists e, OperationBuffer.remove nd start len (m, b) = Throw e)
     <-> len <> 0 /\ (start < 0 \/ len < 0))
  /\ (forall e, OperationBuffer.remove nd start len (m, b) = Throw e -> e = Fatal)
  /\ (forall m' b', OperationBuffer.remove nd start len (m, b) = Ok (m', b') ->
        len <> 0 ->
        OperationBuffer.operations b'
          = OperationBuffer.operations b ++ [RemovalOperation start len]
        /\ bst m' = bst m
        /\ forall i, same_but_value (node m i) (node m' i)).
Proof.
  split; [|split].
  - unfold OperationBuffer.remove.
    destruct (Z.eqb_spec len 0) as [Hz|Hz]; [split; [by intros [e ?]|lia]|].
    destruct (Z.ltb_spec start 0) as [Hs|Hs]; [split; [intros _; lia|by exists Fatal]|].
    destruct (Z.ltb_spec len 0) as [Hl|Hl]; [split; [intros _; lia|by exists Fatal]|].
    split; [by intros [e ?]|lia].
  - unfold OperationBuffer.remove. intros e.
    destruct (len =? 0); [done|].
    destruct (start <? 0); [by intros [= <-]|].
    destruct (len <? 0); [by intros [= <-]|done].
  - intros m' b' Hrm Hlen.
    apply opbuf_remove_frame in Hrm as (_ & Hbst & Hsame & Hops).
    destruct (Z.eqb_spec len 0); [done|]. done.
Qed.







(** ** The errors of [insertLocal] *)

(** X4: [insertLocal] raises [InternalError] exactly when its arguments
    are valid and a bucket that it searches holds two [DATA] nodes or
    more: the lesser bucket, or the greater bucket when the lesser one has
    no [DATA] node that ends after [start].  When the lesser [DATA] node
    ends after [start] the greater bucket is not searched and cannot raise
    the error. *)
Theorem insertLocal_internal_error (search : ListDocumentModel -> Z -> Buckets Z)
  (m : ListDocumentModel) (start len : Z) :
  insertLocal search m start len = Throw Internal <->
  0 <= start /\ 0 < len
  /\ ((2 <= List.length (data_ids m (lesser (search m start))))%nat
      \/ ((forall i, data_ids m (lesser (search m start)) = [i] ->
             ldoc_end (node m i) <= start)
          /\ (2 <= List.length (data_ids m (greater (search m start))))%nat)).
Proof.
  unfold insertLocal.
  destruct (Z.ltb_spec start 0); [split; [done|lia]|].
  destruct (Z.leb_spec len 0); [split; [done|lia]|].
  rewrite !search_data_spec.
  destruct (data_ids m (lesser (search m start))) as [|i [|i' lo]]; cbn.
  - destruct (data_ids m (greater (search m start))) as [|j [|j' hi]]; cbn.
    + split; [done|]. intros (_ & _ & [?|[_ ?]]); lia.
    + split; [done|]. intros (_ & _ & [?|[_ ?]]); lia.
    + split; [|done]. intros _. do 2 (split; [lia|]). right. split; [done|lia].
  - destruct (Z.gtb_spec (ldoc_end (node m i)) start) as [Hspan|Hspan].
    + split; [done|]. intros (_ & _ & [?|[Hend _]]); [lia|].
      specialize (Hend i eq_refl). lia.
    + destruct (data_ids m (greater (search m start))) as [|j [|j' hi]]; cbn.
      * split; [done|]. intros (_ & _ & [?|[_ ?]]); lia.
      * split; [done|]. intros (_ & _ & [?|[_ ?]]); lia.
      * split; [|done]. intros _. do 2 (split; [lia|]). right.
        split; [by intros ? [= <-]|lia].
  - split; [|done]. intros _. do 2 (split; [lia|]). left. lia.
Qed.

(** ** [selfTest] *)

Lemma selfTest_conflict_spec m nd cfl :
  selfTest_conflict m nd cfl = true <->
  cfl = nd \/ set_has (conflict_with (node m nd)) cfl = reaches (node m cfl) (node m nd).
Proof.
  unfold selfTest_conflict, reaches.
  destruct (Nat.eqb_spec cfl nd) as [->|Hne]; [by split; [left|]|].
  rewrite Bool.eqb_true_iff. split; [by right|]. by intros [?|?].
Qed.

Lemma selfTest_node_throws m nd s e : selfTest_node m nd s = Throw e -> e = Fatal.
Proof.
  unfold selfTest_node.
  repeat (match goal with |- context [if ?c then _ else _] => destruct c end);
    congruence.
Qed.

Lemma selfTest_node_spec m nd acc last_logoot :
  let P := ldoc_start (node m nd) = acc
           /\ match last_logoot with
              | Some p => LogootPosition.cmp p (logoot_start (node m nd)) <> Gt
              | None => True
              end
           /\ 1 <= length (node m nd)
           /\ (forall cfl, cfl ∈ bst m -> cfl <> nd ->
                 set_has (conflict_with (node m nd)) cfl
                 = reaches (node m cfl) (node m nd)) in
  (P /\ selfTest_node m nd (acc, last_logoot)
        = Ok (ldoc_end (node m nd), Some (logoot_start (node m nd))))
  \/ (~ P /\ selfTest_node m nd (acc, last_logoot) = Throw Fatal).
Proof.
  intros P. subst P. unfold selfTest_node; cbn [fst snd].
  destruct (Z.eqb_spec (ldoc_start (node m nd)) acc) as [Hacc|Hacc]; cbn [negb];
    [|right; split; [tauto|done]].
  assert (Hord : (match last_logoot with
                  | Some p => match LogootPosition.cmp p (logoot_start (node m nd)) with
                              | Gt => true | _ => false end
                  | None => false end) = false
                 <-> match last_logoot with
                     | Some p => LogootPosition.cmp p (logoot_start (node m nd)) <> Gt
                     | None => True end).
  { destruct last_logoot as [p|]; [|done].
    by destruct (LogootPosition.cmp p (logoot_start (node m nd))). }
  destruct (match last_logoot with
            | Some p => match LogootPosition.cmp p (logoot_start (node m nd)) with
                        | Gt => true | _ => false end
            | None => false end).
  { right. split; [|done]. intros (_ & Hbad & _). apply Hord in Hbad. done. }
  destruct (Z.ltb_spec (length (node m nd)) 1) as [Hlen|Hlen].
  { right. split; [|done]. intros (_ & _ & Hl & _). lia. }
  destruct (forallb (selfTest_conflict m nd) (bst m)) eqn:Hcf; cbn [negb].
  - left. split; [|done]. split; [done|]. split; [by apply Hord|]. split; [lia|].
    rewrite forallb_forall in Hcf. intros cfl Hcfl Hne.
    destruct (proj1 (selfTest_conflict_spec m nd cfl)
                (Hcf cfl (proj1 (list_elem_of_In _ _) Hcfl))); done.
  - right. split; [|done]. intros (_ & _ & _ & Hc).
    apply Bool.not_true_iff_false in Hcf. apply Hcf.
    apply forallb_forall. intros cfl Hcfl%list_elem_of_In.
    apply selfTest_conflict_spec.
    destruct (decide (cfl = nd)); [by left|right]. by apply Hc.
Qed.

Lemma selfTest_loop_spec m l :
  forall acc last_logoot,
  (exists s, forEachM (selfTest_node m) l (acc, last_logoot) = Ok s)
  <-> tiles acc (node m <$> l)
      /\ ordered last_logoot (node m <$> l)
      /\ (forall nd, nd ∈ l -> 1 <= length (node m nd))
      /\ (forall nd cfl, nd ∈ l -> cfl ∈ bst m -> cfl <> nd ->
            set_has (conflict_with (node m nd)) cfl = reaches (node m cfl) (node m nd)).
Proof.
  induction l as [|nd l IH]; intros acc last_logoot.
  - cbn. split; [|by eexists]. intros _.
    split; [done|]. split; [done|].
    split; [by intros ? ?%elem_of_nil|by intros ? ? ?%elem_of_nil].
  - cbn [forEachM fmap list_fmap tiles ordered].
    destruct (selfTest_node_spec m nd acc last_logoot)
      as [[(Hacc & Hord & Hlen & Hcf) ->]|[Hnot ->]]; cbn [mbind result_bind].
    + rewrite IH. split.
      * intros (Ht & Ho & Hl & Hc).
        split; [done|]. split; [done|]. split.
        -- intros x [->|Hx]%elem_of_cons; [lia|by apply Hl].
        -- intros x cfl [->|Hx]%elem_of_cons Hcfl Hne; [by apply Hcf|by apply Hc].
      * intros ([_ Ht] & [_ Ho] & Hl & Hc).
        split; [done|]. split; [done|]. split.
        -- intros x Hx. apply Hl. by apply elem_of_cons; right.
        -- intros x cfl Hx. apply Hc. by apply elem_of_cons; right.
    + split; [by intros [s ?]|]. intros ([Hacc _] & [Hord _] & Hl & Hc).
      exfalso. apply Hnot. split; [done|]. split; [done|]. split.
      * apply Hl. by apply elem_of_cons; left.
      * intros cfl. apply Hc. by apply elem_of_cons; left.
Qed.

(** X5: [selfTest] returns normally exactly when, along the in-order
    traversal, the local offsets tile the document from 0 on, no
    [logoot_start] is greater than the one after it, every node has a
    length of at least 1, and every node holds in its [conflict_with]
    exactly the other nodes of the tree that reach it by the anchor rule;
    the error that it raises otherwise is a [FatalError]. *)
Theorem selfTest_spec (m : ListDocumentModel) :
  (selfTest m = Ok ()
   <-> tiled m
       /\ ordered None (node m <$> bst m)
       /\ (forall nd, nd ∈ bst m -> 1 <= length (node m nd))
       /\ conflicts_exact m)
  /\ (forall e, selfTest m = Throw e -> e = Fatal).
Proof.
  unfold selfTest, tiled, conflicts_exact. split.
  - rewrite <- selfTest_loop_spec. split.
    + destruct (forEachM (selfTest_node m) (bst m) (0, None)) as [s|]; [by eexists|done].
    + by intros [s ->].
  - intros e.
    assert (Hloop : forall l s, forEachM (selfTest_node m) l s = Throw e -> e = Fatal).
    { induction l as [|nd l IH]; intros s; cbn; [done|].
      destruct (selfTest_node m nd s) as [s'|e'] eqn:Hstep; cbn; [apply IH|].
      intros [= <-]. by apply selfTest_node_throws in Hstep. }
    destruct (forEachM (selfTest_node m) (bst m) (0, None)) eqn:Hrun; cbn; [done|].
    intros [= <-]. by apply Hloop in Hrun.
Qed.

(** ** The passes of [patchRemovalAnchors] *)

Lemma node_update i f m j :
  node (update i f m) j =
    if decide (i = j /\ (i < List.length (nodes m))%nat) then f (node m i) else node m j.
Proof. unfold node, update; cbn. apply list_lookup_total_alter. Qed.

Lemma set_has_add_mono s y x : set_has s x = true -> set_has (set_add s y) x = true.
Proof.
  unfold set_add. destruct (set_has s y); [done|].
  unfold set_has. rewrite existsb_app. intros Hx. apply orb_true_iff. by left.
Qed.

Lemma patch_frame_refl bw n : patch_frame bw n n.
Proof. unfold patch_frame. by destruct bw. Qed.

Lemma patch_frame_trans bw n1 n2 n3 :
  patch_frame bw n1 n2 -> patch_frame bw n2 n3 -> patch_frame bw n1 n3.
Proof.
  unfold patch_frame. intros (?&?&?&?&?&Ha&Hc&Hs) (?&?&?&?&?&Ha'&Hc'&Hs').
  repeat (split; [congruence|]). split; [destruct bw; congruence|]. split; auto.
Qed.

Lemma update_patch_frame bw i f m :
  (forall n, patch_frame bw n (f n)) ->
  forall id, patch_frame bw (node m id) (node (update i f m) id).
Proof.
  intros Hf id. rewrite node_update. case_decide as Hi; [|apply patch_frame_refl].
  destruct Hi as [-> _]. apply Hf.
Qed.

Lemma conflict_add_patch_frame bw x n : patch_frame bw n (conflict_add x n).
Proof.
  unfold patch_frame, conflict_add, sees_infinity, true_left, true_right; cbn.
  repeat (split; [done|]). split; [by destruct bw|]. split; [|done].
  intros y. apply set_has_add_mono.
Qed.

Lemma patchRemovalAnchors_scan_frame bw cur snode m scan :
  sees_infinity bw (node m snode) = false ->
  exists m' scan',
    patchRemovalAnchors_scan bw cur snode (m, scan) = Ok (m', scan')
    /\ bst m' = bst m
    /\ List.length (nodes m') = List.length (nodes m)
    /\ (forall id, patch_frame bw (node m id) (node m' id))
    /\ (forall x, x ∈ scan' -> x ∈ scan).
Proof.
  intros Hanch. unfold patchRemovalAnchors_scan, sees_infinity in *.
  assert (Hdel : forall x, x ∈ set_delete scan snode -> x ∈ scan).
  { intros x. unfold set_delete. by intros [_ ?]%list_elem_of_filter. }
  destruct bw.
  - destruct (true_left (node m snode)) as [|apos]; [done|].
    destruct (LogootPosition.gt apos (logoot_end (node m cur))).
    { eexists _, _. split; [reflexivity|]. do 2 (split; [done|]).
      split; [intros; apply patch_frame_refl|exact Hdel]. }
    eexists _, _. split; [reflexivity|]. split; [by destruct (LogootPosition.gt _ _)|].
    split.
    { rewrite nodes_update_length. destruct (LogootPosition.gt _ _); [|done].
      apply nodes_update_length. }
    split; [|done]. intros id.
    eapply patch_frame_trans; [|apply update_patch_frame, conflict_add_patch_frame].
    destruct (LogootPosition.gt _ _); [|apply patch_frame_refl].
    apply update_patch_frame. intros n.
    unfold patch_frame, sees_infinity, true_left; cbn. repeat (split; [done|]). done.
  - destruct (true_right (node m snode)) as [|apos]; [done|].
    destruct (LogootPosition.lt apos (logoot_start (node m cur))).
    { eexists _, _. split; [reflexivity|]. do 2 (split; [done|]).
      split; [intros; apply patch_frame_refl|exact Hdel]. }
    eexists _, _. split; [reflexivity|]. split; [by destruct (LogootPosition.lt _ _)|].
    split.
    { rewrite nodes_update_length. destruct (LogootPosition.lt _ _); [|done].
      apply nodes_update_length. }
    split; [|done]. intros id.
    eapply patch_frame_trans; [|apply update_patch_frame, conflict_add_patch_frame].
    destruct (LogootPosition.lt _ _); [|apply patch_frame_refl].
    apply update_patch_frame. intros n.
    unfold patch_frame, sees_infinity, true_right; cbn. repeat (split; [done|]). done.
Qed.

Lemma patchRemovalAnchors_scan_loop bw cur l :
  forall m scan,
  (forall s, s ∈ l -> sees_infinity bw (node m s) = false) ->
  exists m' scan',
    forEachM (patchRemovalAnchors_scan bw cur) l (m, scan) = Ok (m', scan')
    /\ bst m' = bst m
    /\ List.length (nodes m') = List.length (nodes m)
    /\ (forall id, patch_frame bw (node m id) (node m' id))
    /\ (forall x, x ∈ scan' -> x ∈ scan).
Proof.
  induction l as [|snode l IH]; intros m scan Hanch; cbn [forEachM].
  - exists m, scan. split; [done|]. do 2 (split; [done|]).
    split; [intros; apply patch_frame_refl|done].
  - destruct (patchRemovalAnchors_scan_frame bw cur snode m scan)
      as (m1 & scan1 & -> & Hb1 & Hl1 & Hf1 & Hs1);
      [apply Hanch; by apply elem_of_cons; left|].
    cbn [mbind result_bind].
    destruct (IH m1 scan1) as (m' & scan' & -> & Hb & Hl & Hf & Hs).
    { intros s Hs. destruct (Hf1 s) as (_&_&_&_&_&_&_&Hk). apply Hk, Hanch.
      by apply elem_of_cons; right. }
    exists m', scan'. split; [done|]. split; [congruence|]. split; [congruence|].
    split; [|auto]. intros id. eapply patch_frame_trans; [apply Hf1|apply Hf].
Qed.

Lemma patchRemovalAnchors_node_frame bw nd m scan :
  (forall s, s ∈ scan -> sees_infinity bw (node m s) = false) ->
  exists m' scan',
    patchRemovalAnchors_node bw nd (m, scan) = Ok (m', scan')
    /\ bst m' = bst m
    /\ List.length (nodes m') = List.length (nodes m)
    /\ (forall id, patch_frame bw (node m id) (node m' id))
    /\ (forall s, s ∈ scan' -> sees_infinity bw (node m' s) = false).
Proof.
  intros Hanch. unfold patchRemovalAnchors_node.
  destruct (NodeType_eqb (type (node m nd)) DATA).
  - eexists _, _. split; [reflexivity|]. do 2 (split; [done|]).
    split; [intros; apply patch_frame_refl|].
    by intros s [? _]%list_elem_of_filter.
  - destruct (patchRemovalAnchors_scan_loop bw nd scan m scan Hanch)
      as (m' & scan' & -> & Hb & Hl & Hf & Hs).
    exists m', scan'. split; [done|]. do 3 (split; [done|]).
    intros s Hin. destruct (Hf s) as (_&_&_&_&_&_&_&Hk). by apply Hk, Hanch, Hs.
Qed.

Lemma patchRemovalAnchors_loop_frame bw l :
  forall m scan,
  (forall s, s ∈ scan -> sees_infinity bw (node m s) = false) ->
  exists s',
    forEachM (patchRemovalAnchors_node bw) l (m, scan) = Ok s'
    /\ bst s'.1 = bst m
    /\ List.length (nodes s'.1) = List.length (nodes m)
    /\ (forall id, patch_frame bw (node m id) (node s'.1 id)).
Proof.
  induction l as [|nd l IH]; intros m scan Hanch; cbn [forEachM].
  - exists (m, scan). split; [done|]. do 2 (split; [done|]).
    intros; apply patch_frame_refl.
  - destruct (patchRemovalAnchors_node_frame bw nd m scan Hanch)
      as (m1 & scan1 & -> & Hb1 & Hl1 & Hf1 & Hs1).
    cbn [mbind result_bind].
    destruct (IH m1 scan1 Hs1) as (s' & -> & Hb & Hl & Hf).
    exists s'. split; [done|]. split; [congruence|]. split; [congruence|].
    intros id. eapply patch_frame_trans; [apply Hf1|apply Hf].
Qed.

(** X6: [patchRemovalAnchors] returns normally on every range and every
    state of the nodes, forwards and backwards.  The scan set only ever
    holds nodes whose anchor on the scanned side is a position, so the
    cast of [true_right] (of [true_left] backwards) to a position never
    meets [DocEnd] (or [DocStart]). *)
Theorem patchRemovalAnchors_returns (range : list NodeId) (backwards : bool)
  (m : ListDocumentModel) :
  exists m', patchRemovalAnchors range backwards m = Ok m'.
Proof.
  unfold patchRemovalAnchors.
  destruct (patchRemovalAnchors_loop_frame backwards
              (if backwards then rev range else range) m [])
    as (s' & -> & _); [by intros s ?%elem_of_nil|].
  by eexists.
Qed.

(** X7: a pass of [patchRemovalAnchors] keeps the tree and, of every node,
    the run, the type, the clock and the local offset; the forward pass
    keeps every left anchor and the backward pass every right anchor; and
    no node loses a member of its [conflict_with]. *)
Theorem patchRemovalAnchors_keeps (range : list NodeId) (backwards : bool)
  (m m' : ListDocumentModel) :
  patchRemovalAnchors range backwards m = Ok m' ->
  bst m' = bst m
  /\ List.length (nodes m') = List.length (nodes m)
  /\ forall id, patch_frame backwards (node m id) (node m' id).
Proof.
  unfold patchRemovalAnchors.
  destruct (patchRemovalAnchors_loop_frame backwards
              (if backwards then rev range else range) m [])
    as (s' & -> & Hb & Hl & Hf); [by intros s ?%elem_of_nil|].
  cbn. by intros [= <-].
Qed.

Lemma patchRemovalAnchors_keeps_witness :
  exists m', patchRemovalAnchors [0%nat; 1%nat] false patch_doc = Ok m'
    /\ bst m' = [0%nat; 1%nat]
    /\ type (node m' 1%nat) = REMOVAL
    /\ left_anchor (node m' 1%nat) = LeftAt [(3, 0%nat)].
Proof.
  eexists. split; [vm_compute; reflexivity|].
  destruct (patchRemovalAnchors_keeps [0%nat; 1%nat] false patch_doc _ eq_refl)
    as (Hb & _ & Hf).
  split; [exact Hb|]. destruct (Hf 1%nat) as (_ & _ & Ht & _ & _ & Hl & _).
  split; [exact Ht|exact Hl].
Defined.

(** X8: in the backward pass of [patchRemovalAnchors] at a node [cur] that
    is not a [DATA] node, a scan-set node [snode] with the anchor position
    [apos = snode.true_left] is handled as follows.  When
    [apos > cur.logoot_end], [snode] leaves the scan set and nothing else
    changes; otherwise the scan set stays, [snode] is added to
    [cur.conflict_with], and [snode.left_anchor] becomes
    [cur.logoot_start] when [apos > cur.logoot_start] and is unchanged
    otherwise; the right anchor of [snode] and every other node stay as
    they were. *)
Theorem patchRemovalAnchors_backward_scan (m : ListDocumentModel)
  (scan_nodes : list NodeId) (cur snode : NodeId) (apos : LogootPosition.t) :
  (cur < List.length (nodes m))%nat ->
  (snode < List.length (nodes m))%nat ->
  type (node m cur) <> DATA ->
  true_left (node m snode) = LeftAt apos ->
  patchRemovalAnchors_node true cur (m, scan_nodes)
    = forEachM (patchRemovalAnchors_scan true cur) scan_nodes (m, scan_nodes)
  /\ (LogootPosition.gt apos (logoot_end (node m cur)) = true ->
      patchRemovalAnchors_scan true cur snode (m, scan_nodes)
        = Ok (m, set_delete scan_nodes snode))
  /\ (LogootPosition.gt apos (logoot_end (node m cur)) = false ->
      exists m',
        patchRemovalAnchors_scan true cur snode (m, scan_nodes) = Ok (m', scan_nodes)
        /\ set_has (conflict_with (node m' cur)) snode = true
        /\ left_anchor (node m' snode) =
             (if LogootPosition.gt apos (logoot_start (node m cur))
              then LeftAt (logoot_start (node m cur))
              else left_anchor (node m snode))
        /\ right_anchor (node m' snode) = right_anchor (node m snode)
        /\ forall i, i <> cur -> i <> snode -> node m' i = node m i).
Proof.
  intros Hcur Hsnode Hty Hleft. split; [|split].
  - unfold patchRemovalAnchors_node.
    destruct (type (node m cur)); [done|done..].
  - intros Hgt. unfold patchRemovalAnchors_scan. by rewrite Hleft, Hgt.
  - intros Hgt. unfold patchRemovalAnchors_scan. rewrite Hleft, Hgt.
    set (m1 := if LogootPosition.gt apos (logoot_start (node m cur))
               then update snode (set_left_anchor (LeftAt (logoot_start (node m cur)))) m
               else m).
    assert (Hlen : List.length (nodes m1) = List.length (nodes m)).
    { unfold m1. destruct (LogootPosition.gt apos (logoot_start _));
        [apply nodes_update_length|done]. }
    assert (Hs1 : left_anchor (node m1 snode) =
                    (if LogootPosition.gt apos (logoot_start (node m cur))
                     then LeftAt (logoot_start (node m cur))
                     else left_anchor (node m snode))
                  /\ right_anchor (node m1 snode) = right_anchor (node m snode)).
    { unfold m1. destruct (LogootPosition.gt apos (logoot_start _)); [|done].
      by rewrite node_update_eq. }
    assert (Hother1 : forall i, i <> snode -> node m1 i = node m i).
    { intros i Hi. unfold m1. destruct (LogootPosition.gt apos (logoot_start _)); [|done].
      by rewrite node_update_ne. }
    exists (update cur (conflict_add snode) m1). split; [done|].
    split; [|split; [|split]].
    + rewrite node_update_eq by lia. cbn. apply set_has_add.
    + destruct (decide (cur = snode)) as [->|Hne].
      * rewrite node_update_eq by lia. cbn. apply Hs1.
      * rewrite node_update_ne by done. apply Hs1.
    + destruct (decide (cur = snode)) as [->|Hne].
      * rewrite node_update_eq by lia. cbn. apply Hs1.
      * rewrite node_update_ne by done. apply Hs1.
    + intros i Hc Hs. rewrite node_update_ne by done. by apply Hother1.
Qed.

Lemma patchRemovalAnchors_backward_scan_witness :
  exists m',
    patchRemovalAnchors_scan true 0%nat 1%nat (patch_back_doc, [1%nat]) = Ok (m', [1%nat])
    /\ set_has (conflict_with (node m' 0%nat)) 1%nat = true
    /\ left_anchor (node m' 1%nat) = LeftAt [(1, 0%nat)].
Proof.
  destruct (patchRemovalAnchors_backward_scan patch_back_doc [1%nat] 0%nat 1%nat
              [(2, 0%nat)])
    as (_ & _ & Hstay); [cbn; lia|cbn; lia|discriminate|reflexivity|].
  destruct (Hstay eq_refl) as (m' & Hrun & Hadd & Hl & _).
  exists m'. split; [exact Hrun|]. split; [exact Hadd|exact Hl].
Defined.

(** ** The passes of [patchNewRemovalAnchors] *)

Lemma set_has_delete s y x : set_has (set_delete s y) x = true -> set_has s x = true.
Proof.
  unfold set_has, set_delete. rewrite !existsb_exists.
  intros (z & Hz & Hx). exists z. split; [|done].
  apply list_elem_of_In in Hz. apply list_elem_of_In.
  by apply list_elem_of_filter in Hz as [_ ?].
Qed.

Lemma removal_frame_refl n : removal_frame n n.
Proof. unfold removal_frame. auto 10. Qed.

Lemma removal_frame_trans n1 n2 n3 :
  removal_frame n1 n2 -> removal_frame n2 n3 -> removal_frame n1 n3.
Proof.
  unfold removal_frame. intros (?&?&Ht&?&?&Hd&Hc) (?&?&?&?&?&Hd'&Hc').
  repeat (split; [congruence|]). split; [|auto].
  intros Hdata. rewrite <- (Hd Hdata). apply Hd'. congruence.
Qed.

Lemma update_removal_frame i f m :
  type (node m i) <> DATA ->
  (forall n, logoot_start (f n) = logoot_start n /\ length (f n) = length n
             /\ type (f n) = type n /\ clk (f n) = clk n /\ value (f n) = value n
             /\ (forall x, set_has (conflict_with (f n)) x = true ->
                           set_has (conflict_with n) x = true)) ->
  forall id, removal_frame (node m id) (node (update i f m) id).
Proof.
  intros Hty Hf id. rewrite node_update. case_decide as Hi; [|apply removal_frame_refl].
  destruct Hi as [-> _]. destruct (Hf (node m id)) as (?&?&?&?&?&?).
  unfold removal_frame. by repeat (split; [done|]).
Qed.

Lemma reduceLeft_fields pos n :
  logoot_start (reduceLeft pos n) = logoot_start n
  /\ length (reduceLeft pos n) = length n
  /\ type (reduceLeft pos n) = type n /\ clk (reduceLeft pos n) = clk n
  /\ value (reduceLeft pos n) = value n
  /\ conflict_with (reduceLeft pos n) = conflict_with n
  /\ right_anchor (reduceLeft pos n) = right_anchor n
  /\ exists p, left_anchor (reduceLeft pos n) = LeftAt p.
Proof.
  unfold reduceLeft. destruct (left_anchor n) as [|a] eqn:Ha; cbn.
  - repeat (split; [done|]). by eexists.
  - destruct (LogootPosition.gt pos a); cbn; repeat (split; [done|]); by eexists.
Qed.

Lemma reduceRight_fields pos n :
  logoot_start (reduceRight pos n) = logoot_start n
  /\ length (reduceRight pos n) = length n
  /\ type (reduceRight pos n) = type n /\ clk (reduceRight pos n) = clk n
  /\ value (reduceRight pos n) = value n
  /\ conflict_with (reduceRight pos n) = conflict_with n
  /\ left_anchor (reduceRight pos n) = left_anchor n
  /\ exists p, right_anchor (reduceRight pos n) = RightAt p.
Proof.
  unfold reduceRight. destruct (right_anchor n) as [|a] eqn:Ha; cbn.
  - repeat (split; [done|]). by eexists.
  - destruct (LogootPosition.lt pos a); cbn; repeat (split; [done|]); by eexists.
Qed.

Lemma fixConflicts_frame (bw : bool) nd rm_nodes :
  forall m,
  (forall c, c ∈ rm_nodes -> type (node m c) <> DATA) ->
  (if bw then exists p, true_right (node m nd) = RightAt p
   else exists p, true_left (node m nd) = LeftAt p) ->
  exists m', fixConflicts bw nd rm_nodes m = Ok m'
    /\ bst m' = bst m
    /\ List.length (nodes m') = List.length (nodes m)
    /\ (forall id, removal_frame (node m id) (node m' id)).
Proof.
  induction rm_nodes as [|cnode rest IH]; intros m Hrm Hanch; cbn [fixConflicts].
  - exists m. do 3 (split; [done|]). intros; apply removal_frame_refl.
  - destruct (set_has (conflict_with (node m cnode)) nd); cbn [negb].
    2:{ exists m. do 3 (split; [done|]). intros; apply removal_frame_refl. }
    assert (Hc : type (node m cnode) <> DATA) by (apply Hrm; by apply elem_of_cons; left).
    assert (Hstep : forall c : bool,
              let m1 := if c then update cnode (conflict_delete nd) m else m in
              bst m1 = bst m /\ List.length (nodes m1) = List.length (nodes m)
              /\ (forall id, removal_frame (node m id) (node m1 id))
              /\ (forall id, true_left (node m1 id) = true_left (node m id)
                             /\ true_right (node m1 id) = true_right (node m id))).
    { intros [|]; cbn.
      - split; [done|]. split; [apply nodes_update_length|]. split.
        + apply update_removal_frame; [done|]. intros n. cbn.
          repeat (split; [done|]). intros x. apply set_has_delete.
        + intros id. rewrite node_update. case_decide as Hi; [|done].
          by destruct Hi as [-> _].
      - do 2 (split; [done|]). split; [intros; apply removal_frame_refl|done]. }
    destruct bw.
    + destruct Hanch as [r Hr]. rewrite Hr.
      destruct (Hstep (LogootPosition.gteq (logoot_start (node m cnode)) r))
        as (Hb1 & Hl1 & Hf1 & Ha1).
      match goal with |- context [fixConflicts _ _ _ ?x] => set (m1 := x) in * end.
      destruct (IH m1) as (m' & -> & Hb & Hl & Hf).
      { intros c Hin. destruct (Hf1 c) as (_&_&Ht&_). rewrite Ht.
        apply Hrm. by apply elem_of_cons; right. }
      { exists r. by rewrite (proj2 (Ha1 nd)). }
      exists m'. split; [done|]. split; [congruence|]. split; [congruence|].
      intros id. eapply removal_frame_trans; [apply Hf1|apply Hf].
    + destruct Hanch as [l Hl']. rewrite Hl'.
      destruct (Hstep (LogootPosition.lteq (logoot_end (node m cnode)) l))
        as (Hb1 & Hl1 & Hf1 & Ha1).
      match goal with |- context [fixConflicts _ _ _ ?x] => set (m1 := x) in * end.
      destruct (IH m1) as (m' & -> & Hb & Hl & Hf).
      { intros c Hin. destruct (Hf1 c) as (_&_&Ht&_). rewrite Ht.
        apply Hrm. by apply elem_of_cons; right. }
      { exists l. by rewrite (proj1 (Ha1 nd)). }
      exists m'. split; [done|]. split; [congruence|]. split; [congruence|].
      intros id. eapply removal_frame_trans; [apply Hf1|apply Hf].
Qed.

Lemma patchNewRemovalAnchors_scan_frame (bw : bool) nd rm_nodes snode m :
  (nd < List.length (nodes m))%nat ->
  type (node m nd) <> DATA ->
  (forall c, c ∈ rm_nodes -> type (node m c) <> DATA) ->
  exists m', patchNewRemovalAnchors_scan bw nd rm_nodes snode m = Ok m'
    /\ bst m' = bst m
    /\ List.length (nodes m') = List.length (nodes m)
    /\ (forall id, removal_frame (node m id) (node m' id)).
Proof.
  intros Hnd Hty Hrm.
  assert (Hsame : exists m', Ok m = Ok m' /\ bst m' = bst m
            /\ List.length (nodes m') = List.length (nodes m)
            /\ (forall id, removal_frame (node m id) (node m' id))).
  { exists m. do 3 (split; [done|]). intros; apply removal_frame_refl. }
  assert (Hred : forall f,
            (forall n, logoot_start (f n) = logoot_start n /\ length (f n) = length n
                       /\ type (f n) = type n /\ clk (f n) = clk n /\ value (f n) = value n
                       /\ conflict_with (f n) = conflict_with n) ->
            (if bw then forall n, exists p, true_right (f n) = RightAt p
             else forall n, exists p, true_left (f n) = LeftAt p) ->
            exists m', fixConflicts bw nd rm_nodes (update nd f m) = Ok m'
              /\ bst m' = bst m
              /\ List.length (nodes m') = List.length (nodes m)
              /\ (forall id, removal_frame (node m id) (node m' id))).
  { intros f Hf Hanch.
    assert (Hf1 : forall id, removal_frame (node m id) (node (update nd f m) id)).
    { apply update_removal_frame; [done|]. intros n.
      destruct (Hf n) as (?&?&?&?&?&Hc). repeat (split; [done|]). by rewrite Hc. }
    destruct (fixConflicts_frame bw nd rm_nodes (update nd f m))
      as (m' & -> & Hb & Hl & Hf2).
    - intros c Hin. destruct (Hf1 c) as (_&_&Ht&_). rewrite Ht. by apply Hrm.
    - rewrite node_update_eq by done. destruct bw; apply Hanch.
    - exists m'. split; [done|]. split; [done|].
      split; [by rewrite Hl, nodes_update_length|].
      intros id. eapply removal_frame_trans; [apply Hf1|apply Hf2]. }
  unfold patchNewRemovalAnchors_scan. destruct bw.
  - destruct (true_left (node m snode)) as [|l]; [done|].
    destruct (LogootPosition.eq l (logoot_end (node m nd))); [|done].
    apply Hred.
    + intros n. destruct (reduceRight_fields (logoot_start (node m snode)) n)
        as (?&?&?&?&?&?&_). done.
    + intros n. by destruct (reduceRight_fields (logoot_start (node m snode)) n)
        as (_&_&_&_&_&_&_&?).
  - destruct (true_right (node m snode)) as [|r]; [done|].
    destruct (LogootPosition.eq r (logoot_start (node m nd))); [|done].
    apply Hred.
    + intros n. destruct (reduceLeft_fields (logoot_end (node m snode)) n)
        as (?&?&?&?&?&?&_). done.
    + intros n. by destruct (reduceLeft_fields (logoot_end (node m snode)) n)
        as (_&_&_&_&_&_&_&?).
Qed.

Lemma patchNewRemovalAnchors_scan_loop (bw : bool) nd rm_nodes scan :
  forall m,
  (nd < List.length (nodes m))%nat ->
  type (node m nd) <> DATA ->
  (forall c, c ∈ rm_nodes -> type (node m c) <> DATA) ->
  exists m', forEachM (patchNewRemovalAnchors_scan bw nd rm_nodes) scan m = Ok m'
    /\ bst m' = bst m
    /\ List.length (nodes m') = List.length (nodes m)
    /\ (forall id, removal_frame (node m id) (node m' id)).
Proof.
  induction scan as [|snode scan IH]; intros m Hnd Hty Hrm; cbn [forEachM].
  - exists m. do 3 (split; [done|]). intros; apply removal_frame_refl.
  - destruct (patchNewRemovalAnchors_scan_frame bw nd rm_nodes snode m Hnd Hty Hrm)
      as (m1 & -> & Hb1 & Hl1 & Hf1).
    cbn [mbind result_bind].
    destruct (IH m1) as (m' & -> & Hb & Hl & Hf).
    + by rewrite Hl1.
    + destruct (Hf1 nd) as (_&_&Ht&_). by rewrite Ht.
    + intros c Hin. destruct (Hf1 c) as (_&_&Ht&_). rewrite Ht. by apply Hrm.
    + exists m'. split; [done|]. split; [congruence|]. split; [congruence|].
      intros id. eapply removal_frame_trans; [apply Hf1|apply Hf].
Qed.

Lemma patchNewRemovalAnchors_node_frame (bw : bool) nd m scan rm_nodes :
  (nd < List.length (nodes m))%nat ->
  (forall c, c ∈ rm_nodes -> type (node m c) <> DATA) ->
  exists m' scan' rm_nodes',
    patchNewRemovalAnchors_node bw nd (m, scan, rm_nodes) = Ok (m', scan', rm_nodes')
    /\ bst m' = bst m
    /\ List.length (nodes m') = List.length (nodes m)
    /\ (forall id, removal_frame (node m id) (node m' id))
    /\ (forall c, c ∈ rm_nodes' -> type (node m' c) <> DATA).
Proof.
  intros Hnd Hrm. unfold patchNewRemovalAnchors_node.
  destruct (NodeType_eqb (type (node m nd)) DATA) eqn:Hty; cbn [mbind result_bind].
  - eexists _, _, _. split; [reflexivity|]. do 2 (split; [done|]).
    split; [intros; apply removal_frame_refl|by intros c ?%elem_of_nil].
  - assert (Hty' : type (node m nd) <> DATA) by (intros Heq; by rewrite Heq in Hty).
    destruct (patchNewRemovalAnchors_scan_loop bw nd rm_nodes scan m Hnd Hty' Hrm)
      as (m1 & -> & Hb1 & Hl1 & Hf1).
    cbn [mbind result_bind].
    eexists _, _, _. split; [reflexivity|]. do 3 (split; [done|]).
    assert (Hk : forall c, c = nd \/ c ∈ rm_nodes -> type (node m1 c) <> DATA).
    { intros c Hc. destruct (Hf1 c) as (_&_&Ht&_). rewrite Ht.
      destruct Hc as [->|Hc]; [done|by apply Hrm]. }
    intros c Hc. apply Hk. destruct bw.
    + apply elem_of_app in Hc as [?|?%list_elem_of_singleton]; auto.
    + apply elem_of_cons in Hc as [?|?]; auto.
Qed.

Lemma patchNewRemovalAnchors_loop_frame (bw : bool) range :
  forall m scan rm_nodes,
  (forall id, id ∈ range -> (id < List.length (nodes m))%nat) ->
  (forall c, c ∈ rm_nodes -> type (node m c) <> DATA) ->
  exists s', forEachM (patchNewRemovalAnchors_node bw) range (m, scan, rm_nodes) = Ok s'
    /\ bst s'.1.1 = bst m
    /\ List.length (nodes s'.1.1) = List.length (nodes m)
    /\ (forall id, removal_frame (node m id) (node s'.1.1 id)).
Proof.
  induction range as [|nd range IH]; intros m scan rm_nodes Hvalid Hrm; cbn [forEachM].
  - eexists. split; [reflexivity|]. do 2 (split; [done|]).
    intros; apply removal_frame_refl.
  - destruct (patchNewRemovalAnchors_node_frame bw nd m scan rm_nodes)
      as (m1 & scan1 & rm1 & -> & Hb1 & Hl1 & Hf1 & Hrm1);
      [apply Hvalid; by apply elem_of_cons; left|done|].
    cbn [mbind result_bind].
    destruct (IH m1 scan1 rm1) as (s' & -> & Hb & Hl & Hf); [|done|].
    + intros id Hid. rewrite Hl1. apply Hvalid. by apply elem_of_cons; right.
    + exists s'. split; [done|]. split; [congruence|]. split; [congruence|].
      intros id. eapply removal_frame_trans; [apply Hf1|apply Hf].
Qed.

(** X9: a pass of [patchNewRemovalAnchors] over nodes of the store returns
    normally, and it keeps the tree, every [DATA] node as it is, and of
    every other node the run, the type, the clock and the local offset; no
    node gains a member of its [conflict_with].  The anchors that the pass
    tightens are those of nodes that are not [DATA] nodes. *)
Theorem patchNewRemovalAnchors_keeps_data (range : list NodeId) (backwards : bool)
  (m : ListDocumentModel) :
  (forall id, id ∈ range -> (id < List.length (nodes m))%nat) ->
  exists m', patchNewRemovalAnchors range backwards m = Ok m'
    /\ bst m' = bst m
    /\ List.length (nodes m') = List.length (nodes m)
    /\ (forall id, removal_frame (node m id) (node m' id)).
Proof.
  intros Hvalid. unfold patchNewRemovalAnchors.
  destruct (patchNewRemovalAnchors_loop_frame backwards
              (if backwards then rev range else range) m [] [])
    as (s' & -> & Hb & Hl & Hf).
  - intros id Hid. apply Hvalid. destruct backwards; [|done].
    by apply list_elem_of_In, in_rev, list_elem_of_In.
  - by intros c ?%elem_of_nil.
  - by exists s'.1.1.
Qed.

Lemma patchNewRemovalAnchors_keeps_data_witness :
  exists m', patchNewRemovalAnchors [0%nat; 1%nat] false patch_doc = Ok m'
    /\ bst m' = [0%nat; 1%nat]
    /\ node m' 0%nat = node patch_doc 0%nat.
Proof.
  destruct (patchNewRemovalAnchors_keeps_data [0%nat; 1%nat] false patch_doc)
    as (m' & Hrun & Hb & _ & Hf).
  - intros id Hid. cbn.
    repeat (apply elem_of_cons in Hid as [->|Hid]); [lia..|by apply elem_of_nil in Hid].
  - exists m'. split; [exact Hrun|]. split; [exact Hb|].
    destruct (Hf 0%nat) as (_&_&_&_&_&Hd&_). by apply Hd.
Defined.

(** ** [constructSkipRanges] *)

Lemma offsetLowest_0 p : LogootPosition.offsetLowest p 0 = p.
Proof.
  induction p as [|[i b] p IH]; [done|].
  destruct p as [|y p]; cbn in *; [by rewrite Z.add_0_r|by rewrite IH].
Qed.

Lemma cmp_refl p : LogootPosition.cmp p p = Eq.
Proof.
  induction p as [|[i b] p IH]; [done|]. cbn.
  by rewrite Z.compare_refl, Nat.compare_refl.
Qed.

Lemma lowestData_spec m l i :
  lowestData m l = Some i -> i ∈ l /\ type (node m i) = DATA.
Proof.
  unfold lowestData. intros Hh.
  assert (Hin : i ∈ filter (fun i => NodeType_eqb (type (node m i)) DATA = true) l).
  { destruct (filter _ l) as [|x rest]; [done|]. injection Hh as ->. by apply elem_of_cons; left. }
  apply list_elem_of_filter in Hin as [Hd Hin]. split; [done|].
  by destruct (type (node m i)).
Qed.

Lemma lt_irrefl p : LogootPosition.lt p p = false.
Proof. unfold LogootPosition.lt. by rewrite cmp_refl. Qed.

(** X10: the [skip_ranges] that [constructSkipRanges] returns is never
    empty, and its last node does not end below [end]: it is the last node
    that the slicing leaves between [start] and [end] when that node
    reaches [end], and otherwise a fresh [DUMMY] node of length 0 at
    [end].  [insertLogoot] reads the type of that last node without a
    test. *)
Theorem constructSkipRanges_last (left : option LogootPosition.t)
  (start end_ : LogootPosition.t) (right : option LogootPosition.t)
  (m : ListDocumentModel) :
  let r := constructSkipRanges left start end_ right m in
  exists i, last (skip_ranges r.1) = Some i
    /\ LogootPosition.lt (logoot_end (node r.2 i)) end_ = false.
Proof.
  unfold constructSkipRanges.
  destruct (sliceNodesIntoRanges _ _ m) as [groups m1].
  cbn zeta.
  destruct left as [l|], right as [r|]; cbn [fst snd];
    (destruct (last (groups !!! 2%nat)) as [i0|] eqn:Hlast;
     [destruct (LogootPosition.lt (logoot_end (node m1 i0)) end_) eqn:Hlt|]);
    unfold alloc; cbn [fst snd skip_ranges].
  all: try (by exists i0).
  all: eexists; (split; [apply last_snoc|]).
  all: match goal with
       | |- context [node ?mm (List.length (nodes ?m0))] =>
           assert (Hd : exists v, node mm (List.length (nodes m0))
                        = set_value v (newNode end_ 0 DUMMY 0))
       end.
  all: try (eexists; unfold node; cbn [nodes];
            rewrite lookup_total_app_r by done; by rewrite Nat.sub_diag).
  all: destruct Hd as [v ->].
  all: unfold logoot_end; cbn; by rewrite offsetLowest_0, lt_irrefl.
Qed.

(** X11: an anchor node that [constructSkipRanges] returns is a [DATA]
    node that touches the inserted run: [anchor_left] is only defined when
    [left] is, and it is then a [DATA] node whose [logoot_end] equals
    [left]; [anchor_right] is only defined when [right] is, and it is then
    a [DATA] node whose [logoot_start] equals [right]. *)
Theorem constructSkipRanges_anchors (left : option LogootPosition.t)
  (start end_ : LogootPosition.t) (right : option LogootPosition.t)
  (m : ListDocumentModel) :
  let r := constructSkipRanges left start end_ right m in
  (forall i, anchor_left r.1 = Some i ->
     exists l, left = Some l /\ type (node r.2 i) = DATA
       /\ LogootPosition.eq (logoot_end (node r.2 i)) l = true)
  /\ (forall i, anchor_right r.1 = Some i ->
        exists p, right = Some p /\ type (node r.2 i) = DATA
          /\ LogootPosition.eq (logoot_start (node r.2 i)) p = true).
Proof.
  unfold constructSkipRanges.
  destruct (sliceNodesIntoRanges _ _ m) as [groups m1].
  cbn zeta.
  destruct left as [l|], right as [r|]; cbn [fst snd];
    (destruct (last (groups !!! 2%nat)) as [i0|] eqn:Hlast;
     [destruct (LogootPosition.lt (logoot_end (node m1 i0)) end_) eqn:Hlt|]);
    unfold alloc; cbn [fst snd anchor_left anchor_right].
  all: split; [|].
  all: try done.
  all: intros i Hi.
  all: match type of Hi with
       | match lowestData ?mm ?arr with _ => _ end = _ =>
           destruct (lowestData mm arr) as [j|] eqn:Hlow; [|done];
           apply lowestData_spec in Hlow as [_ Hty]
       end.
  all: match type of Hi with
       | (if ?c then _ else _) = _ => destruct c eqn:Heq; [|done]
       end.
  all: injection Hi as <-; by eexists.
Qed.

(** ** The operations that [insertLogoot] and [removeLogoot] return *)

Lemma extends_refl b : extends b b.
Proof. split; [done|]. exists []. by rewrite app_nil_r. Qed.

Lemma extends_trans b1 b2 b3 : extends b1 b2 -> extends b2 b3 -> extends b1 b3.
Proof.
  intros [Ha (ops & Ho & Hf)] [Ha' (ops' & Ho' & Hf')]. split; [congruence|].
  exists (ops ++ ops'). split; [by rewrite Ho', Ho, app_assoc|].
  apply Forall_app. split; [done|]. by rewrite <- Ha.
Qed.

Lemma opbuf_insert_extends nd start offset len m b m' b' :
  OperationBuffer.insert nd start offset len (m, b) = Ok (m', b') -> extends b b'.
Proof.
  unfold OperationBuffer.insert; cbn [fst snd].
  destruct (Z.eqb_spec len 0); [intros [= <- <-]; apply extends_refl|].
  destruct (Z.ltb_spec start 0); [done|]. destruct (Z.ltb_spec len 0); [done|].
  destruct (Z.gtb_spec (offset + len) (OperationBuffer.length_avail b)); [done|].
  intros [= <- <-]. split; [done|]. eexists. split; [reflexivity|].
  constructor; [|constructor]. cbn. lia.
Qed.

Lemma opbuf_remove_extends nd start len m b m' b' :
  OperationBuffer.remove nd start len (m, b) = Ok (m', b') -> extends b b'.
Proof.
  unfold OperationBuffer.remove; cbn [fst snd].
  destruct (Z.eqb_spec len 0); [intros [= <- <-]; apply extends_refl|].
  destruct (Z.ltb_spec start 0); [done|]. destruct (Z.ltb_spec len 0); [done|].
  intros [= <- <-]. split; [done|]. eexists. split; [reflexivity|].
  constructor; [|constructor]. cbn. lia.
Qed.

Lemma fillSkipRanges_step_extends start clock ty nd m b p f m' b' p' f' :
  fillSkipRanges_step start clock ty nd (m, b, p, f) = Ok (m', b', p', f') ->
  extends b b'.
Proof.
  unfold fillSkipRanges_step.
  match goal with
  | |- context [if ?c then _ else Ok (m, b, None)] => destruct c
  end.
  - unfold alloc. cbn zeta.
    match goal with
    | |- context [OperationBuffer.insert ?a ?s ?o ?l (?mm, b)] =>
        destruct (OperationBuffer.insert a s o l (mm, b)) as [[m1 b1]|] eqn:Hins; [|done]
    end.
    apply opbuf_insert_extends in Hins. cbn [mbind result_bind fst snd].
    match goal with
    | |- context [if ?c then _ else Ok (m1, b1)] => destruct c
    end; cbn [mbind result_bind].
    + match goal with
      | |- context [OperationBuffer.remove ?a ?s ?l (?mm, b1)] =>
          destruct (OperationBuffer.remove a s l (mm, b1)) as [[m2 b2]|] eqn:Hrm; [|done]
      end.
      apply opbuf_remove_extends in Hrm. cbn [mbind result_bind fst snd].
      match goal with
      | |- context [OperationBuffer.insert ?a ?s ?o ?l (?mm, b2)] =>
          destruct (OperationBuffer.insert a s o l (mm, b2)) as [[m3 b3]|] eqn:Hins2; [|done]
      end.
      apply opbuf_insert_extends in Hins2. cbn [mbind result_bind].
      intros [= <- <- <- <-]. eauto using extends_trans.
    + by intros [= <- <- <- <-].
  - cbn [mbind result_bind].
    match goal with
    | |- context [if ?c then _ else Ok (m, b)] => destruct c
    end; cbn [mbind result_bind].
    + match goal with
      | |- context [OperationBuffer.remove ?a ?s ?l (?mm, b)] =>
          destruct (OperationBuffer.remove a s l (mm, b)) as [[m2 b2]|] eqn:Hrm; [|done]
      end.
      apply opbuf_remove_extends in Hrm. cbn [mbind result_bind fst snd].
      match goal with
      | |- context [OperationBuffer.insert ?a ?s ?o ?l (?mm, b2)] =>
          destruct (OperationBuffer.insert a s o l (mm, b2)) as [[m3 b3]|] eqn:Hins2; [|done]
      end.
      apply opbuf_insert_extends in Hins2. cbn [mbind result_bind].
      intros [= <- <- <- <-]. eauto using extends_trans.
    + intros [= <- <- <- <-]. apply extends_refl.
Qed.

Lemma fillSkipRanges_loop_extends start clock ty sk :
  forall m b p f m' b' p' f',
  forEachM (fillSkipRanges_step start clock ty) sk (m, b, p, f) = Ok (m', b', p', f') ->
  extends b b'.
Proof.
  induction sk as [|nd sk IH]; intros m b p f m' b' p' f'; cbn [forEachM].
  - intros [= <- <- <- <-]. apply extends_refl.
  - destruct (fillSkipRanges_step start clock ty nd (m, b, p, f))
      as [[[[m1 b1] p1] f1]|] eqn:Hstep; [|done].
    cbn [mbind result_bind]. intros Hloop.
    apply fillSkipRanges_step_extends in Hstep. apply IH in Hloop.
    by eapply extends_trans.
Qed.

Lemma fillSkipRanges_extends start clock ty sk m b filled m' b' :
  fillSkipRanges start clock ty sk (m, b) = Ok (filled, (m', b')) -> extends b b'.
Proof.
  unfold fillSkipRanges; cbn [fst snd].
  destruct (forEachM _ sk _) as [[[[m1 b1] p1] f1]|] eqn:Hloop; [|done].
  cbn [mbind result_bind]. intros [= <- <- <-].
  by apply fillSkipRanges_loop_extends in Hloop.
Qed.

(** X12: every operation that [insertLogoot] returns is an [insert] or a
    [remove] of a positive length at a non-negative local offset, and
    every [insert] lies within the inserted data: its offset plus its
    length is at most the length given to [insertLogoot].  No mark
    operation is ever returned. *)
Theorem insertLogoot_operations
  (newBetween : BranchKey -> Z -> option LogootPosition.t -> option LogootPosition.t
                -> LogootPosition.t)
  (br : BranchKey) (left right : option LogootPosition.t) (len clock : Z)
  (m m' : ListDocumentModel) (ops : list Operation) :
  insertLogoot newBetween br left right len clock m = Ok (ops, m') ->
  Forall (op_within len) ops.
Proof.
  unfold insertLogoot, insertLogootAt.
  destruct (constructSkipRanges _ _ _ _ m) as [sr m1].
  match goal with
  | |- context [fillSkipRanges ?s ?c ?t ?k (m1, ?b)] =>
      assert (Hb : OperationBuffer.operations b = []
                   /\ OperationBuffer.length_avail b = len)
        by (destruct (last (skip_ranges sr)); [destruct (NodeType_eqb _ _)|]; done);
      destruct (fillSkipRanges s c t k (m1, b)) as [[filled [m2 b2]]|] eqn:Hfill; [|done]
  end.
  apply fillSkipRanges_extends in Hfill as [_ (ops' & Hops & Hall)].
  destruct Hb as [Hb1 Hb2]. rewrite Hb1 in Hops. rewrite Hb2 in Hall.
  cbn [mbind result_bind].
  repeat match goal with
         | |- context [fillRangeConflicts ?a ?b ?c ?d] =>
             destruct (fillRangeConflicts a b c d)
         end.
  match goal with
  | |- context [patchRemovalAnchors ?r false ?mm] =>
      destruct (patchRemovalAnchors r false mm); [|done]
  end.
  cbn [mbind result_bind].
  match goal with
  | |- context [patchRemovalAnchors ?r true ?mm] =>
      destruct (patchRemovalAnchors r true mm); [|done]
  end.
  cbn [mbind result_bind]. intros [= <- <-]. by rewrite Hops.
Qed.

Lemma insertLogoot_operations_witness :
  exists ops m',
    insertLogoot sample_generator 0%nat None None 3 0 emptyLdm = Ok (ops, m')
    /\ Forall (op_within 3) ops /\ ops = [InsertionOperation 0 0 3].
Proof.
  eexists _, _. split; [vm_compute; reflexivity|].
  split; [|reflexivity].
  eapply (insertLogoot_operations sample_generator 0%nat None None 3 0 emptyLdm).
  vm_compute. reflexivity.
Defined.

Lemma removeLogoot_loop_removals start clock rm_range :
  forall m b m' b',
  forEachM (removeLogoot_step start clock) rm_range (m, b) = Ok (m', b') ->
  exists ops, OperationBuffer.operations b' = OperationBuffer.operations b ++ ops
    /\ Forall is_removal ops.
Proof.
  induction rm_range as [|nd rest IH]; intros m b m' b'; cbn [forEachM].
  - intros [= <- <-]. exists []. by rewrite app_nil_r.
  - destruct (removeLogoot_step start clock nd (m, b)) as [[m1 b1]|] eqn:Hstep; [|done].
    cbn [mbind result_bind]. intros (ops & Hops & Hall)%IH.
    assert (H1 : exists ops1, OperationBuffer.operations b1
                   = OperationBuffer.operations b ++ ops1 /\ Forall is_removal ops1).
    { revert Hstep. unfold removeLogoot_step; cbn [fst snd].
      destruct (removal_applies _ _ _).
      2:{ intros [= <- <-]. exists []. by rewrite app_nil_r. }
      unfold OperationBuffer.remove; cbn [fst snd].
      destruct (Z.eqb_spec (ldoc_length (node m nd)) 0); cbn [mbind result_bind].
      { intros [= <- <-]. exists []. by rewrite app_nil_r. }
      destruct (Z.ltb_spec (ldoc_start (node m nd)) 0); [done|].
      destruct (Z.ltb_spec (ldoc_length (node m nd)) 0); [done|].
      cbn [mbind result_bind fst snd]. intros [= <- <-]. eexists. split; [reflexivity|].
      constructor; [|constructor]. cbn. lia. }
    destruct H1 as (ops1 & Hops1 & Hall1).
    exists (ops1 ++ ops). split; [by rewrite Hops, Hops1, app_assoc|].
    by apply Forall_app.
Qed.

(** X13: every operation that [removeLogoot] returns is a [remove] of a
    positive length at a non-negative local offset: a removal never asks
    the caller to insert or to mark anything. *)
Theorem removeLogoot_operations (start : LogootPosition.t) (len clock : Z)
  (m m' : ListDocumentModel) (ops : list Operation) :
  removeLogoot start len clock m = Ok (ops, m') -> Forall is_removal ops.
Proof.
  unfold removeLogoot.
  destruct (sliceNodesIntoRanges _ _ m) as [groups m1].
  destruct (forEachM _ (groups !!! 1%nat) _) as [[m2 b2]|] eqn:Hloop; [|done].
  apply removeLogoot_loop_removals in Hloop as (ops' & Hops & Hall).
  cbn [mbind result_bind].
  repeat match goal with
         | |- context [mbind _ ?x] =>
             match x with
             | patchNewRemovalAnchors _ _ _ => destruct x; [|done]; cbn [mbind result_bind]
             | patchRemovalAnchors _ _ _ => destruct x; [|done]; cbn [mbind result_bind]
             end
         end.
  intros [= <- <-]. by rewrite Hops.
Qed.

Lemma removeLogoot_operations_witness :
  exists ops m',
    removeLogoot [(0, 0%nat)] 2 1 removal_doc = Ok (ops, m')
    /\ Forall is_removal ops /\ ops = [RemovalOperation 0 2].
Proof.
  eexists _, _. split; [vm_compute; reflexivity|].
  split; [|reflexivity].
  eapply (removeLogoot_operations [(0, 0%nat)] 2 1 removal_doc).
  vm_compute. reflexivity.
Defined.

(** ** Steps that keep the tree, the runs, the types and the clocks *)

Lemma same_kind_refl n : same_kind n n.
Proof. by repeat split. Qed.

Lemma same_kind_trans n1 n2 n3 : same_kind n1 n2 -> same_kind n2 n3 -> same_kind n1 n3.
Proof. unfold same_kind. intros (?&?&?&?) (?&?&?&?). repeat split; congruence. Qed.

Lemma conflict_add_same_kind x n : same_kind n (conflict_add x n).
Proof. by repeat split. Qed.

Lemma conflict_delete_same_kind x n : same_kind n (conflict_delete x n).
Proof. by repeat split. Qed.

Lemma reduceLeft_same_kind pos n : same_kind n (reduceLeft pos n).
Proof. destruct (reduceLeft_fields pos n) as (?&?&?&?&_). by repeat split. Qed.

Lemma reduceRight_same_kind pos n : same_kind n (reduceRight pos n).
Proof. destruct (reduceRight_fields pos n) as (?&?&?&?&_). by repeat split. Qed.

Lemma quiet_refl m : quiet m m.
Proof. split; [done|]. split; [done|]. intros; apply same_kind_refl. Qed.

Lemma quiet_trans m1 m2 m3 : quiet m1 m2 -> quiet m2 m3 -> quiet m1 m3.
Proof.
  intros (Hb & Hl & Hk) (Hb' & Hl' & Hk'). split; [congruence|]. split; [congruence|].
  intros id. eapply same_kind_trans; [apply Hk|apply Hk'].
Qed.

Lemma quiet_update i f m : (forall n, same_kind n (f n)) -> quiet m (update i f m).
Proof.
  intros Hf. split; [done|]. split; [apply nodes_update_length|]. intros id.
  rewrite node_update. case_decide as Hi; [|apply same_kind_refl].
  destruct Hi as [-> _]. apply Hf.
Qed.

Lemma quiet_same_but_value m m' :
  bst m' = bst m -> List.length (nodes m') = List.length (nodes m) ->
  (forall i, same_but_value (node m i) (node m' i)) -> quiet m m'.
Proof.
  intros Hb Hl H. split; [done|]. split; [done|]. intros id.
  destruct (same_but_value_fields _ _ (H id)) as (?&?&?&?&_). by repeat split.
Qed.

Lemma opbuf_insert_quiet nd start offset len m b m' b' :
  OperationBuffer.insert nd start offset len (m, b) = Ok (m', b') -> quiet m m'.
Proof.
  unfold OperationBuffer.insert; cbn [fst snd].
  destruct (len =? 0); [intros [= <- <-]; apply quiet_refl|].
  destruct (start <? 0); [done|]. destruct (len <? 0); [done|].
  destruct (_ >? _); [done|]. intros [= <- <-].
  match goal with
  | |- quiet _ (OperationBuffer.mirror ?a ?b ?c ?d ?e) =>
      destruct (mirror_frame a b c d e) as (? & ? & ?)
  end.
  by apply quiet_same_but_value.
Qed.

Lemma opbuf_remove_quiet nd start len m b m' b' :
  OperationBuffer.remove nd start len (m, b) = Ok (m', b') -> quiet m m'.
Proof.
  intros (? & ? & ? & _)%opbuf_remove_frame. by apply quiet_same_but_value.
Qed.

Lemma forEachM_preserves {A S : Type} (R : S -> S -> Prop) (f : A -> S -> result S) l :
  (forall s, R s s) -> (forall s1 s2 s3, R s1 s2 -> R s2 s3 -> R s1 s3) ->
  (forall x s s', f x s = Ok s' -> R s s') ->
  forall s s', forEachM f l s = Ok s' -> R s s'.
Proof.
  intros Hrefl Htrans Hstep. induction l as [|x l IH]; intros s s'; cbn [forEachM].
  - by intros [= <-].
  - destruct (f x s) as [s1|] eqn:Hx; [|done]. cbn [mbind result_bind].
    intros Hl. eapply Htrans; [by eapply Hstep|by apply IH].
Qed.

Lemma foldl_quiet {A} (f : ListDocumentModel -> A -> ListDocumentModel) l :
  (forall m x, quiet m (f m x)) -> forall m, quiet m (foldl f m l).
Proof.
  intros Hf. induction l as [|x l IH]; intros m; cbn [foldl]; [apply quiet_refl|].
  eapply quiet_trans; [apply Hf|apply IH].
Qed.

Lemma foldr_update_quiet (f : NodeId -> AnchorLogootNode -> AnchorLogootNode) l m :
  (forall c n, same_kind n (f c n)) ->
  quiet m (foldr (fun c m => update c (f c) m) m l).
Proof.
  intros Hf. induction l as [|c l IH]; [apply quiet_refl|]. cbn [foldr].
  eapply quiet_trans; [exact IH|]. apply quiet_update, Hf.
Qed.

Lemma linkFilledSkipRanges_step_quiet alvl nd acc :
  quiet acc.1.1 (linkFilledSkipRanges_step alvl nd acc).1.1.
Proof.
  destruct acc as [[m0 a0] p0]. unfold linkFilledSkipRanges_step.
  destruct a0 as [a|]; [destruct (Nat.eqb (LogootPosition.levels a) alvl)|];
    (destruct p0 as [p|]; [destruct (Nat.eqb _ alvl)|]); cbn [fst snd];
    repeat first
      [ apply quiet_refl
      | eapply quiet_trans;
        [|apply quiet_update;
          first [apply reduceLeft_same_kind|apply reduceRight_same_kind]] ].
Qed.

Lemma linkFilledSkipRanges_quiet left right filled m :
  quiet m (linkFilledSkipRanges left right filled m).
Proof.
  unfold linkFilledSkipRanges.
  match goal with
  | |- context [foldl ?f (m, left, None) ?l] =>
      assert (H : forall acc, quiet acc.1.1 (foldl f acc l).1.1);
      [generalize l; intros l'; induction l' as [|nd l' IH]; intros acc; cbn [foldl];
       [apply quiet_refl|
        eapply quiet_trans; [apply linkFilledSkipRanges_step_quiet|apply IH]]|];
      specialize (H (m, left, None)); destruct (foldl f (m, left, None) l) as [[m1 a1] p1]
  end.
  cbn [fst snd] in H. destruct p1 as [p|]; [destruct right as [r|]|]; try exact H.
  eapply quiet_trans; [exact H|]. apply quiet_update, reduceRight_same_kind.
Qed.

Lemma tighten_outer_quiet target set m : quiet m (tighten_outer target set m).
Proof.
  unfold tighten_outer. apply foldl_quiet. intros m0 nd.
  destruct (true_left (node m0 nd)); [apply quiet_refl|].
  destruct (LogootPosition.eq _ _); [|apply quiet_refl].
  apply quiet_update, reduceRight_same_kind.
Qed.

Lemma updateNeighborConflicts_quiet self last m :
  quiet m (updateNeighborConflicts self last m).2.
Proof.
  unfold updateNeighborConflicts. destruct (reaches _ _); cbn [snd];
    apply quiet_update; [apply conflict_add_same_kind|apply conflict_delete_same_kind].
Qed.

Lemma fillRangeConflicts_sweep_quiet range :
  forall last m, quiet m (fillRangeConflicts_sweep last range m).
Proof.
  induction range as [|nd rest IH]; intros last m; cbn [fillRangeConflicts_sweep];
    [apply quiet_refl|].
  destruct last as [l|]; [|apply IH].
  pose proof (updateNeighborConflicts_quiet nd l m) as Hu.
  destruct (updateNeighborConflicts nd l m) as [c m1]. cbn [snd] in Hu.
  destruct c; [|done]. eapply quiet_trans; [exact Hu|apply IH].
Qed.

Lemma mark_left_quiet stoppos x ids : forall m, quiet m (mark_left stoppos x ids m).
Proof.
  induction ids as [|nd rest IH]; intros m; cbn [mark_left]; [apply quiet_refl|].
  assert (H1 : quiet m (update nd (conflict_add x) m))
    by apply quiet_update, conflict_add_same_kind.
  destruct stoppos as [p|]; [destruct (LogootPosition.lteq _ _)|]; [done| |];
    (eapply quiet_trans; [exact H1|apply IH]).
Qed.

Lemma mark_right_quiet stoppos x ids : forall m, quiet m (mark_right stoppos x ids m).
Proof.
  induction ids as [|nd rest IH]; intros m; cbn [mark_right]; [apply quiet_refl|].
  assert (H1 : quiet m (update nd (conflict_add x) m))
    by apply quiet_update, conflict_add_same_kind.
  destruct stoppos as [p|]; [destruct (LogootPosition.gteq _ _)|];
    [apply quiet_refl| |]; (eapply quiet_trans; [exact H1|apply IH]).
Qed.

Lemma clear_conflicts_quiet anchor walk : forall m, quiet m (clear_conflicts anchor walk m).
Proof.
  induction walk as [|nd rest IH]; intros m; cbn [clear_conflicts]; [apply quiet_refl|].
  destruct (set_has _ _); [|apply quiet_refl].
  eapply quiet_trans; [|apply IH]. apply quiet_update, conflict_delete_same_kind.
Qed.

Lemma patchRemovalAnchors_quiet range bw m m' :
  patchRemovalAnchors range bw m = Ok m' -> quiet m m'.
Proof.
  unfold patchRemovalAnchors.
  destruct (patchRemovalAnchors_loop_frame bw (if bw then rev range else range) m [])
    as (s' & -> & Hb & Hl & Hf); [by intros s ?%elem_of_nil|].
  cbn. intros [= <-]. split; [done|]. split; [done|]. intros id.
  destruct (Hf id) as (?&?&?&?&_). by repeat split.
Qed.

Lemma fixConflicts_quiet bw nd rm_nodes :
  forall m m', fixConflicts bw nd rm_nodes m = Ok m' -> quiet m m'.
Proof.
  induction rm_nodes as [|cnode rest IH]; intros m m'; cbn [fixConflicts].
  - intros [= <-]. apply quiet_refl.
  - destruct (set_has _ _); cbn [negb]; [|intros [= <-]; apply quiet_refl].
    destruct bw.
    + destruct (true_right (node m nd)) as [|r]; [done|].
      intros Hrest%IH. eapply quiet_trans; [|exact Hrest].
      destruct (LogootPosition.gteq _ _); [|apply quiet_refl].
      apply quiet_update, conflict_delete_same_kind.
    + destruct (true_left (node m nd)) as [|l]; [done|].
      intros Hrest%IH. eapply quiet_trans; [|exact Hrest].
      destruct (LogootPosition.lteq _ _); [|apply quiet_refl].
      apply quiet_update, conflict_delete_same_kind.
Qed.

Lemma patchNewRemovalAnchors_scan_quiet bw nd rm_nodes snode m m' :
  patchNewRemovalAnchors_scan bw nd rm_nodes snode m = Ok m' -> quiet m m'.
Proof.
  unfold patchNewRemovalAnchors_scan. destruct bw.
  - destruct (true_left (node m snode)) as [|l]; [intros [= <-]; apply quiet_refl|].
    destruct (LogootPosition.eq _ _); [|intros [= <-]; apply quiet_refl].
    intros H%fixConflicts_quiet. eapply quiet_trans; [|exact H].
    apply quiet_update, reduceRight_same_kind.
  - destruct (true_right (node m snode)) as [|r]; [intros [= <-]; apply quiet_refl|].
    destruct (LogootPosition.eq _ _); [|intros [= <-]; apply quiet_refl].
    intros H%fixConflicts_quiet. eapply quiet_trans; [|exact H].
    apply quiet_update, reduceLeft_same_kind.
Qed.

Lemma patchNewRemovalAnchors_node_quiet bw nd s s' :
  patchNewRemovalAnchors_node bw nd s = Ok s' -> quiet s.1.1 s'.1.1.
Proof.
  destruct s as [[m scan] rm]. unfold patchNewRemovalAnchors_node.
  destruct (NodeType_eqb _ _); cbn [mbind result_bind fst].
  - intros [= <-]. apply quiet_refl.
  - destruct (forEachM _ scan m) as [m1|] eqn:Hloop; [|done].
    cbn [mbind result_bind]. intros [= <-]. cbn [fst].
    revert Hloop. apply (forEachM_preserves quiet).
    + apply quiet_refl.
    + apply quiet_trans.
    + intros x m0 m0'. apply patchNewRemovalAnchors_scan_quiet.
Qed.

Lemma patchNewRemovalAnchors_quiet range bw m m' :
  patchNewRemovalAnchors range bw m = Ok m' -> quiet m m'.
Proof.
  unfold patchNewRemovalAnchors.
  destruct (forEachM _ _ _) as [s'|] eqn:Hloop; [|done].
  cbn [mbind result_bind]. intros [= <-].
  apply (forEachM_preserves
           (fun s s' : ListDocumentModel * list NodeId * list NodeId =>
              quiet s.1.1 s'.1.1)) in Hloop; [done| | |].
  - intros s. apply quiet_refl.
  - intros s1 s2 s3. apply quiet_trans.
  - intros x s0 s0'. apply patchNewRemovalAnchors_node_quiet.
Qed.

Ltac quiet_chain :=
  repeat match goal with
  | |- quiet ?m ?m => apply quiet_refl
  | |- quiet _ (match ?x with _ => _ end) => destruct x
  | |- quiet _ (tighten_outer _ _ _) =>
      eapply quiet_trans; [|apply tighten_outer_quiet]
  | |- quiet _ (mark_left _ _ _ _) => eapply quiet_trans; [|apply mark_left_quiet]
  | |- quiet _ (mark_right _ _ _ _) => eapply quiet_trans; [|apply mark_right_quiet]
  | |- quiet _ (clear_conflicts _ _ _) =>
      eapply quiet_trans; [|apply clear_conflicts_quiet]
  | |- quiet _ (update _ (reduceRight _) _) =>
      eapply quiet_trans; [|apply quiet_update, reduceRight_same_kind]
  | |- quiet _ (update _ (reduceLeft _) _) =>
      eapply quiet_trans; [|apply quiet_update, reduceLeft_same_kind]
  | |- quiet _ (linkFilledSkipRanges _ _ _ _) =>
      eapply quiet_trans; [|apply linkFilledSkipRanges_quiet]
  | |- quiet _ (fillRangeConflicts_sweep _ _ _) =>
      eapply quiet_trans; [|apply fillRangeConflicts_sweep_quiet]
  end.

(** [insertLogoot] in three steps: the skip ranges are constructed, they
    are filled, and what follows keeps the tree, the runs, the types and
    the clocks; the operations returned are those of the buffer that
    [fillSkipRanges] leaves. *)
Lemma insertLogoot_steps
  (newBetween : BranchKey -> Z -> option LogootPosition.t -> option LogootPosition.t
                -> LogootPosition.t)
  br left right len clock m ops m' :
  insertLogoot newBetween br left right len clock m = Ok (ops, m') ->
  let start := newBetween br len left right in
  let r := constructSkipRanges left start (LogootPosition.offsetLowest start len) right m in
  exists b1 filled m2 b2,
    OperationBuffer.operations b1 = [] /\ OperationBuffer.length_avail b1 = len
    /\ fillSkipRanges start clock DATA (skip_ranges r.1) (r.2, b1) = Ok (filled, (m2, b2))
    /\ quiet m2 m'
    /\ ops = OperationBuffer.operations b2.
Proof.
  unfold insertLogoot, insertLogootAt. cbn zeta.
  destruct (constructSkipRanges _ _ _ _ m) as [sr m1]. cbn [fst snd].
  match goal with
  | |- context [fillSkipRanges ?s ?c ?t ?k (m1, ?b)] =>
      assert (Hb : OperationBuffer.operations b = []
                   /\ OperationBuffer.length_avail b = len)
        by (destruct (last (skip_ranges sr)); [destruct (NodeType_eqb _ _)|]; done);
      destruct (fillSkipRanges s c t k (m1, b)) as [[filled [m2 b2]]|] eqn:Hfill; [|done];
      intros Hrun; exists b, filled, m2, b2
  end.
  destruct Hb as [Hb1 Hb2]. do 3 (split; [done|]).
  revert Hrun. cbn [mbind result_bind]. unfold fillRangeConflicts. cbn zeta.
  match goal with
  | |- context [patchRemovalAnchors ?r false ?mm] =>
      assert (H6 : quiet m2 mm);
      [|destruct (patchRemovalAnchors r false mm) as [m7|] eqn:Hp1; [|done]]
  end.
  { quiet_chain. }
  apply patchRemovalAnchors_quiet in Hp1. cbn [mbind result_bind].
  match goal with
  | |- context [patchRemovalAnchors ?r true ?mm] =>
      destruct (patchRemovalAnchors r true mm) as [m8|] eqn:Hp2; [|done]
  end.
  apply patchRemovalAnchors_quiet in Hp2. cbn [mbind result_bind].
  intros [= <- <-]. split; [|done]. eauto using quiet_trans.
Qed.

(** [removeLogoot] in three steps: the nodes are sliced, the removal loop
    runs over the removal range, and what follows keeps the tree, the
    runs, the types and the clocks. *)
Lemma removeLogoot_steps start len clock m ops m' :
  removeLogoot start len clock m = Ok (ops, m') ->
  let end_ := LogootPosition.offsetLowest start len in
  let buckets := DBst.prefSearch m (Some start) (Some end_) LCGO in
  let blob := ((fun e => e.2) <$> lesser buckets)
              ++ ((fun e => e.2) <$> range buckets)
              ++ ((fun e => e.2) <$> greater buckets) in
  let r := sliceNodesIntoRanges [start; end_] blob m in
  exists m2 b2,
    forEachM (removeLogoot_step start clock) (r.1 !!! 1%nat) (r.2, OperationBuffer.new 0)
      = Ok (m2, b2)
    /\ quiet m2 m'
    /\ ops = OperationBuffer.operations b2.
Proof.
  unfold removeLogoot. cbn zeta.
  destruct (sliceNodesIntoRanges _ _ m) as [groups m1]. cbn [fst snd].
  destruct (forEachM _ (groups !!! 1%nat) _) as [[m2 b2]|] eqn:Hloop; [|done].
  cbn [mbind result_bind].
  destruct (patchNewRemovalAnchors _ false m2) as [m3|] eqn:H3; [|done].
  cbn [mbind result_bind].
  destruct (patchNewRemovalAnchors _ true m3) as [m4|] eqn:H4; [|done].
  cbn [mbind result_bind].
  destruct (patchRemovalAnchors _ false m4) as [m5|] eqn:H5; [|done].
  cbn [mbind result_bind].
  destruct (patchRemovalAnchors _ true m5) as [m6|] eqn:H6; [|done].
  cbn [mbind result_bind]. intros [= <- <-].
  apply patchNewRemovalAnchors_quiet in H3, H4.
  apply patchRemovalAnchors_quiet in H5, H6.
  exists m2, b2. split; [done|]. split; [|done]. eauto using quiet_trans.
Qed.

(** ** Clocks and types under [insertLogoot] and [removeLogoot] *)

Lemma stable_refl m : stable m m.
Proof. by split. Qed.

Lemma stable_trans m1 m2 m3 : stable m1 m2 -> stable m2 m3 -> stable m1 m3.
Proof.
  intros [Hl1 H1] [Hl2 H2]. split; [lia|]. intros id Hid.
  destruct (H1 id Hid) as [Hc Ht]. destruct (H2 id ltac:(lia)) as [Hc' Ht'].
  split; congruence.
Qed.

Lemma quiet_stable m m' : quiet m m' -> stable m m'.
Proof.
  intros (_ & Hl & Hk). split; [lia|]. intros id _.
  by destruct (Hk id) as (_&_&?&?).
Qed.

Lemma stable_evolves clock ty m m' : stable m m' -> evolves clock ty m m'.
Proof. intros [Hl H]. split; [done|]. intros id Hid. left. by apply H. Qed.

Lemma evolves_trans clock ty m1 m2 m3 :
  evolves clock ty m1 m2 -> evolves clock ty m2 m3 -> evolves clock ty m1 m3.
Proof.
  intros [Hl1 H1] [Hl2 H2]. split; [lia|]. intros id Hid.
  specialize (H1 id Hid). specialize (H2 id ltac:(lia)).
  unfold retyped in *.
  destruct H1 as [[Hc Ht]|(Hle & Hc & Ht)], H2 as [[Hc' Ht']|(Hle' & Hc' & Ht')].
  - left. split; congruence.
  - right. repeat split; [lia|done|done].
  - right. repeat split; [done|congruence|congruence].
  - right. repeat split; [done|done|done].
Qed.

Lemma stable_update i f m :
  (forall n, clk (f n) = clk n /\ type (f n) = type n) -> stable m (update i f m).
Proof.
  intros Hf. split; [by rewrite nodes_update_length|]. intros id _.
  rewrite node_update. case_decide as Hi; [|done]. destruct Hi as [-> _]. apply Hf.
Qed.

Lemma stable_alloc n m : stable m (alloc n m).2.
Proof.
  split; [unfold alloc; cbn; rewrite length_app; lia|]. intros id Hid.
  unfold node, alloc; cbn. by rewrite lookup_total_app_l.
Qed.

Lemma stable_same_nodes m m' : nodes m' = nodes m -> stable m m'.
Proof. intros H. split; [by rewrite H|]. intros id _. unfold node. by rewrite H. Qed.

Lemma splitAround_stable id k m : stable m (splitAround id k m).2.
Proof.
  unfold splitAround. cbn zeta. unfold alloc; cbn [fst snd].
  eapply stable_trans;
    [|apply quiet_stable, (foldr_update_quiet (fun _ => conflict_add _)); by intros].
  match goal with
  | |- stable m {| nodes := nodes ?m1 ++ [?n]; bst := _ |} =>
      apply (stable_trans m m1); [by apply stable_update|apply (stable_alloc n m1)]
  end.
Qed.

Lemma slice_at_stable b ids :
  forall m, stable m (slice_at b ids m).2.
Proof.
  induction ids as [|id rest IH]; intros m; cbn [slice_at]; [apply stable_refl|].
  destruct (LogootPosition.gteq _ b).
  - specialize (IH m). by destruct (slice_at b rest m) as [[lo hi] m'].
  - destruct (_ <? _).
    + pose proof (splitAround_stable id (atoms_below (logoot_start (node m id))
                                           (length (node m id)) b) m) as Hs.
      destruct (splitAround id _ m) as [uid m1]. cbn [snd] in Hs.
      specialize (IH (DBst.add uid m1)).
      destruct (slice_at b rest (DBst.add uid m1)) as [[lo hi] m']. cbn [snd] in *.
      eapply stable_trans; [exact Hs|].
      eapply stable_trans; [|exact IH]. by apply stable_same_nodes.
    + specialize (IH m). by destruct (slice_at b rest m) as [[lo hi] m'].
Qed.

Lemma sliceNodesIntoRanges_stable bs :
  forall ids m, stable m (sliceNodesIntoRanges bs ids m).2.
Proof.
  induction bs as [|b bs IH]; intros ids m; cbn [sliceNodesIntoRanges];
    [apply stable_refl|].
  pose proof (slice_at_stable b ids m) as Hs.
  destruct (slice_at b ids m) as [[lo hi] m1]. cbn [snd] in Hs.
  specialize (IH hi m1). destruct (sliceNodesIntoRanges bs hi m1) as [groups m2].
  cbn [snd] in *. by eapply stable_trans.
Qed.

Lemma constructSkipRanges_stable left start end_ right m :
  stable m (constructSkipRanges left start end_ right m).2.
Proof.
  unfold constructSkipRanges.
  match goal with
  | |- context [sliceNodesIntoRanges ?bs ?ids m] =>
      pose proof (sliceNodesIntoRanges_stable bs ids m) as Hs;
      destruct (sliceNodesIntoRanges bs ids m) as [groups m1]
  end.
  cbn [snd] in Hs. cbn zeta.
  destruct left as [l|], right as [r|]; cbn [fst snd];
    (destruct (last (groups !!! 2%nat)) as [i0|] eqn:Hlast;
     [destruct (LogootPosition.lt (logoot_end (node m1 i0)) end_) eqn:Hlt|]);
    cbn [fst snd]; try exact Hs.
  all: match goal with
       | |- context [alloc ?n ?mm] =>
           pose proof (stable_alloc n mm) as Ha; destruct (alloc n mm) as [d m2]
       end; cbn [fst snd] in *; by eapply stable_trans.
Qed.

Lemma retype_evolves clock ty nd m b s l s' o l' m2 b2 m4 b4 :
  clk (node m nd) <= clock ->
  OperationBuffer.remove nd s l (update nd (set_clk clock) m, b) = Ok (m2, b2) ->
  OperationBuffer.insert nd s' o l' (update nd (set_type ty) m2, b2) = Ok (m4, b4) ->
  evolves clock ty m m4.
Proof.
  intros Hle Hrm Hins.
  apply opbuf_remove_frame in Hrm as (Hl2 & _ & Hs2 & _).
  apply opbuf_insert_quiet, quiet_stable in Hins as [Hl4 Hs4].
  rewrite nodes_update_length in Hl2, Hl4.
  split; [lia|]. intros id Hid.
  destruct (Hs4 id) as [Hc Ht]; [rewrite nodes_update_length; lia|].
  destruct (same_but_value_fields _ _ (Hs2 id)) as (_&_&Ht2&Hc2&_).
  unfold retyped. rewrite Hc, Ht.
  destruct (decide (nd = id)) as [->|Hne].
  - right. rewrite node_update_eq by lia. cbn.
    rewrite node_update_eq in Hc2 by lia. by rewrite Hc2.
  - left. rewrite node_update_ne by done.
    rewrite node_update_ne in Hc2, Ht2 by done. by rewrite Hc2, Ht2.
Qed.

Lemma fillSkipRanges_step_evolves start clock ty nd m b p f m' b' p' f' :
  fillSkipRanges_step start clock ty nd (m, b, p, f) = Ok (m', b', p', f') ->
  evolves clock ty m m'.
Proof.
  unfold fillSkipRanges_step.
  assert (Hgate : forall m1 b1 m4 b4,
    (if negb (NodeType_eqb (type (node m1 nd)) DUMMY)
        && Nat.eqb (LogootPosition.levels (logoot_start (node m1 nd)))
                   (LogootPosition.levels start)
        && (clk (node m1 nd) <=? clock)
     then
       let offset := (LogootPosition.l (logoot_start (node m1 nd))
                        (LogootPosition.levels start)).1
                     - (LogootPosition.l start (LogootPosition.levels start)).1 in
       let m := update nd (set_clk clock) m1 in
       s ← OperationBuffer.remove nd (ldoc_start (node m nd))
              (ldoc_length (node m nd)) (m, b1);
       let m := update nd (set_type ty) s.1 in
       OperationBuffer.insert nd (ldoc_start (node m nd)) offset
         (ldoc_length (node m nd)) (m, s.2)
     else Ok (m1, b1)) = Ok (m4, b4) -> evolves clock ty m1 m4).
  { intros m1 b1 m4 b4.
    destruct (_ && _) eqn:Hc.
    - apply andb_true_iff in Hc as [_ Hle%Z.leb_le]. cbn zeta.
      match goal with
      | |- context [OperationBuffer.remove ?a ?s ?l ?st] =>
          destruct (OperationBuffer.remove a s l st) as [[m2 b2]|] eqn:Hrm; [|done]
      end.
      cbn [mbind result_bind fst snd]. intros Hins.
      by eapply retype_evolves.
    - intros [= <- <-]. apply stable_evolves, stable_refl. }
  match goal with
  | |- context [if ?c then _ else Ok (m, b, None)] => destruct c
  end.
  - unfold alloc. cbn zeta.
    match goal with
    | |- context [OperationBuffer.insert ?a ?s ?o ?l (?mm, b)] =>
        destruct (OperationBuffer.insert a s o l (mm, b)) as [[m1 b1]|] eqn:Hins; [|done];
        assert (H1 : stable m mm)
    end.
    { match goal with
      | |- stable m (DBst.add _ {| nodes := nodes m ++ [?n]; bst := _ |}) =>
          eapply stable_trans; [apply (stable_alloc n m)|by apply stable_same_nodes]
      end. }
    apply opbuf_insert_quiet, quiet_stable in Hins. cbn [mbind result_bind fst snd].
    match goal with
    | |- context [mbind _ ?x] => destruct x as [[m4 b4]|] eqn:Hg; [|done]
    end.
    apply Hgate in Hg. cbn [mbind result_bind]. intros [= <- <- <- <-].
    eapply evolves_trans; [|exact Hg].
    apply stable_evolves. by eapply stable_trans.
  - cbn [mbind result_bind].
    match goal with
    | |- context [mbind _ ?x] => destruct x as [[m4 b4]|] eqn:Hg; [|done]
    end.
    apply Hgate in Hg. cbn [mbind result_bind]. by intros [= <- <- <- <-].
Qed.

Lemma fillSkipRanges_evolves start clock ty sk m b filled m' b' :
  fillSkipRanges start clock ty sk (m, b) = Ok (filled, (m', b')) ->
  evolves clock ty m m'.
Proof.
  unfold fillSkipRanges; cbn [fst snd].
  destruct (forEachM _ sk _) as [[[[m1 b1] p1] f1]|] eqn:Hloop; [|done].
  cbn [mbind result_bind]. intros [= <- <- <-].
  apply (forEachM_preserves
           (fun s s' : ListDocumentModel * OperationBuffer.t * Z * list NodeId =>
              evolves clock ty s.1.1.1 s'.1.1.1)) in Hloop; [done| | |].
  - intros s. apply stable_evolves, stable_refl.
  - intros s1 s2 s3. apply evolves_trans.
  - intros x [[[m0 b0] p0] f0] [[[m2 b2] p2] f2]. apply fillSkipRanges_step_evolves.
Qed.

Lemma removeLogoot_step_evolves start clock nd s s' :
  removeLogoot_step start clock nd s = Ok s' -> evolves clock REMOVAL s.1 s'.1.
Proof.
  destruct s as [m b]. unfold removeLogoot_step; cbn [fst snd].
  destruct (removal_applies start clock (node m nd)) eqn:Hg.
  2:{ intros [= <-]. apply stable_evolves, stable_refl. }
  apply andb_true_iff in Hg as [Hle%Z.leb_le _].
  destruct (OperationBuffer.remove _ _ _ _) as [[m1 b1]|] eqn:Hrm; [|done].
  cbn [mbind result_bind fst snd]. intros [= <-]. cbn [fst].
  apply opbuf_remove_frame in Hrm as (Hl & _ & Hs & _).
  split; [rewrite nodes_update_length; lia|]. intros id Hid.
  destruct (same_but_value_fields _ _ (Hs id)) as (_&_&Ht&Hc&_).
  unfold retyped. destruct (decide (nd = id)) as [->|Hne].
  - right. rewrite node_update_eq by lia. by cbn.
  - left. by rewrite node_update_ne.
Qed.

(** X14: [insertLogoot] with the clock [clk] either leaves the clock and
    the type of a node as they are, or, when the node's clock is at most
    [clk], sets the clock to [clk] and the type to [DATA].  Hence the
    clock of a node never goes down, and a node with a clock above [clk]
    keeps its clock and its type: an insertion does not overwrite a later
    edit. *)
Theorem insertLogoot_clocks
  (newBetween : BranchKey -> Z -> option LogootPosition.t -> option LogootPosition.t
                -> LogootPosition.t)
  (br : BranchKey) (left right : option LogootPosition.t) (len clock : Z)
  (m m' : ListDocumentModel) (ops : list Operation) :
  insertLogoot newBetween br left right len clock m = Ok (ops, m') ->
  forall id, (id < List.length (nodes m))%nat ->
    retyped clock DATA (node m id) (node m' id)
    /\ clk (node m id) <= clk (node m' id)
    /\ (clock < clk (node m id) ->
        clk (node m' id) = clk (node m id) /\ type (node m' id) = type (node m id)).
Proof.
  intros Hrun.
  assert (Hev : evolves clock DATA m m').
  { apply insertLogoot_steps in Hrun as (b1 & filled & m2 & b2 & _ & _ & Hfill & Hq & _).
    apply fillSkipRanges_evolves in Hfill.
    eapply evolves_trans; [apply stable_evolves, constructSkipRanges_stable|].
    eapply evolves_trans; [exact Hfill|]. by apply stable_evolves, quiet_stable. }
  intros id Hid. destruct Hev as [_ Hev]. specialize (Hev id Hid).
  split; [exact Hev|]. unfold retyped in Hev.
  destruct Hev as [[Hc Ht]|(Hle & Hc & Ht)]; (split; [lia|]); intros Hgt; [done|lia].
Qed.

Lemma insertLogoot_clocks_witness :
  exists ops m',
    insertLogoot sample_generator 0%nat None None 4 1 removal_doc = Ok (ops, m')
    /\ clk (node removal_doc 1%nat) = 5
    /\ clk (node m' 1%nat) = 5 /\ type (node m' 1%nat) = DATA
    /\ clk (node m' 0%nat) = 1.
Proof.
  eexists _, _. split; [vm_compute; reflexivity|]. split; [reflexivity|].
  destruct (insertLogoot_clocks sample_generator 0%nat None None 4 1 removal_doc _ _
              ltac:(vm_compute; reflexivity) 1%nat ltac:(cbn; lia)) as (_ & _ & Hkeep).
  destruct (Hkeep ltac:(vm_compute; reflexivity)) as [Hc Ht].
  split; [exact Hc|]. split; [exact Ht|reflexivity].
Defined.

(** X15: [removeLogoot] with the clock [clk] either leaves the clock and
    the type of a node as they are, or, when the node's clock is at most
    [clk], sets the clock to [clk] and the type to [REMOVAL].  Hence the
    clock of a node never goes down, no node becomes a [DATA] node, and a
    node with a clock above [clk] survives the removal with its clock and
    its type. *)
Theorem removeLogoot_clocks (start : LogootPosition.t) (len clock : Z)
  (m m' : ListDocumentModel) (ops : list Operation) :
  removeLogoot start len clock m = Ok (ops, m') ->
  forall id, (id < List.length (nodes m))%nat ->
    retyped clock REMOVAL (node m id) (node m' id)
    /\ clk (node m id) <= clk (node m' id)
    /\ (type (node m' id) = DATA -> type (node m id) = DATA)
    /\ (clock < clk (node m id) ->
        clk (node m' id) = clk (node m id) /\ type (node m' id) = type (node m id)).
Proof.
  intros Hrun.
  assert (Hev : evolves clock REMOVAL m m').
  { apply removeLogoot_steps in Hrun as (m2 & b2 & Hloop & Hq & _).
    apply (forEachM_preserves
             (fun s s' : ListDocumentModel * OperationBuffer.t =>
                evolves clock REMOVAL s.1 s'.1)) in Hloop.
    2:{ intros s. apply stable_evolves, stable_refl. }
    2:{ intros s1 s2 s3. apply evolves_trans. }
    2:{ intros x s0 s0'. apply removeLogoot_step_evolves. }
    cbn [fst] in Hloop.
    eapply evolves_trans; [apply stable_evolves, sliceNodesIntoRanges_stable|].
    eapply evolves_trans; [exact Hloop|]. by apply stable_evolves, quiet_stable. }
  intros id Hid. destruct Hev as [_ Hev]. specialize (Hev id Hid).
  split; [exact Hev|]. unfold retyped in Hev.
  destruct Hev as [[Hc Ht]|(Hle & Hc & Ht)].
  - split; [lia|]. split; [congruence|done].
  - split; [lia|]. split; [by rewrite Ht|]. intros Hgt. lia.
Qed.

Lemma removeLogoot_clocks_witness :
  exists ops m',
    removeLogoot [(0, 0%nat)] 4 1 removal_doc = Ok (ops, m')
    /\ clk (node removal_doc 1%nat) = 5
    /\ clk (node m' 1%nat) = 5 /\ type (node m' 1%nat) = DATA
    /\ type (node m' 0%nat) = REMOVAL.
Proof.
  eexists _, _. split; [vm_compute; reflexivity|]. split; [reflexivity|].
  destruct (removeLogoot_clocks [(0, 0%nat)] 4 1 removal_doc _ _
              ltac:(vm_compute; reflexivity) 1%nat ltac:(cbn; lia)) as (_ & _ & _ & Hkeep).
  destruct (Hkeep ltac:(vm_compute; reflexivity)) as [Hc Ht].
  split; [exact Hc|]. split; [exact Ht|reflexivity].
Defined.

(** ** The length of the document and the operations returned *)

Lemma net_length_app a b : net_length (a ++ b) = net_length a + net_length b.
Proof.
  unfold net_length. rewrite foldr_app.
  generalize (foldr (fun op acc =>
                       match op with
                       | InsertionOperation _ _ l => acc + l
                       | RemovalOperation _ l => acc - l
                       | MarkOperation _ _ _ => acc
                       end) 0 b).
  intros z. induction a as [|op a IH]; cbn [foldr]; [lia|]. rewrite IH.
  destruct op; lia.
Qed.

Lemma sum_ext (g g' : NodeId -> Z) l :
  (forall x, x ∈ l -> g' x = g x) ->
  foldr (fun id acc => g' id + acc) 0 l = foldr (fun id acc => g id + acc) 0 l.
Proof.
  induction l as [|x l IH]; intros H; cbn; [done|].
  rewrite IH by (intros y Hy; apply H; by apply elem_of_cons; right).
  by rewrite H by (by apply elem_of_cons; left).
Qed.

Lemma sum_replace (g g' : NodeId -> Z) nd l :
  NoDup l -> nd ∈ l -> (forall x, x <> nd -> g' x = g x) ->
  foldr (fun id acc => g' id + acc) 0 l
  = foldr (fun id acc => g id + acc) 0 l - g nd + g' nd.
Proof.
  induction l as [|x l IH]; intros Hnd Hin H; [by apply elem_of_nil in Hin|].
  apply NoDup_cons in Hnd as [Hx Hnd]. cbn.
  destruct (decide (x = nd)) as [->|Hne].
  - rewrite (sum_ext g g' l); [lia|].
    intros y Hy. apply H. intros ->. done.
  - apply elem_of_cons in Hin as [?|Hin]; [congruence|].
    rewrite IH by done. rewrite (H x) by done. lia.
Qed.

Lemma elem_of_place m id l x : x ∈ DBst.place m id l <-> x = id \/ x ∈ l.
Proof.
  induction l as [|y l IH]; cbn.
  - rewrite list_elem_of_singleton, elem_of_nil. tauto.
  - destruct (preferential_cmp _ _); rewrite ?elem_of_cons, ?IH, ?elem_of_cons; tauto.
Qed.

Lemma NoDup_place m id l : id ∉ l -> NoDup l -> NoDup (DBst.place m id l).
Proof.
  induction l as [|y l IH]; cbn; intros Hid Hnd.
  - apply NoDup_singleton.
  - apply not_elem_of_cons in Hid as [Hne Hid].
    apply NoDup_cons in Hnd as [Hy Hnd].
    assert (Hrec : NoDup (y :: DBst.place m id l)).
    { apply NoDup_cons. split; [|by apply IH].
      rewrite elem_of_place. intros [?|?]; [congruence|done]. }
    destruct (preferential_cmp _ _); try exact Hrec.
    apply NoDup_cons. split; [|by apply NoDup_cons].
    apply not_elem_of_cons. done.
Qed.

Lemma sum_place (g : NodeId -> Z) m id l :
  foldr (fun id acc => g id + acc) 0 (DBst.place m id l)
  = g id + foldr (fun id acc => g id + acc) 0 l.
Proof.
  induction l as [|y l IH]; cbn; [done|].
  destruct (preferential_cmp _ _); cbn; rewrite ?IH; lia.
Qed.

Lemma node_out_of_store m id :
  (List.length (nodes m) <= id)%nat -> type (node m id) = DUMMY.
Proof.
  intros Hid. unfold node. rewrite list_lookup_total_alt.
  by rewrite lookup_ge_None_2.
Qed.

Lemma node_alloc_old n m id :
  id <> List.length (nodes m) -> type (node (alloc n m).2 id) = type (node m id)
  /\ ((id < List.length (nodes m))%nat -> node (alloc n m).2 id = node m id).
Proof.
  intros Hne. destruct (decide (id < List.length (nodes m))%nat) as [Hlt|Hge].
  - assert (H : node (alloc n m).2 id = node m id)
      by (unfold node, alloc; cbn; by rewrite lookup_total_app_l).
    by rewrite H.
  - split; [|lia]. rewrite !node_out_of_store; [done|lia|].
    unfold alloc; cbn. rewrite length_app; cbn. lia.
Qed.

Lemma node_alloc_new n m : node (alloc n m).2 (List.length (nodes m)) = n.
Proof.
  unfold node, alloc; cbn. rewrite lookup_total_app_r by done.
  by rewrite Nat.sub_diag.
Qed.

Lemma well_formed_ext m m' :
  bst m' = bst m -> (List.length (nodes m) <= List.length (nodes m'))%nat ->
  (forall id, id ∉ bst m -> type (node m' id) = type (node m id)) ->
  well_formed m -> well_formed m'.
Proof.
  intros Hb Hl Ht (Hnd & Hv & Hd). unfold well_formed. rewrite Hb.
  split; [done|]. split.
  - intros id Hid. specialize (Hv id Hid). lia.
  - intros id Hid. rewrite Ht by done. by apply Hd.
Qed.

Lemma total_length_ext m m' :
  bst m' = bst m ->
  (forall id, id ∈ bst m -> ldoc_length (node m' id) = ldoc_length (node m id)) ->
  total_length m' = total_length m.
Proof. intros Hb H. unfold total_length. rewrite Hb. by apply sum_ext. Qed.

Lemma same_kind_ldoc_length n n' : same_kind n n' -> ldoc_length n' = ldoc_length n.
Proof. intros (_ & Hl & Ht & _). unfold ldoc_length. by rewrite Hl, Ht. Qed.

Lemma quiet_well_formed m m' : quiet m m' -> well_formed m -> well_formed m'.
Proof.
  intros (Hb & Hl & Hk). apply well_formed_ext; [done|lia|].
  intros id _. by destruct (Hk id) as (_&_&?&_).
Qed.

Lemma quiet_total_length m m' : quiet m m' -> total_length m' = total_length m.
Proof.
  intros (Hb & Hl & Hk). apply total_length_ext; [done|].
  intros id _. apply same_kind_ldoc_length, Hk.
Qed.

Lemma quiet_well_formed_but i m m' :
  quiet m m' -> well_formed_but i m -> well_formed_but i m'.
Proof.
  intros (Hb & Hl & Hk) (Hnd & Hv & Hi & Hout & Hd). unfold well_formed_but.
  rewrite Hb, Hl. do 4 (split; [done|]).
  intros id Hid Hne. destruct (Hk id) as (_&_&->&_). by apply Hd.
Qed.

Lemma alloc_well_formed_but n m :
  well_formed m -> well_formed_but (List.length (nodes m)) (alloc n m).2.
Proof.
  intros (Hnd & Hv & Hd). unfold well_formed_but.
  assert (Hl : List.length (nodes (alloc n m).2) = S (List.length (nodes m)))
    by (unfold alloc; cbn; rewrite length_app; cbn; lia).
  rewrite Hl. change (bst (alloc n m).2) with (bst m).
  split; [done|]. split; [intros id Hid; specialize (Hv id Hid); lia|].
  split; [lia|]. split; [intros Hin; specialize (Hv _ Hin); lia|].
  intros id Hid Hne. destruct (node_alloc_old n m id Hne) as [-> _]. by apply Hd.
Qed.

Lemma add_well_formed i m :
  well_formed_but i m ->
  well_formed (DBst.add i m)
  /\ (forall id, id ∈ bst m -> id ∈ bst (DBst.add i m))
  /\ total_length (DBst.add i m) = total_length m + ldoc_length (node m i).
Proof.
  intros (Hnd & Hv & Hi & Hout & Hd). unfold DBst.add, well_formed, total_length.
  cbn [bst nodes]. split; [split; [|split]|split].
  - by apply NoDup_place.
  - intros id [->|Hid]%elem_of_place; [done|by apply Hv].
  - intros id Hid. rewrite elem_of_place in Hid.
    change (node {| nodes := nodes m; bst := DBst.place m i (bst m) |} id) with (node m id).
    apply Hd; intros ?; apply Hid; auto.
  - intros id Hid. apply elem_of_place. by right.
  - rewrite (sum_place (fun id => ldoc_length (node m id))). 
    change (node {| nodes := nodes m; bst := DBst.place m i (bst m) |}) with (node m).
    lia.
Qed.

Lemma opbuf_insert_net nd start offset len m b m' b' :
  OperationBuffer.insert nd start offset len (m, b) = Ok (m', b') ->
  net_length (OperationBuffer.operations b')
  = net_length (OperationBuffer.operations b) + len.
Proof.
  unfold OperationBuffer.insert; cbn [fst snd].
  destruct (Z.eqb_spec len 0); [intros [= <- <-]; lia|].
  destruct (start <? 0); [done|]. destruct (len <? 0); [done|].
  destruct (_ >? _); [done|]. intros [= <- <-]. cbn. rewrite net_length_app. cbn. lia.
Qed.

Lemma opbuf_remove_net nd start len m b m' b' :
  OperationBuffer.remove nd start len (m, b) = Ok (m', b') ->
  net_length (OperationBuffer.operations b')
  = net_length (OperationBuffer.operations b) - len.
Proof.
  unfold OperationBuffer.remove; cbn [fst snd].
  destruct (Z.eqb_spec len 0); [intros [= <- <-]; lia|].
  destruct (start <? 0); [done|]. destruct (len <? 0); [done|].
  intros [= <- <-]. cbn. rewrite net_length_app. cbn. lia.
Qed.

Lemma well_formed_update nd f m :
  nd ∈ bst m -> well_formed m -> well_formed (update nd f m).
Proof.
  intros Hin. apply well_formed_ext; [done|by rewrite nodes_update_length|].
  intros id Hid. rewrite node_update_ne; [done|]. by intros ->.
Qed.

Lemma total_length_update nd f m :
  well_formed m -> nd ∈ bst m ->
  total_length (update nd f m)
  = total_length m - ldoc_length (node m nd) + ldoc_length (f (node m nd)).
Proof.
  intros (Hnd & Hv & _) Hin. unfold total_length. cbn [bst update].
  rewrite (sum_replace (fun id => ldoc_length (node m id))
             (fun id => ldoc_length (node (update nd f m) id)) nd); [|done|done|].
  - rewrite node_update_eq by (by apply Hv). done.
  - intros x Hx. by rewrite node_update_ne.
Qed.

Lemma total_length_update_out nd f m :
  nd ∉ bst m -> total_length (update nd f m) = total_length m.
Proof.
  intros Hout. apply total_length_ext; [done|].
  intros id Hid. rewrite node_update_ne; [done|]. by intros ->.
Qed.

Lemma balanced_refl s : balanced s s.
Proof. by intros H. Qed.

Lemma balanced_trans s1 s2 s3 : balanced s1 s2 -> balanced s2 s3 -> balanced s1 s3.
Proof.
  intros H12 H23 H1. destruct (H12 H1) as (H2 & Hg & He).
  destruct (H23 H2) as (H3 & Hg' & He'). split; [done|]. split; [auto|lia].
Qed.

Lemma well_formed_in_tree m nd : well_formed m -> type (node m nd) <> DUMMY -> nd ∈ bst m.
Proof.
  intros (_ & _ & Hd) Hty. destruct (decide (nd ∈ bst m)) as [|Hout]; [done|].
  by apply Hd in Hout.
Qed.

Lemma fresh_balanced n nd' start offset m b m1 b1 :
  let i := List.length (nodes m) in
  let m0 := DBst.add i (alloc n m).2 in
  OperationBuffer.insert nd' start offset (ldoc_length (node m0 i)) (m0, b) = Ok (m1, b1) ->
  balanced (m, b) (m1, b1).
Proof.
  intros i m0 Hins Hw. cbn [fst snd] in *.
  pose proof (alloc_well_formed_but n m Hw) as Hbut.
  destruct (add_well_formed i (alloc n m).2 Hbut) as (Hw0 & Hg0 & Ht0).
  fold m0 in Hw0, Hg0, Ht0.
  pose proof (opbuf_insert_net _ _ _ _ _ _ _ _ Hins) as Hnet.
  apply opbuf_insert_quiet in Hins.
  split; [by eapply quiet_well_formed|]. split.
  - intros id Hid. destruct Hins as (-> & _). by apply Hg0.
  - rewrite (quiet_total_length _ _ Hins), Hnet, Ht0.
    change (node m0 i) with (node (alloc n m).2 i).
    assert (Hsame : total_length (alloc n m).2 = total_length m).
    { apply total_length_ext; [done|]. intros id Hid.
      destruct Hw as (_ & Hv & _). specialize (Hv id Hid).
      destruct (node_alloc_old n m id) as [_ Hn]; [lia|]. by rewrite Hn. }
    lia.
Qed.

Lemma retype_balanced clock ty nd m b s s' o m2 b2 m4 b4 :
  type (node m nd) <> DUMMY ->
  let m1 := update nd (set_clk clock) m in
  OperationBuffer.remove nd s (ldoc_length (node m1 nd)) (m1, b) = Ok (m2, b2) ->
  let m3 := update nd (set_type ty) m2 in
  OperationBuffer.insert nd s' o (ldoc_length (node m3 nd)) (m3, b2) = Ok (m4, b4) ->
  balanced (m, b) (m4, b4).
Proof.
  intros Hty m1 Hrm m3 Hins Hw. cbn [fst snd].
  assert (Hin : nd ∈ bst m) by (by apply well_formed_in_tree).
  pose proof (opbuf_remove_net _ _ _ _ _ _ _ Hrm) as Hnet2.
  pose proof (opbuf_insert_net _ _ _ _ _ _ _ _ Hins) as Hnet4.
  apply opbuf_remove_quiet in Hrm. apply opbuf_insert_quiet in Hins.
  assert (Hw1 : well_formed m1) by (by apply well_formed_update).
  assert (Hw2 : well_formed m2) by (by eapply quiet_well_formed).
  assert (Hin2 : nd ∈ bst m2) by (destruct Hrm as (-> & _); done).
  assert (Hw3 : well_formed m3) by (by apply well_formed_update).
  split; [by eapply quiet_well_formed|]. split.
  - intros id Hid. destruct Hins as (-> & _). cbn. by destruct Hrm as (-> & _).
  - rewrite (quiet_total_length _ _ Hins), Hnet4, Hnet2.
    unfold m3 at 1. rewrite total_length_update by done.
    rewrite (quiet_total_length _ _ Hrm).
    unfold m1 at 1. rewrite total_length_update by done.
    assert (H3 : node m3 nd = set_type ty (node m2 nd)).
    { unfold m3. apply node_update_eq. destruct Hw2 as (_ & Hv & _). by apply Hv. }
    assert (H2 : ldoc_length (node m2 nd) = ldoc_length (node m1 nd)).
    { apply same_kind_ldoc_length. by destruct Hrm as (_ & _ & Hk). }
    assert (H1 : node m1 nd = set_clk clock (node m nd)).
    { unfold m1. apply node_update_eq. destruct Hw as (_ & Hv & _). by apply Hv. }
    rewrite H3, H2, H1.
    change (ldoc_length (set_clk clock (node m nd))) with (ldoc_length (node m nd)).
    lia.
Qed.

Lemma fillSkipRanges_step_balanced start clock ty nd m b p f m' b' p' f' :
  fillSkipRanges_step start clock ty nd (m, b, p, f) = Ok (m', b', p', f') ->
  balanced (m, b) (m', b').
Proof.
  unfold fillSkipRanges_step.
  assert (Hgate : forall m1 b1 m4 b4,
    (if negb (NodeType_eqb (type (node m1 nd)) DUMMY)
        && Nat.eqb (LogootPosition.levels (logoot_start (node m1 nd)))
                   (LogootPosition.levels start)
        && (clk (node m1 nd) <=? clock)
     then
       let offset := (LogootPosition.l (logoot_start (node m1 nd))
                        (LogootPosition.levels start)).1
                     - (LogootPosition.l start (LogootPosition.levels start)).1 in
       let m := update nd (set_clk clock) m1 in
       s ← OperationBuffer.remove nd (ldoc_start (node m nd))
              (ldoc_length (node m nd)) (m, b1);
       let m := update nd (set_type ty) s.1 in
       OperationBuffer.insert nd (ldoc_start (node m nd)) offset
         (ldoc_length (node m nd)) (m, s.2)
     else Ok (m1, b1)) = Ok (m4, b4) -> balanced (m1, b1) (m4, b4)).
  { intros m1 b1 m4 b4.
    destruct (_ && _) eqn:Hc.
    - apply andb_true_iff in Hc as [[Hty _]%andb_true_iff _]. cbn zeta.
      match goal with
      | |- context [OperationBuffer.remove ?a ?s ?l ?st] =>
          destruct (OperationBuffer.remove a s l st) as [[m2 b2]|] eqn:Hrm; [|done]
      end.
      cbn [mbind result_bind fst snd]. intros Hins.
      eapply retype_balanced; [|exact Hrm|exact Hins].
      intros Heq. by rewrite Heq in Hty.
    - intros [= <- <-]. apply balanced_refl. }
  match goal with
  | |- context [if ?c then _ else Ok (m, b, None)] => destruct c
  end.
  - unfold alloc. cbn zeta.
    match goal with
    | |- context [OperationBuffer.insert ?a ?s ?o ?l (?mm, b)] =>
        destruct (OperationBuffer.insert a s o l (mm, b)) as [[m1 b1]|] eqn:Hins; [|done]
    end.
    apply fresh_balanced in Hins. cbn [mbind result_bind fst snd].
    match goal with
    | |- context [mbind _ ?x] => destruct x as [[m4 b4]|] eqn:Hg; [|done]
    end.
    apply Hgate in Hg. cbn [mbind result_bind]. intros [= <- <- <- <-].
    by eapply balanced_trans.
  - cbn [mbind result_bind].
    match goal with
    | |- context [mbind _ ?x] => destruct x as [[m4 b4]|] eqn:Hg; [|done]
    end.
    apply Hgate in Hg. cbn [mbind result_bind]. by intros [= <- <- <- <-].
Qed.

Lemma fillSkipRanges_balanced start clock ty sk m b filled m' b' :
  fillSkipRanges start clock ty sk (m, b) = Ok (filled, (m', b')) ->
  balanced (m, b) (m', b').
Proof.
  unfold fillSkipRanges; cbn [fst snd].
  destruct (forEachM _ sk _) as [[[[m1 b1] p1] f1]|] eqn:Hloop; [|done].
  cbn [mbind result_bind]. intros [= <- <- <-].
  apply (forEachM_preserves
           (fun s s' : ListDocumentModel * OperationBuffer.t * Z * list NodeId =>
              balanced (s.1.1.1, s.1.1.2) (s'.1.1.1, s'.1.1.2))) in Hloop; [done| | |].
  - intros s. apply balanced_refl.
  - intros s1 s2 s3. apply balanced_trans.
  - intros x [[[m0 b0] p0] f0] [[[m2 b2] p2] f2]. apply fillSkipRanges_step_balanced.
Qed.

Lemma removeLogoot_step_balanced start clock nd m b m' b' :
  nd ∈ bst m ->
  removeLogoot_step start clock nd (m, b) = Ok (m', b') ->
  balanced (m, b) (m', b').
Proof.
  intros Hin. unfold removeLogoot_step; cbn [fst snd].
  destruct (removal_applies start clock (node m nd)).
  2:{ intros [= <- <-]. apply balanced_refl. }
  destruct (OperationBuffer.remove _ _ _ _) as [[m1 b1]|] eqn:Hrm; [|done].
  cbn [mbind result_bind fst snd]. intros [= <- <-] Hw. cbn [fst snd] in *.
  pose proof (opbuf_remove_net _ _ _ _ _ _ _ Hrm) as Hnet.
  apply opbuf_remove_quiet in Hrm.
  assert (Hw1 : well_formed m1) by (by eapply quiet_well_formed).
  assert (Hin1 : nd ∈ bst m1) by (destruct Hrm as (-> & _); done).
  split; [by apply well_formed_update|]. split.
  - intros id Hid. cbn. by destruct Hrm as (-> & _).
  - rewrite total_length_update by done. rewrite (quiet_total_length _ _ Hrm), Hnet.
    assert (H1 : ldoc_length (node m1 nd) = ldoc_length (node m nd)).
    { apply same_kind_ldoc_length. by destruct Hrm as (_ & _ & Hk). }
    rewrite H1.
    change (ldoc_length (set_clk clock (set_type REMOVAL (node m1 nd)))) with 0. lia.
Qed.

Lemma removeLogoot_loop_balanced start clock rm_range :
  forall m b m' b',
  (forall nd, nd ∈ rm_range -> nd ∈ bst m) ->
  forEachM (removeLogoot_step start clock) rm_range (m, b) = Ok (m', b') ->
  balanced (m, b) (m', b').
Proof.
  induction rm_range as [|nd rest IH]; intros m b m' b' Hin; cbn [forEachM].
  - intros [= <- <-]. apply balanced_refl.
  - destruct (removeLogoot_step start clock nd (m, b)) as [[m1 b1]|] eqn:Hstep; [|done].
    cbn [mbind result_bind]. intros Hloop.
    assert (Hb1 : bst m1 = bst m).
    { revert Hstep. unfold removeLogoot_step; cbn [fst snd].
      destruct (removal_applies _ _ _); [|by intros [= <- <-]].
      destruct (OperationBuffer.remove _ _ _ _) as [[m2 b2]|] eqn:Hrm; [|done].
      cbn [mbind result_bind fst snd]. intros [= <- <-]. cbn.
      by apply opbuf_remove_quiet in Hrm as (-> & _). }
    apply removeLogoot_step_balanced in Hstep; [|apply Hin; by apply elem_of_cons; left].
    apply IH in Hloop; [by eapply balanced_trans|].
    intros x Hx. rewrite Hb1. apply Hin. by apply elem_of_cons; right.
Qed.

Lemma alloc_dummy_balanced n m b :
  type n = DUMMY -> balanced (m, b) ((alloc n m).2, b).
Proof.
  intros Hty Hw. cbn [fst snd] in *. split; [|split; [done|]].
  - apply (well_formed_ext m); [done|unfold alloc; cbn; rewrite length_app; lia| |done].
    intros id Hid. destruct (decide (id = List.length (nodes m))) as [->|Hne].
    + rewrite node_alloc_new, Hty. symmetry. by apply node_out_of_store.
    + by destruct (node_alloc_old n m id Hne) as [-> _].
  - enough (total_length (alloc n m).2 = total_length m) by lia.
    apply total_length_ext; [done|]. intros id Hid.
    destruct Hw as (_ & Hv & _). specialize (Hv id Hid).
    destruct (node_alloc_old n m id) as [_ Hn]; [lia|]. by rewrite Hn.
Qed.

Lemma splitAround_bst id k m : bst (splitAround id k m).2 = bst m.
Proof.
  unfold splitAround. cbn zeta. unfold alloc; cbn [fst snd].
  match goal with
  | |- bst (foldr ?f ?m0 ?l) = _ =>
      destruct (foldr_update_quiet (fun c => conflict_add (List.length (nodes
                 (update id (fun n => set_right_anchor
                    (RightAt (LogootPosition.offsetLowest (logoot_start (node m id)) k))
                    (set_length k n)) m)))) l m0) as (Hb & _)
  end; [by intros|].
  exact Hb.
Qed.

Lemma split_balanced id k m b :
  balanced (m, b) (DBst.add (splitAround id k m).1 (splitAround id k m).2, b).
Proof.
  intros Hw. cbn [fst snd] in *. unfold splitAround. cbn zeta.
  set (at_split := LogootPosition.offsetLowest (logoot_start (node m id)) k).
  set (g := fun n => set_right_anchor (RightAt at_split) (set_length k n)).
  set (upper := mkNode at_split (length (node m id) - k) (type (node m id))
                  (clk (node m id))
                  (ldoc_start (node m id) + match type (node m id) with DATA => k | _ => 0 end)
                  (LeftAt at_split) (right_anchor (node m id))
                  (conflict_with (node m id))).
  set (m_a := update id g m).
  assert (Hwa : well_formed m_a).
  { apply (well_formed_ext m); [done|by unfold m_a; rewrite nodes_update_length| |done].
    intros x _. unfold m_a. rewrite node_update. by case_decide as Hx; [destruct Hx as [-> _]|]. }
  pose proof (alloc_well_formed_but upper m_a Hwa) as Hbut.
  unfold alloc; cbn [fst snd]. unfold alloc in Hbut; cbn [fst snd] in Hbut.
  set (m_b := {| nodes := nodes m_a ++ [upper]; bst := bst m_a |}) in *.
  set (uid := List.length (nodes m_a)) in *.
  pose proof (foldr_update_quiet (fun _ => conflict_add uid) (conflict_with (node m id)) m_b
                ltac:(by intros)) as Hq.
  set (m_c := foldr (fun c m => update c (conflict_add uid) m) m_b
                (conflict_with (node m id))) in *.
  apply (quiet_well_formed_but _ _ _ Hq) in Hbut.
  destruct (add_well_formed uid m_c Hbut) as (Hw' & Hg & Ht).
  split; [exact Hw'|]. split.
  - intros x Hx. apply Hg. destruct Hq as (-> & _). done.
  - rewrite Ht, (quiet_total_length _ _ Hq).
    assert (Hu : ldoc_length (node m_c uid) = ldoc_length upper).
    { destruct Hq as (_ & _ & Hk). rewrite (same_kind_ldoc_length _ _ (Hk uid)).
      exact (f_equal ldoc_length (node_alloc_new upper m_a)). }
    assert (Hb : total_length m_b = total_length m_a).
    { apply total_length_ext; [done|]. intros x Hx.
      destruct Hwa as (_ & Hv & _). specialize (Hv x Hx).
      destruct (node_alloc_old upper m_a x) as [_ Hn]; [lia|].
      exact (f_equal ldoc_length (Hn Hv)). }
    rewrite Hu, Hb.
    enough (total_length m_a + ldoc_length upper = total_length m) by lia.
    destruct (decide (id ∈ bst m)) as [Hin|Hout].
    + unfold m_a. rewrite total_length_update by done.
      unfold ldoc_length, upper, g; cbn. destruct (type (node m id)); lia.
    + unfold m_a. rewrite total_length_update_out by done.
      destruct Hw as (_ & _ & Hd). unfold ldoc_length, upper; cbn. rewrite (Hd id Hout). lia.
Qed.

Lemma slice_at_balanced bnd ids :
  forall m b, balanced (m, b) ((slice_at bnd ids m).2, b).
Proof.
  induction ids as [|id rest IH]; intros m b; cbn [slice_at]; [apply balanced_refl|].
  destruct (LogootPosition.gteq _ bnd).
  - specialize (IH m b). by destruct (slice_at bnd rest m) as [[lo hi] m'].
  - destruct (_ <? _).
    + pose proof (split_balanced id (atoms_below (logoot_start (node m id))
                                       (length (node m id)) bnd) m b) as Hs.
      destruct (splitAround id _ m) as [uid m1]. cbn [fst snd] in Hs.
      specialize (IH (DBst.add uid m1) b).
      destruct (slice_at bnd rest (DBst.add uid m1)) as [[lo hi] m']. cbn [snd] in *.
      by eapply balanced_trans.
    + specialize (IH m b). by destruct (slice_at bnd rest m) as [[lo hi] m'].
Qed.

Lemma slice_at_members bnd ids :
  forall m,
  (forall x, x ∈ bst m -> x ∈ bst (slice_at bnd ids m).2)
  /\ (forall x, x ∈ (slice_at bnd ids m).1.1 ++ (slice_at bnd ids m).1.2 ->
        x ∈ ids \/ x ∈ bst (slice_at bnd ids m).2).
Proof.
  induction ids as [|id rest IH]; intros m; cbn [slice_at].
  { split; [done|]. by intros x ?%elem_of_nil. }
  destruct (LogootPosition.gteq _ bnd).
  - specialize (IH m). destruct (slice_at bnd rest m) as [[lo hi] m']. cbn [fst snd] in *.
    destruct IH as [Hg Hm]. split; [done|]. intros x Hx.
    rewrite elem_of_app, elem_of_cons in Hx. rewrite elem_of_cons.
    destruct Hx as [Hx|[->|Hx]]; [|by left; left|];
      (destruct (Hm x) as [?|?]; [apply elem_of_app; auto|auto|auto]).
  - destruct (_ <? _).
    + pose proof (splitAround_bst id (atoms_below (logoot_start (node m id))
                                        (length (node m id)) bnd) m) as Hb.
      destruct (splitAround id _ m) as [uid m1]. cbn [snd] in Hb.
      specialize (IH (DBst.add uid m1)).
      destruct (slice_at bnd rest (DBst.add uid m1)) as [[lo hi] m']. cbn [fst snd] in *.
      destruct IH as [Hg Hm].
      assert (Hadd : forall x, x = uid \/ x ∈ bst m -> x ∈ bst m').
      { intros x Hx. apply Hg. unfold DBst.add; cbn. apply elem_of_place.
        rewrite Hb. done. }
      split; [auto|]. intros x Hx.
      rewrite elem_of_app, !elem_of_cons in Hx. rewrite elem_of_cons.
      destruct Hx as [[->|Hx]|[->|Hx]]; [by left; left| |by right; auto|];
        (destruct (Hm x) as [?|?]; [apply elem_of_app; auto|auto|auto]).
    + specialize (IH m). destruct (slice_at bnd rest m) as [[lo hi] m']. cbn [fst snd] in *.
      destruct IH as [Hg Hm]. split; [done|]. intros x Hx.
      rewrite elem_of_app, elem_of_cons in Hx. rewrite elem_of_cons.
      destruct Hx as [[->|Hx]|Hx]; [by left; left| |];
        (destruct (Hm x) as [?|?]; [apply elem_of_app; auto|auto|auto]).
Qed.

Lemma sliceNodesIntoRanges_balanced bs :
  forall ids m b, balanced (m, b) ((sliceNodesIntoRanges bs ids m).2, b).
Proof.
  induction bs as [|bnd bs IH]; intros ids m b; cbn [sliceNodesIntoRanges];
    [apply balanced_refl|].
  pose proof (slice_at_balanced bnd ids m b) as Hs.
  destruct (slice_at bnd ids m) as [[lo hi] m1]. cbn [snd] in Hs.
  specialize (IH hi m1 b). destruct (sliceNodesIntoRanges bs hi m1) as [groups m2].
  cbn [snd] in *. by eapply balanced_trans.
Qed.

Lemma sliceNodesIntoRanges_members bs :
  forall ids m,
  (forall x, x ∈ ids -> x ∈ bst m) ->
  (forall x, x ∈ bst m -> x ∈ bst (sliceNodesIntoRanges bs ids m).2)
  /\ (forall g x, g ∈ (sliceNodesIntoRanges bs ids m).1 -> x ∈ g ->
        x ∈ bst (sliceNodesIntoRanges bs ids m).2).
Proof.
  induction bs as [|bnd bs IH]; intros ids m Hids; cbn [sliceNodesIntoRanges].
  { split; [done|]. intros g x ->%list_elem_of_singleton. apply Hids. }
  destruct (slice_at_members bnd ids m) as [Hg Hm].
  destruct (slice_at bnd ids m) as [[lo hi] m1]. cbn [fst snd] in *.
  assert (Hall : forall x, x ∈ lo ++ hi -> x ∈ bst m1).
  { intros x Hx. destruct (Hm x Hx) as [?|?]; auto. }
  destruct (IH hi m1) as [Hg2 Hm2].
  { intros x Hx. apply Hall, elem_of_app. by right. }
  destruct (sliceNodesIntoRanges bs hi m1) as [groups m2]. cbn [fst snd] in *.
  split; [auto|]. intros g x [->|Hgin]%elem_of_cons Hx.
  - apply Hg2, Hall, elem_of_app. by left.
  - by eapply Hm2.
Qed.

Lemma prefSearch_members m min max bounds x :
  x ∈ ((fun e => e.2) <$> lesser (DBst.prefSearch m min max bounds))
       ++ ((fun e => e.2) <$> range (DBst.prefSearch m min max bounds))
       ++ ((fun e => e.2) <$> greater (DBst.prefSearch m min max bounds)) ->
  x ∈ bst m.
Proof.
  unfold DBst.prefSearch; cbn [lesser range greater].
  rewrite !elem_of_app, <- !list_fmap_compose.
  assert (Hopt : forall (o : option NodeId) (l : list NodeId),
            (forall y, o = Some y -> y ∈ l) ->
            x ∈ ((fun e : NodeId * NodeId => e.2) ∘ (fun i => (i, i))) <$> option_list o ->
            x ∈ l).
  { intros [y|] l Hy; cbn; [|by intros ?%elem_of_nil].
    intros ->%list_elem_of_singleton. by apply Hy. }
  intros [Hx|[Hx|Hx]].
  - eapply Hopt in Hx.
    2:{ intros y Hy. apply last_Some_elem_of in Hy. exact Hy. }
    by apply list_elem_of_filter in Hx as [_ ?].
  - apply list_elem_of_fmap in Hx as (y & -> & Hy). cbn.
    by apply list_elem_of_filter in Hy as [_ ?].
  - eapply Hopt in Hx.
    2:{ intros y Hy. apply head_Some_elem_of in Hy. exact Hy. }
    by apply list_elem_of_filter in Hx as [_ ?].
Qed.

Lemma constructSkipRanges_balanced left start end_ right m b :
  balanced (m, b) ((constructSkipRanges left start end_ right m).2, b).
Proof.
  unfold constructSkipRanges.
  match goal with
  | |- context [sliceNodesIntoRanges ?bs ?ids m] =>
      pose proof (sliceNodesIntoRanges_balanced bs ids m b) as Hs;
      destruct (sliceNodesIntoRanges bs ids m) as [groups m1]
  end.
  cbn [snd] in Hs. cbn zeta.
  destruct left as [l|], right as [r|]; cbn [fst snd];
    (destruct (last (groups !!! 2%nat)) as [i0|] eqn:Hlast;
     [destruct (LogootPosition.lt (logoot_end (node m1 i0)) end_) eqn:Hlt|]);
    cbn [fst snd]; try exact Hs.
  all: match goal with
       | |- context [alloc ?n ?mm] =>
           pose proof (alloc_dummy_balanced n mm b eq_refl) as Ha;
           destruct (alloc n mm) as [d m2]
       end; cbn [fst snd] in *; by eapply balanced_trans.
Qed.

Lemma insertLogoot_balanced
  (newBetween : BranchKey -> Z -> option LogootPosition.t -> option LogootPosition.t
                -> LogootPosition.t)
  br left right len clock m ops m' :
  insertLogoot newBetween br left right len clock m = Ok (ops, m') ->
  well_formed m ->
  well_formed m'
  /\ (forall id, id ∈ bst m -> id ∈ bst m')
  /\ total_length m' = total_length m + net_length ops.
Proof.
  intros (b1 & filled & m2 & b2 & Hb1 & _ & Hfill & Hq & ->)%insertLogoot_steps Hw.
  apply fillSkipRanges_balanced in Hfill.
  pose proof (constructSkipRanges_balanced left (newBetween br len left right)
                (LogootPosition.offsetLowest (newBetween br len left right) len)
                right m b1) as Hc.
  destruct (balanced_trans _ _ _ Hc Hfill Hw) as (Hw2 & Hg & He). cbn [fst snd] in *.
  rewrite Hb1 in He. change (net_length []) with 0 in He.
  split; [by eapply quiet_well_formed|]. split.
  - intros id Hid. destruct Hq as (-> & _). by apply Hg.
  - rewrite (quiet_total_length _ _ Hq). lia.
Qed.

Lemma removeLogoot_balanced start len clock m ops m' :
  removeLogoot start len clock m = Ok (ops, m') ->
  well_formed m ->
  well_formed m'
  /\ (forall id, id ∈ bst m -> id ∈ bst m')
  /\ total_length m' = total_length m + net_length ops.
Proof.
  intros (m2 & b2 & Hloop & Hq & ->)%removeLogoot_steps Hw.
  match type of Hloop with
  | context [sliceNodesIntoRanges ?bs ?ids m] =>
      pose proof (sliceNodesIntoRanges_balanced bs ids m (OperationBuffer.new 0)) as Hs;
      destruct (sliceNodesIntoRanges_members bs ids m) as [_ Hm];
      [intros x Hx; by eapply prefSearch_members|];
      destruct (sliceNodesIntoRanges bs ids m) as [groups m1]
  end.
  cbn [fst snd] in *.
  apply removeLogoot_loop_balanced in Hloop.
  2:{ intros nd Hnd. apply (Hm (groups !!! 1%nat)); [|done].
      destruct (decide (1 < List.length groups)%nat) as [Hlt|Hge].
      - by apply list_elem_of_lookup_total_2.
      - rewrite list_lookup_total_alt, lookup_ge_None_2 in Hnd by lia.
        by apply elem_of_nil in Hnd. }
  destruct (balanced_trans _ _ _ Hs Hloop Hw) as (Hw2 & Hg & He). cbn [fst snd] in *.
  change (net_length (OperationBuffer.operations (OperationBuffer.new 0))) with 0 in He.
  split; [by eapply quiet_well_formed|]. split.
  - intros id Hid. destruct Hq as (-> & _). by apply Hg.
  - rewrite (quiet_total_length _ _ Hq). lia.
Qed.

Lemma removal_doc_well_formed : well_formed removal_doc.
Proof.
  split; [by apply (bool_decide_unpack _)|]. split.
  - intros id Hid. cbn in *.
    repeat (apply elem_of_cons in Hid as [->|Hid]); [lia..|by apply elem_of_nil in Hid].
  - intros id Hid. apply node_out_of_store. cbn in *.
    destruct id as [|[|[|id]]]; [exfalso; apply Hid; repeat constructor..|lia].
Qed.

(** X16: on a well-formed model, the operations that [insertLogoot]
    returns account for the change of the local document: the sum of
    [ldoc_length] over the tree grows by the lengths of the [insert]
    operations less the lengths of the [remove] operations. *)
Theorem insertLogoot_length
  (newBetween : BranchKey -> Z -> option LogootPosition.t -> option LogootPosition.t
                -> LogootPosition.t)
  (br : BranchKey) (left right : option LogootPosition.t) (len clock : Z)
  (m m' : ListDocumentModel) (ops : list Operation) :
  well_formed m ->
  insertLogoot newBetween br left right len clock m = Ok (ops, m') ->
  total_length m' = total_length m + net_length ops.
Proof. intros Hw Hrun. by apply insertLogoot_balanced in Hrun as (_ & _ & ?). Qed.

Lemma insertLogoot_length_witness :
  exists ops m',
    insertLogoot sample_generator 0%nat None None 6 1 removal_doc = Ok (ops, m')
    /\ total_length removal_doc = 5
    /\ net_length ops = 2
    /\ total_length m' = 7.
Proof.
  eexists _, _. split; [vm_compute; reflexivity|].
  split; [reflexivity|]. split; [reflexivity|].
  rewrite (insertLogoot_length sample_generator 0%nat None None 6 1 removal_doc _ _
             removal_doc_well_formed ltac:(vm_compute; reflexivity)).
  reflexivity.
Defined.

(** X17: on a well-formed model, the operations that [removeLogoot]
    returns account for the change of the local document: the sum of
    [ldoc_length] over the tree shrinks by the lengths of the [remove]
    operations returned. *)
Theorem removeLogoot_length (start : LogootPosition.t) (len clock : Z)
  (m m' : ListDocumentModel) (ops : list Operation) :
  well_formed m ->
  removeLogoot start len clock m = Ok (ops, m') ->
  total_length m' = total_length m + net_length ops.
Proof. intros Hw Hrun. by apply removeLogoot_balanced in Hrun as (_ & _ & ?). Qed.

Lemma removeLogoot_length_witness :
  exists ops m',
    removeLogoot [(0, 0%nat)] 4 1 removal_doc = Ok (ops, m')
    /\ total_length removal_doc = 5
    /\ net_length ops = -2
    /\ total_length m' = 3.
Proof.
  eexists _, _. split; [vm_compute; reflexivity|].
  split; [reflexivity|]. split; [reflexivity|].
  rewrite (removeLogoot_length [(0, 0%nat)] 4 1 removal_doc _ _
             removal_doc_well_formed ltac:(vm_compute; reflexivity)).
  reflexivity.
Defined.

(** X18: [insertLogoot] keeps a well-formed model well-formed: no node
    comes to be in the tree twice, the nodes left outside the tree are
    [DUMMY] nodes, and no node of the tree is taken out of it. *)
Theorem insertLogoot_keeps_tree
  (newBetween : BranchKey -> Z -> option LogootPosition.t -> option LogootPosition.t
                -> LogootPosition.t)
  (br : BranchKey) (left right : option LogootPosition.t) (len clock : Z)
  (m m' : ListDocumentModel) (ops : list Operation) :
  well_formed m ->
  insertLogoot newBetween br left right len clock m = Ok (ops, m') ->
  well_formed m' /\ forall id, id ∈ bst m -> id ∈ bst m'.
Proof. intros Hw Hrun. by apply insertLogoot_balanced in Hrun as (? & ? & _). Qed.

Lemma insertLogoot_keeps_tree_witness :
  exists ops m',
    insertLogoot sample_generator 0%nat None None 6 1 removal_doc = Ok (ops, m')
    /\ well_formed m' /\ 1%nat ∈ bst m'.
Proof.
  eexists _, _. split; [vm_compute; reflexivity|].
  destruct (insertLogoot_keeps_tree sample_generator 0%nat None None 6 1 removal_doc _ _
              removal_doc_well_formed ltac:(vm_compute; reflexivity)) as [Hw Hg].
  split; [exact Hw|]. apply Hg. cbn. repeat constructor.
Defined.

(** X19: [removeLogoot] keeps a well-formed model well-formed, and no node
    of the tree is taken out of it: a removed node stays in the tree as a
    tombstone. *)
Theorem removeLogoot_keeps_tree (start : LogootPosition.t) (len clock : Z)
  (m m' : ListDocumentModel) (ops : list Operation) :
  well_formed m ->
  removeLogoot start len clock m = Ok (ops, m') ->
  well_formed m' /\ forall id, id ∈ bst m -> id ∈ bst m'.
Proof. intros Hw Hrun. by apply removeLogoot_balanced in Hrun as (? & ? & _). Qed.

Lemma removeLogoot_keeps_tree_witness :
  exists ops m',
    removeLogoot [(0, 0%nat)] 4 1 removal_doc = Ok (ops, m')
    /\ well_formed m' /\ 0%nat ∈ bst m' /\ type (node m' 0%nat) = REMOVAL.
Proof.
  eexists _, _. split; [vm_compute; reflexivity|].
  destruct (removeLogoot_keeps_tree [(0, 0%nat)] 4 1 removal_doc _ _
              removal_doc_well_formed ltac:(vm_compute; reflexivity)) as [Hw Hg].
  split; [exact Hw|]. split; [|reflexivity]. apply Hg. cbn. repeat constructor.
Defined.

(** ** The first operations on an empty document *)

Lemma l_offsetLowest start k :
  start <> [] ->
  LogootPosition.l (LogootPosition.offsetLowest start k) (LogootPosition.levels start)
  = ((LogootPosition.l start (LogootPosition.levels start)).1 + k,
     (LogootPosition.l start (LogootPosition.levels start)).2).
Proof.
  induction start as [|[i b] p IH]; [done|]. intros _.
  destruct p as [|y p]; [done|].
  specialize (IH ltac:(done)).
  change (LogootPosition.offsetLowest ((i, b) :: y :: p) k)
    with ((i, b) :: LogootPosition.offsetLowest (y :: p) k).
  exact IH.
Qed.

Lemma assign_same start :
  LogootPosition.assign start (LogootPosition.levels start)
    (LogootPosition.l start (LogootPosition.levels start)).1 = start.
Proof.
  unfold LogootPosition.assign.
  induction start as [|[i b] p IH]; [done|].
  destruct p as [|y p]; [done|].
  change (LogootPosition.levels ((i, b) :: y :: p)) with (S (LogootPosition.levels (y :: p))).
  cbn [alter list_alter]. f_equal. exact IH.
Qed.

Lemma constructSkipRanges_empty start end_ :
  constructSkipRanges None start end_ None emptyLdm
  = (mkSkipRanges None [] [0%nat] [] None,
     mkLdm [set_value 0 (newNode end_ 0 DUMMY 0)] []).
Proof. reflexivity. Qed.

Lemma fillSkipRanges_empty start len clock :
  0 < len -> start <> [] ->
  let end_ := LogootPosition.offsetLowest start len in
  fillSkipRanges start clock DATA [0%nat]
    (mkLdm [set_value 0 (newNode end_ 0 DUMMY 0)] [],
     OperationBuffer.set_dummy_node 0%nat (OperationBuffer.new len))
  = Ok ([1%nat],
        (mkLdm [set_value len (newNode end_ 0 DUMMY 0);
                mkNode start len DATA clock 0 DocStart DocEnd []] [1%nat],
         OperationBuffer.mk [InsertionOperation 0 0 len] (Some 0%nat) len)).
Proof.
  intros Hlen Hne end_.
  assert (Hl : (LogootPosition.l end_ (LogootPosition.levels start)).1
               - (LogootPosition.l start (LogootPosition.levels start)).1 = len).
  { unfold end_. rewrite l_offsetLowest by done. cbn [fst]. lia. }
  clearbody end_.
  unfold fillSkipRanges, forEachM, fillSkipRanges_step.
  unfold node.
  cbn -[LogootPosition.l LogootPosition.levels LogootPosition.offsetLowest
        LogootPosition.assign Z.sub Z.add Z.gtb Z.ltb Z.eqb Z.geb Z.leb].
  rewrite !Hl, !Z.sub_diag, !assign_same.
  destruct (Z.gtb_spec len 0); [|lia].
  unfold OperationBuffer.insert. cbn [fst snd].
  destruct (Z.eqb_spec len 0); [lia|].
  destruct (Z.ltb_spec len 0); [lia|].
  change (0 <? 0) with false. cbn [OperationBuffer.length_avail
    OperationBuffer.set_dummy_node OperationBuffer.new].
  destruct (Z.gtb_spec (0 + len) len); [lia|].
  unfold OperationBuffer.mirror, node, DBst.add, update, DBst.inorder_successor.
  cbn -[LogootPosition.l LogootPosition.levels LogootPosition.offsetLowest
        LogootPosition.assign Z.sub Z.add Z.gtb Z.ltb Z.eqb Z.geb Z.leb].
  change (0 >=? 0) with true.
  cbn -[LogootPosition.l LogootPosition.levels LogootPosition.offsetLowest
        LogootPosition.assign Z.sub Z.add Z.gtb Z.ltb Z.eqb Z.geb Z.leb].
  rewrite Z.add_0_l. reflexivity.
Qed.

Lemma linkFilledSkipRanges_single i m :
  linkFilledSkipRanges None None [i] m = m.
Proof.
  unfold linkFilledSkipRanges. rewrite filter_cons, filter_nil.
  case_decide; reflexivity.
Qed.

Lemma insertLogootAt_empty start len clock :
  0 < len -> start <> [] ->
  insertLogootAt start None None len clock emptyLdm
  = Ok ([InsertionOperation 0 0 len], first_doc start len clock).
Proof.
  intros Hlen Hne. unfold insertLogootAt.
  rewrite constructSkipRanges_empty.
  cbn [skip_ranges last node nodes lookup_total list_lookup_total type set_value newNode NodeType_eqb].
  match goal with
  | |- context [if ?c then OperationBuffer.set_dummy_node _ _ else _] =>
      change c with true
  end.
  cbv iota.
  rewrite (fillSkipRanges_empty start len clock Hlen Hne).
  cbn [mbind result_bind]. rewrite linkFilledSkipRanges_single.
  fold (first_doc start len clock).
  unfold fillRangeConflicts, patchRemovalAnchors.
  cbn -[LogootPosition.l LogootPosition.levels LogootPosition.offsetLowest
        LogootPosition.assign Z.sub Z.add Z.gtb Z.ltb Z.eqb Z.geb Z.leb first_doc].
  change (NodeType_eqb (type (node (first_doc start len clock) 1%nat)) DATA) with true.
  reflexivity.
Qed.

Lemma cmp_offsetLowest p a b :
  p <> [] ->
  LogootPosition.cmp (LogootPosition.offsetLowest p a) (LogootPosition.offsetLowest p b)
  = Z.compare a b.
Proof.
  intros Hp. induction p as [|[i br] p IH]; [done|].
  destruct p as [|y p].
  - cbn. rewrite Nat.compare_refl.
    destruct (Z.compare_spec a b), (Z.compare_spec (i + a) (i + b)); try lia; done.
  - change (LogootPosition.offsetLowest ((i, br) :: y :: p) ?k)
      with ((i, br) :: LogootPosition.offsetLowest (y :: p) k).
    cbn [LogootPosition.cmp]. rewrite Z.compare_refl, Nat.compare_refl.
    by apply IH.
Qed.

Lemma atoms_below_end start len :
  start <> [] -> 0 <= len ->
  atoms_below start len (LogootPosition.offsetLowest start len) = len.
Proof.
  intros Hne Hlen. unfold atoms_below.
  assert (Hall : forall l : list nat, (forall j, j ∈ l -> (j < Z.to_nat len)%nat) ->
    filter (fun j => LogootPosition.lt (LogootPosition.offsetLowest start (Z.of_nat j))
                       (LogootPosition.offsetLowest start len) = true) l = l).
  { intros l. induction l as [|x l IH]; intros Hl; [done|].
    rewrite filter_cons. rewrite decide_True.
    - f_equal. apply IH. intros j Hj. apply Hl. by right.
    - unfold LogootPosition.lt. rewrite cmp_offsetLowest by done.
      assert (x < Z.to_nat len)%nat by (apply Hl; by left).
      by destruct (Z.compare_spec (Z.of_nat x) len); try lia. }
  rewrite Hall.
  - rewrite length_seq. lia.
  - intros j Hj. apply elem_of_seq in Hj. lia.
Qed.

Lemma cmp_end start len :
  start <> [] -> 0 < len ->
  LogootPosition.cmp start (LogootPosition.offsetLowest start len) = Lt.
Proof.
  intros Hne Hlen. rewrite <- (offsetLowest_0 start) at 1.
  rewrite cmp_offsetLowest by done. by apply Z.compare_lt_iff.
Qed.

Lemma removeLogoot_first_doc start len clock clock' :
  0 < len -> start <> [] ->
  removeLogoot start len clock' (first_doc start len clock)
  = Ok (if clock <=? clock'
        then ([RemovalOperation 0 len],
              mkLdm [set_value len
                       (newNode (LogootPosition.offsetLowest start len) 0 DUMMY 0);
                     mkNode start len REMOVAL clock' 0 DocStart DocEnd []] [1%nat])
        else ([], first_doc start len clock)).
Proof.
  intros Hlen Hne. unfold removeLogoot, DBst.prefSearch, first_doc.
  cbn [bst]. rewrite !filter_cons, !filter_nil.
  unfold node. cbn [nodes lookup_total list_lookup_total logoot_start DBst.below DBst.above].
  rewrite lt_irrefl. unfold LogootPosition.gteq, LogootPosition.lt.
  rewrite cmp_end by done.
  cbn -[LogootPosition.offsetLowest LogootPosition.cmp atoms_below
        Z.sub Z.add Z.gtb Z.ltb Z.eqb Z.geb Z.leb].
  unfold node, LogootPosition.gteq, LogootPosition.lt.
  cbn -[LogootPosition.offsetLowest LogootPosition.cmp atoms_below
        Z.sub Z.add Z.gtb Z.ltb Z.eqb Z.geb Z.leb].
  rewrite (decide_False (P:=false = true)) by done.
  rewrite (decide_True (P:=false = false ∧ false = false)) by done.
  rewrite (decide_False (P:=false = false ∧ false = true)) by (by intros [_ ?]).
  cbn -[LogootPosition.offsetLowest LogootPosition.cmp atoms_below
        Z.sub Z.add Z.gtb Z.ltb Z.eqb Z.geb Z.leb].
  unfold node, LogootPosition.gteq, LogootPosition.lt.
  cbn -[LogootPosition.offsetLowest LogootPosition.cmp atoms_below
        Z.sub Z.add Z.gtb Z.ltb Z.eqb Z.geb Z.leb].
  rewrite cmp_refl. cbn [negb].
  cbn -[LogootPosition.offsetLowest LogootPosition.cmp atoms_below
        Z.sub Z.add Z.gtb Z.ltb Z.eqb Z.geb Z.leb].
  unfold node, LogootPosition.gteq, LogootPosition.lt.
  cbn -[LogootPosition.offsetLowest LogootPosition.cmp atoms_below
        Z.sub Z.add Z.gtb Z.ltb Z.eqb Z.geb Z.leb].
  rewrite cmp_end by done. cbn [negb].
  rewrite atoms_below_end by (done || lia). rewrite Z.ltb_irrefl.
  cbn -[LogootPosition.offsetLowest LogootPosition.cmp atoms_below
        Z.sub Z.add Z.gtb Z.ltb Z.eqb Z.geb Z.leb].
  unfold removeLogoot_step, removal_applies, node.
  cbn [fst snd nodes lookup_total list_lookup_total clk logoot_start].
  rewrite Nat.eqb_refl, andb_true_r.
  destruct (clock <=? clock'); [|reflexivity].
  unfold OperationBuffer.remove.
  cbn [ldoc_start ldoc_length value type length].
  destruct (Z.eqb_spec len 0); [lia|].
  destruct (Z.ltb_spec len 0); [lia|].
  reflexivity.
Qed.

(** X20: the first insertion into an empty document.  [insertLogoot] of
    [len > 0] atoms returns the one operation that inserts all of them at
    local offset 0, and leaves one [DATA] node in the tree: it starts at
    the generated position, has the given clock, is anchored at the start
    and at the end of the document and conflicts with nothing; [selfTest]
    accepts the model. *)
Theorem insertLogoot_first
  (newBetween : BranchKey -> Z -> option LogootPosition.t -> option LogootPosition.t
                -> LogootPosition.t)
  (br : BranchKey) (len clock : Z) :
  0 < len -> newBetween br len None None <> [] ->
  let r := insertLogoot newBetween br None None len clock emptyLdm in
  outcome r = Some ([InsertionOperation 0 0 len],
                    [mkView (newBetween br len None None) len DATA clock 0
                            DocStart DocEnd []])
  /\ selfTest_after r = Some (Ok ()).
Proof.
  intros Hlen Hne r. unfold r, insertLogoot.
  rewrite insertLogootAt_empty by done.
  split; [reflexivity|].
  unfold selfTest_after, selfTest, first_doc, forEachM, selfTest_node, node.
  cbn -[Z.ltb].
  destruct (Z.ltb_spec len 1); [lia|].
  reflexivity.
Qed.

Lemma insertLogoot_first_witness :
  outcome (insertLogoot sample_generator 0%nat None None 3 7 emptyLdm)
  = Some ([InsertionOperation 0 0 3],
          [mkView [(0, 0%nat)] 3 DATA 7 0 DocStart DocEnd []])
  /\ selfTest_after (insertLogoot sample_generator 0%nat None None 3 7 emptyLdm)
     = Some (Ok ()).
Proof. apply (insertLogoot_first sample_generator 0%nat 3 7); [lia|done]. Defined.

(** X21: inserting a run into an empty document and then removing exactly
    that run.  When the removal's clock is not below the insertion's, the
    removal returns the one operation that removes the [len] atoms at local
    offset 0, and the node stays in the tree as a [REMOVAL] with the
    removal's clock and the same anchors; when the removal's clock is
    below, it returns no operation and the node is as the insertion left
    it.  In both cases [selfTest] accepts the model. *)
Theorem insertLogoot_removeLogoot_first
  (newBetween : BranchKey -> Z -> option LogootPosition.t -> option LogootPosition.t
                -> LogootPosition.t)
  (br : BranchKey) (len clock clock' : Z) :
  0 < len -> newBetween br len None None <> [] ->
  let start := newBetween br len None None in
  let r := andThen (insertLogoot newBetween br None None len clock emptyLdm)
                   (removeLogoot start len clock') in
  outcome r
  = Some (if clock <=? clock'
          then ([RemovalOperation 0 len],
                [mkView start len REMOVAL clock' 0 DocStart DocEnd []])
          else ([], [mkView start len DATA clock 0 DocStart DocEnd []]))
  /\ selfTest_after r = Some (Ok ()).
Proof.
  intros Hlen Hne start r. unfold r, andThen, insertLogoot. fold start.
  rewrite insertLogootAt_empty by done.
  cbn [mbind result_bind snd].
  rewrite removeLogoot_first_doc by done.
  unfold selfTest_after, selfTest, first_doc, forEachM, selfTest_node, node.
  destruct (clock <=? clock').
  - split; [reflexivity|]. cbn -[Z.ltb].
    destruct (Z.ltb_spec len 1); [lia|]. reflexivity.
  - split; [reflexivity|]. cbn -[Z.ltb].
    destruct (Z.ltb_spec len 1); [lia|]. reflexivity.
Qed.

Lemma insertLogoot_removeLogoot_first_witness :
  outcome (andThen (insertLogoot sample_generator 0%nat None None 3 7 emptyLdm)
                   (removeLogoot [(0, 0%nat)] 3 9))
  = Some ([RemovalOperation 0 3],
          [mkView [(0, 0%nat)] 3 REMOVAL 9 0 DocStart DocEnd []])
  /\ selfTest_after
       (andThen (insertLogoot sample_generator 0%nat None None 3 7 emptyLdm)
                (removeLogoot [(0, 0%nat)] 3 9))
     = Some (Ok ()).
Proof.
  apply (insertLogoot_removeLogoot_first sample_generator 0%nat 3 7 9); [lia|done].
Defined.

(** ** The gate of [removeLogoot] on the whole call *)

Lemma splitAround_alloc id k m :
  (splitAround id k m).1 = List.length (nodes m)
  /\ List.length (nodes (splitAround id k m).2) = S (List.length (nodes m)).
Proof.
  unfold splitAround. cbn zeta. unfold alloc; cbn [fst snd].
  rewrite nodes_update_length. split; [done|].
  match goal with
  | |- List.length (nodes (foldr ?f ?m0 ?l)) = _ =>
      destruct (foldr_update_quiet
                  (fun c => conflict_add (List.length (nodes m))) l m0) as (_ & Hl & _)
  end; [by intros|].
  rewrite Hl. cbn [nodes]. rewrite length_app, nodes_update_length. cbn. lia.
Qed.

Lemma slice_at_groups bnd ids :
  forall m,
  (List.length (nodes m) <= List.length (nodes (slice_at bnd ids m).2))%nat
  /\ (forall x, x ∈ (slice_at bnd ids m).1.1 -> x ∈ ids)
  /\ (forall x, x ∈ (slice_at bnd ids m).1.2 ->
        x ∈ ids
        \/ (List.length (nodes m) <= x < List.length (nodes (slice_at bnd ids m).2))%nat)
  /\ (NoDup ids -> (forall x, x ∈ ids -> (x < List.length (nodes m))%nat) ->
      NoDup (slice_at bnd ids m).1.1 /\ NoDup (slice_at bnd ids m).1.2).
Proof.
  induction ids as [|id rest IH]; intros m; cbn [slice_at].
  { cbn. split; [lia|]. split; [done|]. split; [by left|]. intros _ _. split; constructor. }
  destruct (LogootPosition.gteq _ bnd).
  - specialize (IH m). destruct (slice_at bnd rest m) as [[lo hi] m']. cbn [fst snd] in *.
    destruct IH as (Hlen & Hlo & Hhi & Hnd).
    split; [done|]. split; [by intros x ?; right; apply Hlo|]. split.
    + intros x [->|Hx]%elem_of_cons; [by left; left|].
      destruct (Hhi x Hx) as [?|?]; [by left; right|by right].
    + intros [Hfresh Hrest]%NoDup_cons Hvalid.
      destruct Hnd as [Hn1 Hn2]; [done|by intros x ?; apply Hvalid; right|].
      split; [done|]. apply NoDup_cons. split; [|done].
      intros Hin. destruct (Hhi id Hin) as [?|?]; [done|].
      assert (id < List.length (nodes m))%nat by (apply Hvalid; by left). lia.
  - destruct (_ <? _).
    + destruct (splitAround_alloc id (atoms_below (logoot_start (node m id))
                                        (length (node m id)) bnd) m) as [Huid Hl1].
      destruct (splitAround id _ m) as [uid m1]. cbn [fst snd] in Huid, Hl1.
      specialize (IH (DBst.add uid m1)).
      destruct (slice_at bnd rest (DBst.add uid m1)) as [[lo hi] m']. cbn [fst snd] in *.
      change (nodes (DBst.add uid m1)) with (nodes m1) in IH.
      destruct IH as (Hlen & Hlo & Hhi & Hnd).
      split; [lia|]. split.
      { intros x [->|Hx]%elem_of_cons; [by left|]. right. by apply Hlo. }
      split.
      { intros x [->|Hx]%elem_of_cons; [right; lia|].
        destruct (Hhi x Hx) as [?|?]; [by left; right|right; lia]. }
      intros [Hfresh Hrest]%NoDup_cons Hvalid.
      destruct Hnd as [Hn1 Hn2];
        [done|intros x ?; assert (x < List.length (nodes m))%nat by (apply Hvalid; by right); lia|].
      split; apply NoDup_cons; (split; [|done]).
      * intros Hin. by apply Hlo in Hin.
      * intros Hin. destruct (Hhi uid Hin) as [Hr|Hr]; [|lia].
        assert (uid < List.length (nodes m))%nat by (apply Hvalid; by right). lia.
    + specialize (IH m). destruct (slice_at bnd rest m) as [[lo hi] m']. cbn [fst snd] in *.
      destruct IH as (Hlen & Hlo & Hhi & Hnd).
      split; [done|]. split.
      { intros x [->|Hx]%elem_of_cons; [by left|]. right. by apply Hlo. }
      split.
      { intros x Hx. destruct (Hhi x Hx) as [?|?]; [by left; right|by right]. }
      intros [Hfresh Hrest]%NoDup_cons Hvalid.
      destruct Hnd as [Hn1 Hn2]; [done|by intros x ?; apply Hvalid; right|].
      split; [|done]. apply NoDup_cons. split; [|done].
      intros Hin. by apply Hlo in Hin.
Qed.

Lemma sliceNodesIntoRanges_NoDup bs :
  forall ids m,
  NoDup ids -> (forall x, x ∈ ids -> (x < List.length (nodes m))%nat) ->
  forall g, g ∈ (sliceNodesIntoRanges bs ids m).1 -> NoDup g.
Proof.
  induction bs as [|bnd bs IH]; intros ids m Hnd Hvalid; cbn [sliceNodesIntoRanges].
  { by intros g ->%list_elem_of_singleton. }
  destruct (slice_at_groups bnd ids m) as (Hlen & Hlo & Hhi & Hn).
  destruct Hn as [Hn1 Hn2]; [done..|].
  destruct (slice_at bnd ids m) as [[lo hi] m1]. cbn [fst snd] in *.
  specialize (IH hi m1 Hn2).
  destruct (sliceNodesIntoRanges bs hi m1) as [groups m2]. cbn [fst snd] in *.
  intros g [->|Hg]%elem_of_cons; [done|].
  apply IH; [|done]. intros x Hx. destruct (Hhi x Hx) as [Hin|?]; [|lia].
  apply Hvalid in Hin. lia.
Qed.

Lemma prefSearch_NoDup m min max bounds :
  NoDup (bst m) ->
  NoDup (((fun e => e.2) <$> lesser (DBst.prefSearch m min max bounds))
         ++ ((fun e => e.2) <$> range (DBst.prefSearch m min max bounds))
         ++ ((fun e => e.2) <$> greater (DBst.prefSearch m min max bounds))).
Proof.
  intros Hnd. unfold DBst.prefSearch; cbn [lesser range greater].
  rewrite <- !list_fmap_compose.
  assert (Hid : forall l : list NodeId,
            ((fun e : NodeId * NodeId => e.2) ∘ (fun i => (i, i))) <$> l = l).
  { intros l. induction l as [|x l IHl]; [done|]. cbn. by rewrite IHl. }
  rewrite !Hid.
  set (key i := logoot_start (node m i)).
  set (lo := filter (fun i => DBst.below bounds min (key i) = true) (bst m)).
  set (hi := filter (fun i => DBst.below bounds min (key i) = false
                              /\ DBst.above bounds max (key i) = true) (bst m)).
  set (mid := filter (fun i => DBst.below bounds min (key i) = false
                               /\ DBst.above bounds max (key i) = false) (bst m)).
  assert (Hl : forall x, x ∈ option_list (last lo) -> DBst.below bounds min (key x) = true).
  { intros x Hx. destruct (last lo) as [y|] eqn:Hy; cbn in Hx; [|by apply elem_of_nil in Hx].
    apply list_elem_of_singleton in Hx as ->. apply last_Some_elem_of in Hy.
    by apply list_elem_of_filter in Hy as [? _]. }
  assert (Hh : forall x, x ∈ option_list (head hi) ->
            DBst.below bounds min (key x) = false /\ DBst.above bounds max (key x) = true).
  { intros x Hx. destruct (head hi) as [y|] eqn:Hy; cbn in Hx; [|by apply elem_of_nil in Hx].
    apply list_elem_of_singleton in Hx as ->. apply head_Some_elem_of in Hy.
    by apply list_elem_of_filter in Hy as [? _]. }
  assert (Ho : forall o : option NodeId, NoDup (option_list o)).
  { intros [y|]; cbn; [apply NoDup_singleton|constructor]. }
  apply NoDup_app. split; [apply Ho|]. split.
  - intros x Hx [Hm|Hg]%elem_of_app; apply Hl in Hx.
    + apply list_elem_of_filter in Hm as [[? _] _]. unfold key in *. congruence.
    + apply Hh in Hg as [? _]. congruence.
  - apply NoDup_app. split; [by apply NoDup_filter|]. split; [|apply Ho].
    intros x Hx Hg. apply list_elem_of_filter in Hx as [[_ ?] _].
    apply Hh in Hg as [_ ?]. unfold key in *. congruence.
Qed.

(** C5, amended: [removeLogoot] on the nodes of the sliced removal range,
    each taken as the slicing leaves it.  A node whose clock is at most the
    given clock and whose [logoot_start] has the nesting length of [start]
    is a [REMOVAL] with the given clock when [removeLogoot] returns; a node
    with a higher clock or another nesting length has the type and the
    clock it had; and the operations returned are one [remove] for each
    node of the first kind whose [ldoc_length] is not zero, of that
    length, in the order of the range, and nothing else. *)
Theorem removeLogoot_gate (start : LogootPosition.t) (len clock : Z)
  (m m' : ListDocumentModel) (ops : list Operation) :
  well_formed m ->
  removeLogoot start len clock m = Ok (ops, m') ->
  let rm_range := (removal_range start len m).1 in
  let sliced := (removal_range start len m).2 in
  (forall id, id ∈ rm_range ->
     clk (node sliced id) <= clock ->
     LogootPosition.length (logoot_start (node sliced id)) = LogootPosition.length start ->
     type (node m' id) = REMOVAL /\ clk (node m' id) = clock)
  /\ (forall id, id ∈ rm_range ->
        clock < clk (node sliced id)
        \/ LogootPosition.length (logoot_start (node sliced id))
           <> LogootPosition.length start ->
        type (node m' id) = type (node sliced id)
        /\ clk (node m' id) = clk (node sliced id))
  /\ Forall2 (fun op l => exists s, op = RemovalOperation s l) ops
       ((fun id => ldoc_length (node sliced id))
          <$> removed_data start clock sliced rm_range).
Proof.
  intros Hw (m2 & b2 & Hloop & Hq & ->)%removeLogoot_steps.
  unfold removal_range. cbn zeta.
  match type of Hloop with
  | context [sliceNodesIntoRanges ?bs ?ids m] =>
      pose proof (sliceNodesIntoRanges_balanced bs ids m (OperationBuffer.new 0)) as Hs;
      destruct (sliceNodesIntoRanges_members bs ids m) as [_ Hm];
      [intros x Hx; by eapply prefSearch_members|];
      pose proof (sliceNodesIntoRanges_NoDup bs ids m) as Hn;
      destruct (sliceNodesIntoRanges bs ids m) as [groups m1]
  end.
  cbn [fst snd] in *.
  destruct (Hs Hw) as ((_ & Hvalid1 & _) & _).
  assert (Hgroup : groups !!! 1%nat = [] \/ groups !!! 1%nat ∈ groups).
  { destruct (decide (1 < List.length groups)%nat) as [Hlt|Hge].
    - right. by apply list_elem_of_lookup_total_2.
    - left. by rewrite list_lookup_total_alt, lookup_ge_None_2 by lia. }
  assert (Hin : forall id, id ∈ groups !!! 1%nat -> id ∈ bst m1).
  { intros id Hid. destruct Hgroup as [He|Hg]; [rewrite He in Hid; by apply elem_of_nil in Hid|].
    by apply (Hm (groups !!! 1%nat)). }
  assert (Hnodup : NoDup (groups !!! 1%nat)).
  { destruct Hgroup as [->|Hg]; [constructor|]. apply Hn; [| |done].
    - apply prefSearch_NoDup. by destruct Hw.
    - intros x Hx. destruct Hw as (_ & Hv & _). by eapply Hv, prefSearch_members. }
  apply removeLogoot_loop_effect in Hloop
    as (_ & _ & _ & _ & Hgate & ops & Hops & Hall);
    [|done|by intros id ?; apply Hvalid1, Hin].
  destruct Hq as (_ & _ & Hkind).
  split; [|split].
  - intros id Hid Hclk Hnest. specialize (Hgate id Hid).
    rewrite (proj2 (removal_applies_true start clock (node m1 id))) in Hgate by done.
    destruct (Hkind id) as (_ & _ & Ht & Hc). destruct Hgate. split; congruence.
  - intros id Hid Hnot. specialize (Hgate id Hid).
    destruct (removal_applies start clock (node m1 id)) eqn:Happ.
    + apply removal_applies_true in Happ as [? ?]. destruct Hnot; [lia|done].
    + destruct (Hkind id) as (_ & _ & Ht & Hc). destruct Hgate. split; congruence.
  - by rewrite Hops.
Qed.

Lemma removeLogoot_gate_witness :
  exists ops m',
    removeLogoot [(0, 0%nat)] 5 1 removal_doc = Ok (ops, m')
    /\ (removal_range [(0, 0%nat)] 5 removal_doc).1 = [0%nat; 1%nat; 2%nat]
    /\ type (node m' 0%nat) = REMOVAL /\ clk (node m' 0%nat) = 1
    /\ type (node m' 1%nat) = DATA /\ clk (node m' 1%nat) = 5
    /\ type (node m' 2%nat) = DATA /\ clk (node m' 2%nat) = 0
    /\ exists s, ops = [RemovalOperation s 2].
Proof.
  eexists _, _. split; [vm_compute; reflexivity|]. split; [vm_compute; reflexivity|].
  destruct (removeLogoot_gate [(0, 0%nat)] 5 1 removal_doc _ _
              removal_doc_well_formed ltac:(vm_compute; reflexivity))
    as (Hgate & Hkeep & Hops).
  destruct (Hgate 0%nat) as [-> ->];
    [vm_compute; repeat constructor|vm_compute; discriminate|reflexivity|].
  destruct (Hkeep 1%nat) as [-> ->];
    [vm_compute; repeat constructor|left; vm_compute; reflexivity|].
  destruct (Hkeep 2%nat) as [-> ->];
    [vm_compute; repeat constructor|right; vm_compute; lia|].
  repeat split. by eexists.
Defined.

(** C5, as the claim states it, fails in two ways.  The tombstone of
    [tombstone_doc] passes the gate and is given the clock, and no
    [remove] is returned for it, its [ldoc_length] being 0.  And on
    [removal_doc] the node with the clock 5 is in the removal range of a
    removal with the clock 1 and keeps its type and clock, but not its
    anchors: its left anchor is the atom 2 after the slicing and the atom 0
    when [removeLogoot] returns, rewritten by the backward pass of
    [patchRemovalAnchors] at the end of the call. *)
Lemma removeLogoot_gate_fails_as_stated :
  (exists m',
     removeLogoot [(0, 0%nat)] 1 1 tombstone_doc = Ok ([], m')
     /\ (removal_range [(0, 0%nat)] 1 tombstone_doc).1 = [0%nat]
     /\ clk (node tombstone_doc 0%nat) <= 1
     /\ LogootPosition.length (logoot_start (node tombstone_doc 0%nat))
        = LogootPosition.length [(0, 0%nat)]
     /\ type (node m' 0%nat) = REMOVAL /\ clk (node m' 0%nat) = 1)
  /\ (exists ops m',
        removeLogoot [(0, 0%nat)] 4 1 removal_doc = Ok (ops, m')
        /\ 1%nat ∈ (removal_range [(0, 0%nat)] 4 removal_doc).1
        /\ 1 < clk (node (removal_range [(0, 0%nat)] 4 removal_doc).2 1%nat)
        /\ left_anchor (node (removal_range [(0, 0%nat)] 4 removal_doc).2 1%nat)
           = LeftAt [(2, 0%nat)]
        /\ left_anchor (node m' 1%nat) = LeftAt [(0, 0%nat)]).
Proof.
  split.
  - eexists. split; [vm_compute; reflexivity|]. split; [reflexivity|].
    split; [vm_compute; discriminate|]. repeat split.
  - eexists _, _. split; [vm_compute; reflexivity|].
    split; [vm_compute; repeat constructor|].
    split; [vm_compute; reflexivity|]. split; reflexivity.
Qed.
